(** * DeepSearch: a shallow embedding of the retrieval-and-analysis pipeline

    The development follows the three service classes of the repository:
    [WebSearchService] (query engine, content fetcher, domain filter,
    statistics), [LLMService] (term expansion, content analysis, report
    text) and [DeepSearchOrchestrator] (the run, the source analyzer, the
    consolidator), with the part of [DatabaseService] the run relies on.

    Asynchronous methods become computations in a state-and-exception
    monad over a [World]: the trace of calls made to the outside (search
    provider, page fetches, language model, session store, timers) and the
    contents of the session store.  Everything the outside answers is read
    from an environment [Env] of oracles indexed by the trace so far, so
    an oracle may answer the same request differently at different times. *)

From Stdlib Require Import ZArith QArith Ascii String List Bool Lia.
From stdpp Require Import gmap strings list.

Close Scope Q_scope.
Open Scope Z_scope.

(** ** JavaScript values used by the services *)

Module JS.

(** [Math.ceil(n / d)] on integers, for a positive divisor. *)
Definition ceil_div (n d : Z) : Z := - ((- n) / d).

(** [arr.slice(0, end)]: a negative [end] counts from the end of the
    array, and the result never runs past the array. *)
Definition slice0 {A} (l : list A) (end_ : Z) : list A :=
  if end_ <? 0
  then take (Z.to_nat (Z.of_nat (length l) + end_)) l
  else take (Z.to_nat end_) l.

(** The one-character string holding a double quote. *)
Definition dquote : string := String (ascii_of_nat 34) EmptyString.

(** A template literal prints a missing value as the word undefined. *)
Definition template (o : option string) : string :=
  default "undefined" o.

(** [s.includes(p)] *)
Fixpoint includes (p s : string) : bool :=
  String.prefix p s ||
  match s with
  | EmptyString => false
  | String _ s' => includes p s'
  end.

(** Truthiness of a string: only the empty string is falsy. *)
Definition truthy (s : string) : bool :=
  match s with EmptyString => false | _ => true end.

(** [s.substring(0, n)]; a negative bound counts as zero. *)
Definition substring0 (n : Z) (s : string) : string :=
  String.substring 0 (Z.to_nat n) s.

End JS.

(** ** The outside world *)

Inductive LLMTask := ExpandTerms | AnalyzeContent | SynthesizeReport.

Inductive StoreOp :=
| OpCreateSession
| OpUpdateSession (sessionId : nat)
| OpSaveWebSource (url : string)
| OpSaveReport
| OpGetCachedEmbedding (contentHash : string)
| OpCacheEmbedding (contentHash : string).

(** One entry per call that leaves the process, oldest first. *)
Inductive Event :=
| EvSearch (query : string) (dc : Z)
| EvFetch (url : string)
| EvGenerate (task : LLMTask) (text : string)
| EvEmbed (text : string)
| EvStore (op : StoreOp)
| EvSleep (ms : Z).

(** A [.result] block of the provider's page, as the selectors of
    [parseDuckDuckGoResults] read it. *)
Record ResultBlock := {
  rb_title : string;            (* .result__title a, text, trimmed *)
  rb_href : option string;      (* its href attribute *)
  rb_snippet : string           (* .result__snippet, text, trimmed *)
}.

(** A fetched document after the unwanted elements are removed, as the
    selectors of [scrapePage] read it. *)
Record Page := {
  pg_title : string;                    (* $('title').text().trim() *)
  pg_description : option string;       (* meta[name=description] content *)
  pg_candidates : list (option string); (* text of each content selector,
                                           [None] when nothing matches *)
  pg_body : string                      (* $('body').text() *)
}.

(** A row of [embeddings_cache]. *)
Record CacheRow := {
  cr_preview : string;
  cr_embedding : option (list Q);       (* the column may be NULL *)
  cr_model : string
}.

Inductive MetaValue :=
| MText (s : string)
| MFlag (b : bool)
| MCount (n : Z)
| MOptions (useAdvancedSearch generateEmbeddings saveToDatabase : option bool)
           (maxSources : option Z).

Inductive SessionStatus := Pending | Completed | Failed.

(** A row of [search_sessions]; the status column holds 'pending',
    'completed' or 'error'. *)
Record SessionRow := {
  ss_id : nat;
  ss_query : string;
  ss_status : SessionStatus;
  ss_metadata : gmap string MetaValue
}.

Record SourceRow := {
  sr_session : nat;
  sr_url : string;
  sr_title : string;
  sr_content : string;
  sr_summary : option string;
  sr_domain : string;
  sr_embedding : option (list Q)
}.

Record ReportRow := {
  rr_session : nat;
  rr_title : string;
  rr_content : string;
  rr_file_path : string
}.

(** The tables.  A session's id is its row number; the cache has one row
    per [content_hash]. *)
Record Store := {
  search_sessions : list SessionRow;
  web_sources : list SourceRow;
  reports : list ReportRow;
  embeddings_cache : gmap string CacheRow
}.

Record World := {
  trace : list Event;
  store : Store
}.

Definition emit (e : Event) (w : World) : World :=
  {| trace := trace w ++ [e]; store := store w |}.

Inductive StoreFault :=
| NoFault
| ConnectFails (msg : string)   (* pool.connect() rejects *)
| QueryFails (msg : string).    (* client.query() rejects *)

(** What the analysis of a page says, as read from the model's JSON.  A
    score is kept as the number JavaScript's comparison operators see:
    [None] when the field is missing or is not a number. *)
Record Analysis := {
  relevance_score : option Q;
  credibility_score : option Q;
  summary : option string;
  key_points : option (list string);
  insights : option (list string);
  topics : option (list string)
}.

(** What the decoded answer of the term-expansion prompt holds under
    [search_terms].  The terms of an array are taken as the text they
    stand for. *)
Inductive TermsValue :=
| TermsMissing                           (* no such property: undefined *)
| TermsNull                              (* null *)
| TermsArray (terms : list string)
| TermsText (text : string)              (* a string *)
| TermsOther (first : option string).    (* a number, a boolean or an object;
                                            [first] is its property "0" *)

(** The decoded answer of the term-expansion prompt. *)
Record SearchTermsData := {
  original_query : option string;
  search_terms : TermsValue;
  categories : option (list string)
}.

(** Configuration ([config/default.js]) and the oracles. *)
Record Env := {
  (* config.search, config.performance, config.security, config.reports *)
  cfg_maxResults : Z;
  cfg_maxConcurrentScrapes : Z;
  cfg_maxContentLength : Z;
  cfg_parallelProcessingLimit : Z;
  cfg_blockedDomains : list string;
  cfg_allowedDomains : list string;
  cfg_reportsDir : string;
  cfg_embeddingModel : string;
  (* library functions *)
  decodeURIComponent : string -> option string;   (* None: URIError *)
  URL_href : string -> option string;             (* None: invalid URL *)
  URL_hostname : string -> option string;
  md5_hex : string -> string;
  toLowerCase : string -> string;
  toUpperCase : string -> string;
  querySlug : string -> string;        (* the chain of replacements on the query *)
  path_join : string -> string -> string;
  JSON_parse_terms : string -> option SearchTermsData;   (* None: SyntaxError *)
  JSON_parse_analysis : string -> option Analysis;
  (* the network, the model, the store's health, the clock *)
  search_provider : list Event -> string -> Z -> string + list ResultBlock;
  http_get : list Event -> string -> string + Page;
  llm_generate : list Event -> LLMTask -> string -> string + string;
  llm_embed : list Event -> string -> string + list Q;
  store_fault : list Event -> StoreFault;
  now : list Event -> string;
  (* the event loop: the order in which the members of a [Promise.all]
     are resumed once all of them are started, by their place in the
     array *)
  schedule : list Event -> list nat
}.

(** ** Computations *)

Inductive Outcome (A : Type) :=
| Ok (a : A)
| Throw (message : string)
| Hang.                          (* a loop that never ends *)
Arguments Ok {A} a.
Arguments Throw {A} message.
Arguments Hang {A}.

Definition M (A : Type) : Type := World -> Outcome A * World.

Definition ret {A} (a : A) : M A := fun w => (Ok a, w).

Definition throw {A} (message : string) : M A := fun w => (Throw message, w).

Definition bind {A B} (m : M A) (k : A -> M B) : M B :=
  fun w =>
    match m w with
    | (Ok a, w') => k a w'
    | (Throw e, w') => (Throw e, w')
    | (Hang, w') => (Hang, w')
    end.

(** [try { m } catch (error) { h error.message }] *)
Definition try_catch {A} (m : M A) (h : string -> M A) : M A :=
  fun w =>
    match m w with
    | (Ok a, w') => (Ok a, w')
    | (Throw e, w') => h e w'
    | (Hang, w') => (Hang, w')
    end.

Notation "'let*' x ':=' m 'in' k" := (bind m (fun x => k))
  (at level 10, x name, m at level 100, k at level 200).

Definition sleep (ms : Z) : M unit := fun w => (Ok tt, emit (EvSleep ms) w).

(** ** Calls in flight

    An [async] function runs until its next call leaves the process and
    is resumed, some time later, with the outcome of that call.  A [Task]
    is what is left of such a function: its value, or its next call with
    what follows the value of the call and what follows its exception.
    The functions started under [Promise.all] here catch every
    exception, so a task has no exception of its own. *)
Inductive Task (A : Type) : Type :=
| Return (a : A)
| Call {B : Type} (call : M B) (next : B -> Task A) (handler : string -> Task A).
Arguments Return {A} a.
Arguments Call {A B} call next handler.

(** One turn of a task: its next call is made, and what is left waits
    for the outcome.  A call that never returns leaves the task, and
    the [Promise.all] it is part of, waiting for ever. *)
Definition resume {A} (t : Task A) : M (Task A) :=
  fun w =>
    match t with
    | Return a => (Ok (Return a), w)
    | Call call next handler =>
      match call w with
      | (Ok b, w') => (Ok (next b), w')
      | (Throw e, w') => (Ok (handler e), w')
      | (Hang, w') => (Hang, w')
      end
    end.

(** [await task] with nothing else in flight. *)
Fixpoint settle {A} (t : Task A) : M A :=
  match t with
  | Return a => ret a
  | Call call next handler =>
    fun w =>
      match call w with
      | (Ok b, w') => settle (next b) w'
      | (Throw e, w') => settle (handler e) w'
      | (Hang, w') => (Hang, w')
      end
  end.

(** [array.map(f)] for an [async] [f]: every member runs up to its
    first call, in the order of the array. *)
Fixpoint start_all {A} (tasks : list (Task A)) : M (list (Task A)) :=
  match tasks with
  | [] => ret []
  | t :: rest =>
    let* t' := resume t in
    let* rest' := start_all rest in
    ret (t' :: rest')
  end.

(** The members take their turns in the order the event loop gives
    them; a turn of a member that has its value changes nothing. *)
Fixpoint resume_in_order {A} (order : list nat) (tasks : list (Task A))
  : M (list (Task A)) :=
  match order with
  | [] => ret tasks
  | i :: order' =>
    match tasks !! i with
    | Some t =>
      let* t' := resume t in
      resume_in_order order' (<[i := t']> tasks)
    | None => resume_in_order order' tasks
    end
  end.

Fixpoint settle_all {A} (tasks : list (Task A)) : M (list A) :=
  match tasks with
  | [] => ret []
  | t :: rest =>
    let* a := settle t in
    let* rest' := settle_all rest in
    ret (a :: rest')
  end.

(** [await Promise.all(array.map(f))]: the members are started in
    order, take turns as the event loop schedules them, and what is then
    still in flight is seen through, member by member.  The values come
    in the order of the array. *)
Definition promise_all {A} (E : Env) (tasks : list (Task A)) : M (list A) :=
  let* started := start_all tasks in
  fun w =>
    (let* resumed := resume_in_order (schedule E (trace w)) started in
     settle_all resumed) w.

(** [chunkArray(array, chunkSize)]: the loop [for (i = 0; i < length;
    i += chunkSize)] makes no progress when [chunkSize] is not positive;
    [fuel] bounds the number of chunks. *)
Fixpoint chunk_loop {A} (fuel : nat) (chunkSize : nat) (l : list A)
  : option (list (list A)) :=
  match l with
  | [] => Some []
  | _ =>
    match fuel with
    | O => None
    | S fuel' =>
      option_map (cons (take chunkSize l))
                 (chunk_loop fuel' chunkSize (drop chunkSize l))
    end
  end.

Definition chunkArray {A} (array : list A) (chunkSize : Z)
  : option (list (list A)) :=
  chunk_loop (length array) (Z.to_nat chunkSize) array.

(** ** WebSearchService: the query engine *)

(** A search hit; [dork] and [searchTerm] are added by the callers of
    [searchDuckDuckGo]. *)
Record Hit := {
  hit_title : string;
  hit_url : string;
  hit_snippet : string;
  hit_source : string;
  hit_dork : option string;
  hit_searchTerm : option string
}.

Record SearchOptions := {
  so_maxResults : option Z
}.

Section WebSearch.

Variable E : Env.

(** The capture of [/uddg=([^&]+)/]: the text after the first [uddg=]
    that is followed by a character other than [&], up to the next
    [&]. *)
Fixpoint until_amp (s : string) : string :=
  match s with
  | EmptyString => EmptyString
  | String c s' => if Ascii.eqb c "&" then EmptyString else String c (until_amp s')
  end.

Fixpoint match_uddg (s : string) : option string :=
  match s with
  | EmptyString => None
  | String _ s' =>
    if String.prefix "uddg=" s
    then match until_amp (String.substring 5 (String.length s) s) with
         | EmptyString => match_uddg s'
         | captured => Some captured
         end
    else match_uddg s'
  end.

Definition normalizeUrl (url : string) : string :=
  let href := default url (URL_href E url) in
  if JS.includes "/l/?uddg=" url
  then match match_uddg url with
       | Some captured => default url (decodeURIComponent E captured)
       | None => href
       end
  else href.

Definition parseDuckDuckGoResults (blocks : list ResultBlock) : list Hit :=
  omap (fun b =>
          match rb_href b with
          | Some url =>
            if JS.truthy (rb_title b) && JS.truthy url
            then Some {| hit_title := rb_title b;
                         hit_url := normalizeUrl url;
                         hit_snippet := rb_snippet b;
                         hit_source := "duckduckgo";
                         hit_dork := None;
                         hit_searchTerm := None |}
            else None
          | None => None
          end) blocks.

(** [this.searchClient.get(searchUrl, { params })] *)
Definition searchClient_get (query : string) (dc : Z) : M (list ResultBlock) :=
  fun w =>
    match search_provider E (trace w) query dc with
    | inl message => (Throw message, emit (EvSearch query dc) w)
    | inr blocks => (Ok blocks, emit (EvSearch query dc) w)
    end.

Definition searchDuckDuckGo (query : string) (options : SearchOptions)
  : M (list Hit) :=
  let maxResults := default (cfg_maxResults E) (so_maxResults options) in
  try_catch
    (let* blocks := searchClient_get query maxResults in
     let results := parseDuckDuckGoResults blocks in
     ret (JS.slice0 results maxResults))
    (fun _ => ret []).

(** The inner loop of [multiSearch] and the last loop of
    [searchWithDorks]: keep a hit when its URL has not been seen. *)
Fixpoint dedup_into (tag : Hit -> Hit) (results : list Hit)
         (acc : list Hit * gset string) : list Hit * gset string :=
  match results with
  | [] => acc
  | result :: rest =>
    let '(allResults, seenUrls) := acc in
    if decide (hit_url result ∈ seenUrls)
    then dedup_into tag rest acc
    else dedup_into tag rest
           (allResults ++ [tag result], {[ hit_url result ]} ∪ seenUrls)
  end.

Definition with_searchTerm (term : string) (result : Hit) : Hit :=
  {| hit_title := hit_title result; hit_url := hit_url result;
     hit_snippet := hit_snippet result; hit_source := hit_source result;
     hit_dork := hit_dork result; hit_searchTerm := Some term |}.

(** The body of [for (const term of searchTerms)].  Neither the
    deduplication nor the timer raises, so the handler is entered with
    the accumulators as they were before the search. *)
Fixpoint multiSearch_loop (searchTerms : list string) (options : SearchOptions)
         (acc : list Hit * gset string) : M (list Hit) :=
  match searchTerms with
  | [] => ret (fst acc)
  | term :: rest =>
    let* acc' :=
      try_catch
        (let* results := searchDuckDuckGo term options in
         let acc' := dedup_into (with_searchTerm term) results acc in
         let* _ := sleep 1000 in
         ret acc')
        (fun _ => ret acc) in
    multiSearch_loop rest options acc'
  end.

Definition multiSearch (searchTerms : list string) (options : SearchOptions)
  : M (list Hit) :=
  multiSearch_loop searchTerms options ([], ∅).

Definition dorks (baseQuery : option string) : list string :=
  let q := JS.template baseQuery in
  [ JS.dquote +:+ q +:+ JS.dquote;
    q +:+ " filetype:pdf";
    q +:+ " site:wikipedia.org";
    q +:+ " site:edu";
    q +:+ " site:org";
    q +:+ " inurl:blog";
    q +:+ " intitle:" +:+ JS.dquote +:+ q +:+ JS.dquote ].

Definition with_dork (dork : string) (baseQuery : option string)
           (result : Hit) : Hit :=
  {| hit_title := hit_title result; hit_url := hit_url result;
     hit_snippet := hit_snippet result; hit_source := hit_source result;
     hit_dork := Some dork; hit_searchTerm := baseQuery |}.

Fixpoint dork_loop (ds : list string) (nDorks : Z) (baseQuery : option string)
         (allResults : list Hit) : M (list Hit) :=
  match ds with
  | [] => ret allResults
  | dork :: rest =>
    let* allResults' :=
      try_catch
        (let* results :=
           searchDuckDuckGo dork
             {| so_maxResults := Some (JS.ceil_div (cfg_maxResults E) nDorks) |} in
         let allResults' := allResults ++ map (with_dork dork baseQuery) results in
         let* _ := sleep 2000 in
         ret allResults')
        (fun _ => ret allResults) in
    dork_loop rest nDorks baseQuery allResults'
  end.

Definition searchWithDorks (baseQuery : option string) (options : SearchOptions)
  : M (list Hit) :=
  let ds := dorks baseQuery in
  let* allResults := dork_loop ds (Z.of_nat (length ds)) baseQuery [] in
  ret (fst (dedup_into id allResults ([], ∅))).

End WebSearch.

(** ** Plain objects used as counters

    [getTopItems] and [getSearchStats] count with a plain object:
    [obj[k] = (obj[k] || 0) + 1], then [Object.entries(obj)] sorted by
    [([,a], [,b]) => b - a].  Three rules of the language decide what that
    yields: a read of a key the object does not own falls through to
    [Object.prototype]; own keys that are array indices are listed first,
    in ascending numeric order, before the other keys in creation order;
    and [Array.prototype.sort] is stable, with a comparator result that
    is not a number taken as zero. *)

Module Counter.

(** The value held under a key: a number of occurrences, or the text
    that results from adding [1] to an inherited function. *)
Inductive Count := Times (n : nat) | Junk.

(** Own properties, in creation order. *)
Abbreviation t := (list (string * Count)).

(** Property names of [Object.prototype]. *)
Definition prototype_names : list string :=
  [ "constructor"; "__defineGetter__"; "__defineSetter__"; "hasOwnProperty";
    "__lookupGetter__"; "__lookupSetter__"; "isPrototypeOf";
    "propertyIsEnumerable"; "toString"; "valueOf"; "__proto__";
    "toLocaleString" ].

Definition inherited (k : string) : bool :=
  bool_decide (k ∈ prototype_names).

Definition digit_of (c : ascii) : option N :=
  let n := N_of_ascii c in
  if ((48 <=? n) && (n <=? 57))%N then Some (n - 48)%N else None.

Fixpoint digits_value (s : string) (acc : N) : option N :=
  match s with
  | EmptyString => Some acc
  | String c s' =>
    match digit_of c with
    | Some d => digits_value s' (10 * acc + d)%N
    | None => None
    end
  end.

(** An array index is a canonical decimal numeral below [2^32 - 1]. *)
Definition array_index (k : string) : option N :=
  match k with
  | EmptyString => None
  | String c rest =>
    if Ascii.eqb c "0"
    then match rest with EmptyString => Some 0%N | _ => None end
    else match digits_value k 0 with
         | Some n => if (n <? 4294967295)%N then Some n else None
         | None => None
         end
  end.

Fixpoint own (o : t) (k : string) : option Count :=
  match o with
  | [] => None
  | (k', v) :: o' => if decide (k' = k) then Some v else own o' k
  end.

Fixpoint set_own (o : t) (k : string) (v : Count) : t :=
  match o with
  | [] => []
  | (k', v') :: o' =>
    if decide (k' = k) then (k', v) :: o' else (k', v') :: set_own o' k v
  end.

(** [obj[k] = (obj[k] || 0) + 1].  Under an inherited name the sum is a
    string; assigning a string to [__proto__] creates nothing. *)
Definition bump (o : t) (k : string) : t :=
  match own o k with
  | Some (Times n) => set_own o k (Times (S n))
  | Some Junk => set_own o k Junk
  | None =>
    if inherited k
    then (if decide (k = "__proto__") then o else o ++ [(k, Junk)])
    else o ++ [(k, Times 1)]
  end.

Definition count_all (items : list string) : t :=
  fold_left bump items [].

Fixpoint insert_index (e : N * (string * Count))
         (l : list (N * (string * Count))) : list (N * (string * Count)) :=
  match l with
  | [] => [e]
  | e' :: l' =>
    if (fst e <? fst e')%N then e :: e' :: l' else e' :: insert_index e l'
  end.

Definition index_entries (o : t) : list (N * (string * Count)) :=
  omap (fun kv => option_map (fun i => (i, kv)) (array_index (fst kv))) o.

(** [Object.entries(obj)] *)
Definition entries (o : list (string * Count)) : list (string * Count) :=
  map snd (foldr insert_index [] (index_entries o))
  ++ filter (fun kv => array_index (fst kv) = None) o.

(** [b - a]: [None] stands for NaN. *)
Definition compare_desc (a b : Count) : option Z :=
  match a, b with
  | Times x, Times y => Some (Z.of_nat y - Z.of_nat x)
  | _, _ => None
  end.

(** Whether the comparator puts [y] strictly before [x]. *)
Definition strictly_before (y x : string * Count) : bool :=
  match compare_desc (snd y) (snd x) with
  | Some d => d <? 0
  | None => false
  end.

Fixpoint insert_stable (x : string * Count) (sorted : list (string * Count))
  : list (string * Count) :=
  match sorted with
  | [] => [x]
  | y :: ys =>
    if strictly_before y x then y :: insert_stable x ys else x :: y :: ys
  end.

(** [.sort(([,a], [,b]) => b - a)]: the stable order, which is the
    order every stable sort produces when all counts are numbers. *)
Definition sort_desc (l : list (string * Count)) : list (string * Count) :=
  foldr insert_stable [] l.

End Counter.

(** ** WebSearchService: domain filter, content fetcher, statistics

    Characters are code units below 256; the white space of [\s] and of
    [trim] in that range is tab, line feed, vertical tab, form feed,
    carriage return, space and the no-break space. *)

Module Text.

Definition is_space (c : ascii) : bool :=
  let n := nat_of_ascii c in
  ((9 <=? n)%nat && (n <=? 13)%nat) || (n =? 32)%nat || (n =? 160)%nat.

Definition is_newline (c : ascii) : bool := (nat_of_ascii c =? 10)%nat.

Definition is_line_terminator (c : ascii) : bool :=
  let n := nat_of_ascii c in (n =? 10)%nat || (n =? 13)%nat.

(** [s.replace(/[class]+/g, by)]: each maximal run of characters of the
    class becomes the single character [by]. *)
Fixpoint replace_runs (class : ascii -> bool) (by_ : ascii) (in_run : bool)
         (s : string) : string :=
  match s with
  | EmptyString => EmptyString
  | String c s' =>
    if class c
    then (if in_run then replace_runs class by_ true s'
          else String by_ (replace_runs class by_ true s'))
    else String c (replace_runs class by_ false s')
  end.

Fixpoint trim_start (s : string) : string :=
  match s with
  | EmptyString => EmptyString
  | String c s' => if is_space c then trim_start s' else s
  end.

Fixpoint trim_end (s : string) : string :=
  match s with
  | EmptyString => EmptyString
  | String c s' =>
    match trim_end s' with
    | EmptyString => if is_space c then EmptyString else String c EmptyString
    | rest => String c rest
    end
  end.

Definition trim (s : string) : string := trim_end (trim_start s).

(** [s.split(/\s+/).length]: one more than the number of runs of white
    space. *)
Fixpoint count_runs (in_run : bool) (s : string) : nat :=
  match s with
  | EmptyString => O
  | String c s' =>
    if is_space c
    then (if in_run then count_runs true s' else S (count_runs true s'))
    else count_runs false s'
  end.

Definition split_length (s : string) : nat := S (count_runs false s).

End Text.

(** The regular expressions [isAllowedDomain] builds: the pattern with
    every [*] replaced by [.*].  A dot of the pattern stays a dot of the
    expression, every other character stands for itself; patterns are
    host globs and hold no other metacharacter of the expression
    language. *)
Module Glob.

Inductive Atom := Lit (c : ascii) | AnyChar | AnyStar.

Fixpoint compile (pattern : string) : list Atom :=
  match pattern with
  | EmptyString => []
  | String c p' =>
    (if Ascii.eqb c "*" then AnyStar
     else if Ascii.eqb c "." then AnyChar
     else Lit c) :: compile p'
  end.

Fixpoint match_here (r : list Atom) (s : string) : bool :=
  match r with
  | [] => true
  | Lit c :: r' =>
    match s with
    | String a s' => Ascii.eqb a c && match_here r' s'
    | EmptyString => false
    end
  | AnyChar :: r' =>
    match s with
    | String a s' => negb (Text.is_line_terminator a) && match_here r' s'
    | EmptyString => false
    end
  | AnyStar :: r' =>
    (fix star (s : string) : bool :=
       match_here r' s ||
       match s with
       | String a s' => negb (Text.is_line_terminator a) && star s'
       | EmptyString => false
       end) s
  end.

(** [regex.test(s)]: a match starting anywhere. *)
Fixpoint test (r : list Atom) (s : string) : bool :=
  match_here r s ||
  match s with
  | String _ s' => test r s'
  | EmptyString => false
  end.

(** One pattern of the configuration against a host. *)
Definition pattern_matches (pattern domain : string) : bool :=
  if JS.includes "*" pattern
  then test (compile pattern) domain
  else JS.includes pattern domain.

(** Characters with a meaning of their own in an expression, besides
    the dot and the star. *)
Definition metachar (c : ascii) : bool :=
  bool_decide (c ∈ list_ascii_of_string "\^$+?()[]{}|").

Fixpoint host_glob (pattern : string) : bool :=
  match pattern with
  | EmptyString => true
  | String c p' => negb (metachar c) && host_glob p'
  end.

End Glob.

Record ScrapedSource := {
  src_url : string;
  src_title : string;
  src_description : string;
  src_content : string;
  src_domain : string;
  src_searchTerm : option string;
  src_scrapedAt : string;
  src_wordCount : nat;
  src_contentLength : nat
}.

Record SearchStats := {
  totalResults : nat;
  domains : Counter.t;
  averageContentLength : option Z;      (* [None]: NaN, no results *)
  totalWords : nat;
  topDomains : list (string * Counter.Count)
}.

Section Scraping.

Variable E : Env.

Definition cleanContent (content : string) : string :=
  Text.trim
    (Text.replace_runs (fun c => Text.is_space c && negb (Text.is_newline c)) " " false
       (Text.replace_runs Text.is_newline (ascii_of_nat 10) false
          (Text.replace_runs Text.is_space " " false content))).

Definition isAllowedDomain (url : string) : bool :=
  match URL_hostname E url with
  | None => false
  | Some domain =>
    if existsb (fun blockedPattern => Glob.pattern_matches blockedPattern domain)
               (cfg_blockedDomains E)
    then false
    else if bool_decide ("*" ∈ cfg_allowedDomains E) then true
    else existsb (fun allowedPattern => Glob.pattern_matches allowedPattern domain)
                 (cfg_allowedDomains E)
  end.

(** [this.scrapeClient.get(url, ...)]; a status of 400 or more and an
    empty body are failures as well. *)
Definition scrapeClient_get (url : string) : M Page :=
  fun w =>
    match http_get E (trace w) url with
    | inl message => (Throw message, emit (EvFetch url) w)
    | inr page => (Ok page, emit (EvFetch url) w)
    end.

Definition clock : M string := fun w => (Ok (now E (trace w)), w).

(** The loop over [contentSelectors]. *)
Definition longest_candidate (candidates : list (option string)) : string :=
  fold_left
    (fun content candidate =>
       match candidate with
       | Some text =>
         if (String.length content <? String.length text)%nat
         then text else content
       | None => content
       end)
    candidates EmptyString.

(** The content block of a page: the longest candidate, or the whole
    body when no candidate reaches 100 characters. *)
Definition extractContent (page : Page) : string :=
  let content := longest_candidate (pg_candidates page) in
  if (String.length content <? 100)%nat then pg_body page else content.

Definition scrapePage (urlInfo : Hit) : M (option ScrapedSource) :=
  try_catch
    (if negb (isAllowedDomain (hit_url urlInfo)) then ret None
     else
       let* page := scrapeClient_get (hit_url urlInfo) in
       let title :=
         if JS.truthy (pg_title page) then pg_title page else hit_title urlInfo in
       let description := default EmptyString (pg_description page) in
       let content := cleanContent (extractContent page) in
       if (String.length content <? 100)%nat then ret None
       else
         match URL_hostname E (hit_url urlInfo) with
         | None => throw "Invalid URL"
         | Some domain =>
           let* scrapedAt := clock in
           ret (Some {| src_url := hit_url urlInfo;
                        src_title := JS.substring0 500 title;
                        src_description := JS.substring0 1000 description;
                        src_content := JS.substring0 (cfg_maxContentLength E) content;
                        src_domain := domain;
                        src_searchTerm := hit_searchTerm urlInfo;
                        src_scrapedAt := scrapedAt;
                        src_wordCount := Text.split_length content;
                        src_contentLength := String.length content |})
         end)
    (fun _ => ret None).

(** [scrapePage] call by call, as it runs beside the other members of
    its chunk: the page is fetched in one turn and read, with the clock,
    in a later one.  Awaited alone it is [scrapePage]. *)
Definition scrapePage_task (urlInfo : Hit) : Task (option ScrapedSource) :=
  if negb (isAllowedDomain (hit_url urlInfo)) then Return None
  else
    Call (scrapeClient_get (hit_url urlInfo))
         (fun page =>
            let title :=
              if JS.truthy (pg_title page) then pg_title page else hit_title urlInfo in
            let description := default EmptyString (pg_description page) in
            let content := cleanContent (extractContent page) in
            if (String.length content <? 100)%nat then Return None
            else
              match URL_hostname E (hit_url urlInfo) with
              | None => Return None
              | Some domain =>
                Call clock
                     (fun scrapedAt =>
                        Return (Some {| src_url := hit_url urlInfo;
                                        src_title := JS.substring0 500 title;
                                        src_description := JS.substring0 1000 description;
                                        src_content :=
                                          JS.substring0 (cfg_maxContentLength E) content;
                                        src_domain := domain;
                                        src_searchTerm := hit_searchTerm urlInfo;
                                        src_scrapedAt := scrapedAt;
                                        src_wordCount := Text.split_length content;
                                        src_contentLength := String.length content |}))
                     (fun _ => Return None)
              end)
         (fun _ => Return None).

(** [chunk.map(urlInfo => this.scrapePage(urlInfo).catch(...))] then
    [Promise.all]: the fetches of all members leave first, in the order
    of the chunk; the pages are read as the event loop hands them out.
    The results keep the order of the chunk. *)
Definition scrape_chunk (chunk : list Hit) : M (list (option ScrapedSource)) :=
  promise_all E (map scrapePage_task chunk).

Fixpoint scrape_chunks (chunks : list (list Hit)) (results : list ScrapedSource)
  : M (list ScrapedSource) :=
  match chunks with
  | [] => ret results
  | chunk :: rest =>
    let* chunkResults := scrape_chunk chunk in
    let results := results ++ omap id chunkResults in
    let* _ := sleep 500 in
    scrape_chunks rest results
  end.

Definition scrapeContent (urls : list Hit) : M (list ScrapedSource) :=
  match chunkArray urls (cfg_maxConcurrentScrapes E) with
  | None => fun w => (Hang, w)
  | Some chunks => scrape_chunks chunks []
  end.

Definition getSearchStats (results : list ScrapedSource) : SearchStats :=
  let domains :=
    fold_left
      (fun o result =>
         Counter.bump o (if JS.truthy (src_domain result)
                         then src_domain result else "unknown"))
      results [] in
  let totalContentLength :=
    fold_left (fun n result => (n + src_contentLength result)%nat) results O in
  let totalWords :=
    fold_left (fun n result => (n + src_wordCount result)%nat) results O in
  {| totalResults := length results;
     domains := domains;
     averageContentLength :=
       match length results with
       | O => None
       | n => Some ((2 * Z.of_nat totalContentLength + Z.of_nat n)
                    / (2 * Z.of_nat n))
       end;
     totalWords := totalWords;
     topDomains := JS.slice0 (Counter.sort_desc (Counter.entries domains)) 10 |}.

End Scraping.

(** ** LLMService *)

Module LLMService.
Section LLM.

Variable E : Env.

(** [generateResponse(prompt, options)]: the prompt is determined by the
    task and its text. *)
Definition generateResponse (task : LLMTask) (text : string) : M string :=
  fun w =>
    match llm_generate E (trace w) task text with
    | inl message =>
      (Throw ("Erro ao gerar resposta: " +:+ message), emit (EvGenerate task text) w)
    | inr response => (Ok response, emit (EvGenerate task text) w)
    end.

(** [generateEmbedding(text)] returns the vector and the model's name. *)
Definition generateEmbedding (text : string) : M (list Q * string) :=
  fun w =>
    match llm_embed E (trace w) text with
    | inl message =>
      (Throw ("Erro ao gerar embedding: " +:+ message), emit (EvEmbed text) w)
    | inr embedding => (Ok (embedding, cfg_embeddingModel E), emit (EvEmbed text) w)
    end.

(** [response.match(/\{[\s\S]*\}/)]: from the first opening brace to the
    last closing brace after it. *)
Fixpoint from_first_brace (s : string) : option string :=
  match s with
  | EmptyString => None
  | String c s' => if Ascii.eqb c "{" then Some s else from_first_brace s'
  end.

Fixpoint upto_last_brace (s : string) : option string :=
  match s with
  | EmptyString => None
  | String c s' =>
    match upto_last_brace s' with
    | Some t => Some (String c t)
    | None => if Ascii.eqb c "}" then Some (String c EmptyString) else None
    end
  end.

Definition match_braces (response : string) : option string :=
  match from_first_brace response with
  | Some s => upto_last_brace s
  | None => None
  end.

Definition is_quote (c : ascii) : bool :=
  let n := nat_of_ascii c in (n =? 34)%nat || (n =? 39)%nat.

(** The captures of the global pattern in [extractSearchTermsFallback]
    (a quote of either kind, one or more characters that are not
    quotes, a quote), left to right.  [inside] holds the characters
    read since an opening quote. *)
Fixpoint quoted (inside : option string) (s : string) : list string :=
  match s with
  | EmptyString => []
  | String c s' =>
    match inside with
    | None => if is_quote c then quoted (Some EmptyString) s' else quoted None s'
    | Some EmptyString =>
      if is_quote c then quoted (Some EmptyString) s'
      else quoted (Some (String c EmptyString)) s'
    | Some acc =>
      if is_quote c then acc :: quoted None s'
      else quoted (Some (acc +:+ String c EmptyString)) s'
    end
  end.

(** [terms.add(term)] on a [Set], which keeps insertion order. *)
Definition set_add (terms : list string) (term : string) : list string :=
  if decide (term ∈ terms) then terms else terms ++ [term].

Definition extractSearchTermsFallback (query response : string)
  : SearchTermsData :=
  let terms :=
    fold_left
      (fun terms m =>
         let term := Text.trim m in
         if (2 <? String.length term)%nat && (String.length term <? 50)%nat
         then set_add terms term else terms)
      (quoted None response) [query] in
  {| original_query := Some query;
     search_terms := TermsArray (JS.slice0 terms 10);
     categories := Some ["geral"] |}.

Definition simple_fallback (query : string) : SearchTermsData :=
  {| original_query := Some query;
     search_terms := TermsArray [query];
     categories := Some ["geral"] |}.

Definition generateSearchTerms (query : string) : M SearchTermsData :=
  try_catch
    (let* response := generateResponse ExpandTerms query in
     match match_braces response with
     | Some jsonMatch =>
       match JSON_parse_terms E jsonMatch with
       | Some data => ret data
       | None => throw "SyntaxError"
       end
     | None => ret (extractSearchTermsFallback query response)
     end)
    (fun _ => ret (simple_fallback query)).

Definition default_analysis (content : string) : Analysis :=
  {| relevance_score := Some (50 # 1)%Q;
     key_points := Some ["Conteúdo disponível para análise"];
     summary := Some (JS.substring0 500 content +:+ "...");
     insights := Some [];
     credibility_score := Some (50 # 1)%Q;
     topics := Some ["geral"] |}.

Definition analyzeWebContent (content query : string) : M Analysis :=
  try_catch
    (let* response := generateResponse AnalyzeContent content in
     match match_braces response with
     | Some jsonMatch =>
       match JSON_parse_analysis E jsonMatch with
       | Some analysis => ret analysis
       | None => throw "SyntaxError"
       end
     | None => throw "Resposta inválida do LLM"
     end)
    (fun _ => ret (default_analysis content)).

Definition generateFinalReport (query : string) : M string :=
  try_catch
    (generateResponse SynthesizeReport query)
    (fun message => throw ("Erro ao gerar relatório: " +:+ message)).

End LLM.
End LLMService.

(** ** DatabaseService

    Every method first takes a connection from the pool, outside its
    [try]; a failure there always reaches the caller.  A failing query is
    re-raised by the session, source and report methods and swallowed by
    the two cache methods. *)

Section Database.

Variable E : Env.

Definition store_call {A} (op : StoreOp) (swallow : option A)
           (run : Store -> A * Store) : M A :=
  fun w =>
    let w1 := emit (EvStore op) w in
    match store_fault E (trace w) with
    | NoFault =>
      let '(a, s') := run (store w) in
      (Ok a, {| trace := trace w1; store := s' |})
    | ConnectFails message => (Throw message, w1)
    | QueryFails message =>
      match swallow with
      | Some a => (Ok a, w1)
      | None => (Throw message, w1)
      end
    end.

Definition createSearchSession (query : string)
           (metadata : gmap string MetaValue) : M SessionRow :=
  store_call OpCreateSession None
    (fun s =>
       let row := {| ss_id := length (search_sessions s);
                     ss_query := query;
                     ss_status := Pending;
                     ss_metadata := metadata |} in
       (row, {| search_sessions := search_sessions s ++ [row];
                web_sources := web_sources s;
                reports := reports s;
                embeddings_cache := embeddings_cache s |})).

Definition updateSearchSession (sessionId : nat) (status : SessionStatus)
           (metadata : gmap string MetaValue) : M (option SessionRow) :=
  store_call (OpUpdateSession sessionId) None
    (fun s =>
       let updated :=
         (fun row => {| ss_id := ss_id row; ss_query := ss_query row;
                        ss_status := status; ss_metadata := metadata |})
           <$> search_sessions s !! sessionId in
       (updated,
        {| search_sessions :=
             match updated with
             | Some row => <[sessionId := row]> (search_sessions s)
             | None => search_sessions s
             end;
           web_sources := web_sources s;
           reports := reports s;
           embeddings_cache := embeddings_cache s |})).

Definition saveWebSource (sessionId : nat) (source : ScrapedSource)
           (summary : option string) (embedding : option (list Q)) : M unit :=
  store_call (OpSaveWebSource (src_url source)) None
    (fun s =>
       (tt, {| search_sessions := search_sessions s;
               web_sources :=
                 web_sources s ++
                 [{| sr_session := sessionId;
                     sr_url := src_url source;
                     sr_title := JS.substring0 500 (src_title source);
                     sr_content :=
                       JS.substring0 (cfg_maxContentLength E) (src_content source);
                     sr_summary := JS.substring0 2000 <$> summary;
                     sr_domain := src_domain source;
                     sr_embedding := embedding |}];
               reports := reports s;
               embeddings_cache := embeddings_cache s |})).

Definition saveReport (sessionId : nat) (title content file_path : string)
  : M unit :=
  store_call OpSaveReport None
    (fun s =>
       (tt, {| search_sessions := search_sessions s;
               web_sources := web_sources s;
               reports :=
                 reports s ++
                 [{| rr_session := sessionId; rr_title := title;
                     rr_content := content; rr_file_path := file_path |}];
               embeddings_cache := embeddings_cache s |})).

(** [result.rows[0] || null] *)
Definition getCachedEmbedding (contentHash : string) : M (option CacheRow) :=
  store_call (OpGetCachedEmbedding contentHash) (Some None)
    (fun s => (embeddings_cache s !! contentHash, s)).

(** [INSERT ... ON CONFLICT (content_hash) DO UPDATE]: a row that is
    already there keeps its preview. *)
Definition cacheEmbedding (contentHash contentPreview : string)
           (embedding : list Q) (modelUsed : string) : M unit :=
  store_call (OpCacheEmbedding contentHash) (Some tt)
    (fun s =>
       let preview :=
         match embeddings_cache s !! contentHash with
         | Some row => cr_preview row
         | None => JS.substring0 500 contentPreview
         end in
       (tt, {| search_sessions := search_sessions s;
               web_sources := web_sources s;
               reports := reports s;
               embeddings_cache :=
                 <[contentHash := {| cr_preview := preview;
                                     cr_embedding := Some embedding;
                                     cr_model := modelUsed |}]>
                   (embeddings_cache s) |})).

End Database.

(** ** DeepSearchOrchestrator *)

Record DeepSearchOptions := {
  useAdvancedSearch : option bool;
  generateEmbeddings : option bool;
  maxSources : option Z;
  saveToDatabase : option bool
}.

Record WebResults := {
  wr_searchTerms : TermsValue;
  wr_sources : list ScrapedSource;
  wr_stats : SearchStats
}.

Record AnalysisResult := {
  ar_source : ScrapedSource;
  ar_analysis : Analysis;
  ar_embedding : option (list Q);     (* the first ten entries, for the log *)
  ar_processingTime : string
}.

Record SourceSummary := {
  sum_url : string;
  sum_domain : string;
  sum_title : string;
  sum_relevance : option Q;
  sum_credibility : option Q;
  sum_summary : option string
}.

Record Synthesis := {
  syn_query : string;
  totalSources : nat;
  highRelevanceSources : nat;
  mediumRelevanceSources : nat;
  lowRelevanceSources : nat;
  topKeyPoints : list (string * Counter.Count);
  topInsights : list (string * Counter.Count);
  topTopics : list (string * Counter.Count);
  syn_sources : list SourceSummary
}.

Record ContentAnalysis := {
  individualAnalyses : list AnalysisResult;
  consolidatedAnalysis : Synthesis;
  ca_totalSources : nat;
  successfulAnalyses : nat
}.

Record Report := {
  rep_title : string;
  rep_content : string;
  rep_filename : string;
  rep_filepath : string;
  rep_query : string;
  rep_timestamp : string;
  rep_sourceCount : nat;
  rep_successfulAnalyses : nat
}.

Record DeepSearchResult := {
  res_sessionId : option nat;
  res_query : string;
  res_searchTerms : SearchTermsData;
  res_webResults : WebResults;
  res_analysis : ContentAnalysis;
  res_report : Report
}.

(** Comparisons of a score with a number; a score that is not a number
    compares false either way. *)
Module Score.

Definition ge (s : option Q) (n : Q) : bool :=
  match s with Some q => Qle_bool n q | None => false end.

Definition lt (s : option Q) (n : Q) : bool :=
  match s with Some q => negb (Qle_bool n q) | None => false end.

Definition gt (s : option Q) (n : Q) : bool :=
  match s with Some q => negb (Qle_bool q n) | None => false end.

End Score.

Module Orchestrator.
Section Orchestrator.

Variable E : Env.

Definition generateSearchTerms (query : string) : M SearchTermsData :=
  try_catch
    (LLMService.generateSearchTerms E query)
    (fun _ => ret (LLMService.simple_fallback query)).

(** The first half of [performWebSearch]: the hits handed to
    [scrapeContent]. *)
Definition searchPhase (searchTerms : list string) (maxResults : Z)
           (advanced : bool) : M (list Hit) :=
  if advanced
  then
    let primaryTerm := head searchTerms in
    let* dorkResults :=
      searchWithDorks E primaryTerm
        {| so_maxResults := Some (JS.ceil_div maxResults 2) |} in
    let otherTerms := tail searchTerms in
    match otherTerms with
    | [] => ret dorkResults
    | _ =>
      let* normalResults :=
        multiSearch E otherTerms
          {| so_maxResults := Some (JS.ceil_div maxResults 2) |} in
      ret (dorkResults ++ normalResults)
    end
  else
    multiSearch E searchTerms {| so_maxResults := Some maxResults |}.

Definition performWebSearch (searchTerms : list string)
           (maxResults : option Z) (advanced : option bool) : M WebResults :=
  let maxResults := default (cfg_maxResults E) maxResults in
  let advanced := default true advanced in
  try_catch
    (let* searchResults := searchPhase searchTerms maxResults advanced in
     let* scrapedContent := scrapeContent E searchResults in
     let stats := getSearchStats scrapedContent in
     ret {| wr_searchTerms := TermsArray searchTerms;
            wr_sources := scrapedContent;
            wr_stats := stats |})
    (fun message => throw ("Falha na busca web: " +:+ message)).

Definition contentForEmbedding (source : ScrapedSource) : string :=
  JS.substring0 8000
    (src_title source +:+ String (ascii_of_nat 10) (String (ascii_of_nat 10) EmptyString)
     +:+ src_content source).

Definition embedding_wanted (wanted : bool) (analysis : Analysis) : bool :=
  wanted && Score.gt (relevance_score analysis) (30 # 1)%Q.

(** The block guarded by [generateEmbeddings && relevance_score > 30].
    The vector is assigned before the cache is written, so a failure of
    the write leaves it in place. *)
Definition resolveEmbedding (source : ScrapedSource) : M (option (list Q)) :=
  let text := contentForEmbedding source in
  let contentHash := md5_hex E text in
  let* cached := getCachedEmbedding E contentHash in
  match cached ≫= cr_embedding with
  | Some embedding => ret (Some embedding)
  | None =>
    let* generated :=
      try_catch
        (let* r := LLMService.generateEmbedding E text in ret (Some r))
        (fun _ => ret None) in
    match generated with
    | Some (embedding, model) =>
      let* _ :=
        try_catch
          (cacheEmbedding E contentHash (JS.substring0 500 text) embedding model)
          (fun _ => ret tt) in
      ret (Some embedding)
    | None => ret None
    end
  end.

Definition analyzeSingleSource (query : string) (source : ScrapedSource)
           (wanted : bool) (sessionId : option nat)
  : M (option AnalysisResult) :=
  try_catch
    (let* analysis := LLMService.analyzeWebContent E (src_content source) query in
     let* embedding :=
       if embedding_wanted wanted analysis
       then resolveEmbedding source
       else ret None in
     let* _ :=
       match sessionId with
       | Some id => saveWebSource E id source (summary analysis) embedding
       | None => ret tt
       end in
     let* processingTime := clock E in
     ret (Some {| ar_source := source;
                  ar_analysis := analysis;
                  ar_embedding := take 10 <$> embedding;
                  ar_processingTime := processingTime |}))
    (fun _ => ret None).

(** [getTopItems(items, limit)] *)
Definition getTopItems (items : list string) (limit : Z)
  : list (string * Counter.Count) :=
  JS.slice0 (Counter.sort_desc (Counter.entries (Counter.count_all items))) limit.

Definition relevance (a : AnalysisResult) : option Q :=
  relevance_score (ar_analysis a).

Definition consolidateAnalyses (query : string) (analyses : list AnalysisResult)
  : Synthesis :=
  let allKeyPoints :=
    concat (map (fun a => default [] (key_points (ar_analysis a))) analyses) in
  let allInsights :=
    concat (map (fun a => default [] (insights (ar_analysis a))) analyses) in
  let allTopics :=
    concat (map (fun a => default [] (topics (ar_analysis a))) analyses) in
  {| syn_query := query;
     totalSources := length analyses;
     highRelevanceSources :=
       length (List.filter (fun a => Score.ge (relevance a) (70 # 1)%Q) analyses);
     mediumRelevanceSources :=
       length (List.filter (fun a => Score.ge (relevance a) (40 # 1)%Q
                                     && Score.lt (relevance a) (70 # 1)%Q) analyses);
     lowRelevanceSources :=
       length (List.filter (fun a => Score.lt (relevance a) (40 # 1)%Q) analyses);
     topKeyPoints := getTopItems allKeyPoints 10;
     topInsights := getTopItems allInsights 10;
     topTopics := getTopItems allTopics 10;
     syn_sources :=
       map (fun a => {| sum_url := src_url (ar_source a);
                        sum_domain := src_domain (ar_source a);
                        sum_title := src_title (ar_source a);
                        sum_relevance := relevance a;
                        sum_credibility := credibility_score (ar_analysis a);
                        sum_summary := summary (ar_analysis a) |}) analyses |}.

(** [analyzeSingleSource] call by call, as it runs beside the other
    members of its batch: every [await] of the method is a place where
    the others take their turns.  Awaited alone it is
    [analyzeSingleSource]. *)
Definition finish_task (source : ScrapedSource) (analysis : Analysis)
           (embedding : option (list Q)) : Task (option AnalysisResult) :=
  Call (clock E)
       (fun processingTime =>
          Return (Some {| ar_source := source;
                          ar_analysis := analysis;
                          ar_embedding := take 10 <$> embedding;
                          ar_processingTime := processingTime |}))
       (fun _ => Return None).

Definition save_task (source : ScrapedSource) (analysis : Analysis)
           (embedding : option (list Q)) (sessionId : option nat)
  : Task (option AnalysisResult) :=
  match sessionId with
  | Some id =>
    Call (saveWebSource E id source (summary analysis) embedding)
         (fun _ => finish_task source analysis embedding)
         (fun _ => Return None)
  | None => finish_task source analysis embedding
  end.

Definition embedding_task (source : ScrapedSource)
           (continue : option (list Q) -> Task (option AnalysisResult))
  : Task (option AnalysisResult) :=
  let text := contentForEmbedding source in
  let contentHash := md5_hex E text in
  Call (getCachedEmbedding E contentHash)
       (fun cached =>
          match cached ≫= cr_embedding with
          | Some embedding => continue (Some embedding)
          | None =>
            Call (LLMService.generateEmbedding E text)
                 (fun generated =>
                    Call (cacheEmbedding E contentHash (JS.substring0 500 text)
                                         (fst generated) (snd generated))
                         (fun _ => continue (Some (fst generated)))
                         (fun _ => continue (Some (fst generated))))
                 (fun _ => continue None)
          end)
       (fun _ => Return None).

Definition analyzeSingleSource_task (query : string) (source : ScrapedSource)
           (wanted : bool) (sessionId : option nat)
  : Task (option AnalysisResult) :=
  Call (LLMService.analyzeWebContent E (src_content source) query)
       (fun analysis =>
          if embedding_wanted wanted analysis
          then embedding_task source
                 (fun embedding => save_task source analysis embedding sessionId)
          else save_task source analysis None sessionId)
       (fun _ => Return None).

(** One batch: [batch.map(source => this.analyzeSingleSource(...))]
    and [Promise.all].  The analysis calls of all members are made
    first, in the order of the batch; what each member does after that
    interleaves with the others. *)
Definition analyze_batch (query : string) (batch : list ScrapedSource)
           (wanted : bool) (sessionId : option nat)
  : M (list (option AnalysisResult)) :=
  promise_all E
    (map (fun source => analyzeSingleSource_task query source wanted sessionId) batch).

Fixpoint analyze_batches (query : string) (batches : list (list ScrapedSource))
         (wanted : bool) (sessionId : option nat)
         (analyses : list AnalysisResult) : M (list AnalysisResult) :=
  match batches with
  | [] => ret analyses
  | batch :: rest =>
    let* batchResults := analyze_batch query batch wanted sessionId in
    let analyses := analyses ++ omap id batchResults in
    let* _ := sleep 1000 in
    analyze_batches query rest wanted sessionId analyses
  end.

Definition analyzeContent (query : string) (webResults : WebResults)
           (wanted : option bool) (sessionId : option nat)
  : M ContentAnalysis :=
  let wanted := default true wanted in
  try_catch
    (match chunkArray (wr_sources webResults) (cfg_parallelProcessingLimit E) with
     | None => fun w => (Hang, w)
     | Some batches =>
       let* analyses := analyze_batches query batches wanted sessionId [] in
       let consolidated := consolidateAnalyses query analyses in
       ret {| individualAnalyses := analyses;
              consolidatedAnalysis := consolidated;
              ca_totalSources := length (wr_sources webResults);
              successfulAnalyses := length analyses |}
     end)
    (fun message => throw message).

(** [query.split(' ')] *)
Fixpoint split_space (current : string) (s : string) : list string :=
  match s with
  | EmptyString => [current]
  | String c s' =>
    if Ascii.eqb c " " then current :: split_space EmptyString s'
    else split_space (current +:+ String c EmptyString) s'
  end.

Definition capitalize (word : string) : string :=
  match word with
  | EmptyString => EmptyString
  | String c rest =>
    toUpperCase E (String c EmptyString) +:+ toLowerCase E rest
  end.

Definition generateReportTitle (query : string) : string :=
  String.concat " " (map capitalize (take 8 (split_space EmptyString query))).

(** [s.replace(/[:\-T]/g, '')] *)
Fixpoint strip_separators (s : string) : string :=
  match s with
  | EmptyString => EmptyString
  | String c s' =>
    if Ascii.eqb c ":" || Ascii.eqb c "-" || Ascii.eqb c "T"
    then strip_separators s' else String c (strip_separators s')
  end.

Definition generateReport (query : string) (analysis : ContentAnalysis)
           (sessionId : option nat) : M Report :=
  try_catch
    (let* reportContent := LLMService.generateFinalReport E query in
     let* t := clock E in
     let timestamp := strip_separators (JS.substring0 16 t) in
     let slug := JS.substring0 50 (querySlug E query) in
     let filename := timestamp +:+ "_" +:+ slug +:+ ".md" in
     let filepath := path_join E (cfg_reportsDir E) filename in
     let* t' := clock E in
     let report :=
       {| rep_title := generateReportTitle query;
          rep_content := reportContent;
          rep_filename := filename;
          rep_filepath := filepath;
          rep_query := query;
          rep_timestamp := t';
          rep_sourceCount := ca_totalSources analysis;
          rep_successfulAnalyses := successfulAnalyses analysis |} in
     let* _ :=
       match sessionId with
       | Some id => saveReport E id (rep_title report) reportContent filepath
       | None => ret tt
       end in
     ret report)
    (fun message => throw message).

Definition opening_metadata (options : DeepSearchOptions) (startTime : string)
  : gmap string MetaValue :=
  <["startTime" := MText startTime]>
    (<["options" := MOptions (useAdvancedSearch options) (generateEmbeddings options)
                             (saveToDatabase options) (maxSources options)]> ∅).

(** A string indexed and iterated as the search code does: character by
    character. *)
Definition characters (text : string) : list string :=
  map (fun c => String c EmptyString) (list_ascii_of_string text).

(** [performWebSearch] handed a value that is neither an array nor a
    string: indexing it gives [first], and it can be neither sliced nor
    iterated. *)
Definition performWebSearch_unlisted (first : option string)
           (maxResults : option Z) (advanced : option bool) : M WebResults :=
  let maxResults := default (cfg_maxResults E) maxResults in
  let advanced := default true advanced in
  try_catch
    (if advanced
     then
       let* dorkResults :=
         searchWithDorks E first
           {| so_maxResults := Some (JS.ceil_div maxResults 2) |} in
       throw "searchTerms.slice is not a function"
     else throw "searchTerms is not iterable")
    (fun message => throw ("Falha na busca web: " +:+ message)).

(** [this.performWebSearch(searchTermsData.search_terms, ...)] for
    whatever stands under [search_terms].  The log line before the call
    reads [search_terms.length], which raises when nothing stands there;
    a string is indexed and iterated character by character. *)
Definition searchFromTerms (value : TermsValue)
           (maxResults : option Z) (advanced : option bool) : M WebResults :=
  match value with
  | TermsMissing => throw "Cannot read properties of undefined (reading 'length')"
  | TermsNull => throw "Cannot read properties of null (reading 'length')"
  | TermsArray terms => performWebSearch terms maxResults advanced
  | TermsText text =>
    let* results := performWebSearch (characters text) maxResults advanced in
    ret {| wr_searchTerms := TermsText text;
           wr_sources := wr_sources results;
           wr_stats := wr_stats results |}
  | TermsOther first => performWebSearch_unlisted first maxResults advanced
  end.

(** The statements of the [try] block after the session is opened. *)
Definition run (query : string) (options : DeepSearchOptions)
           (session : option SessionRow) : M DeepSearchResult :=
  let advanced := default true (useAdvancedSearch options) in
  let wanted := default true (generateEmbeddings options) in
  let limit := default (cfg_maxResults E) (maxSources options) in
  let* searchTermsData := generateSearchTerms query in
  let* webResults :=
    searchFromTerms (search_terms searchTermsData) (Some limit) (Some advanced) in
  let* analysis :=
    analyzeContent query webResults (Some wanted) (ss_id <$> session) in
  let* report := generateReport query analysis (ss_id <$> session) in
  let* _ :=
    match session with
    | Some s =>
      let* completedTime := clock E in
      let* _ :=
        updateSearchSession E (ss_id s) Completed
          (<["reportGenerated" := MFlag true]>
             (<["sourcesFound" := MCount (Z.of_nat (length (wr_sources webResults)))]>
                (<["completedTime" := MText completedTime]> (ss_metadata s)))) in
      ret tt
    | None => ret tt
    end in
  ret {| res_sessionId := ss_id <$> session;
         res_query := query;
         res_searchTerms := searchTermsData;
         res_webResults := webResults;
         res_analysis := analysis;
         res_report := report |}.

(** The [catch] block. *)
Definition on_error (session : option SessionRow) (message : string)
  : M DeepSearchResult :=
  let* _ :=
    match session with
    | Some s =>
      let* errorTime := clock E in
      let* _ :=
        updateSearchSession E (ss_id s) Failed
          (<["errorTime" := MText errorTime]>
             (<["error" := MText message]> (ss_metadata s))) in
      ret tt
    | None => ret tt
    end in
  throw message.

(** The first statement of the [try] block. *)
Definition openSession (query : string) (options : DeepSearchOptions)
  : M (option SessionRow) :=
  if default true (saveToDatabase options)
  then
    let* startTime := clock E in
    let* s := createSearchSession E query (opening_metadata options startTime) in
    ret (Some s)
  else ret None.

(** [performDeepSearch(query, options)].  When the session cannot be
    opened the handler finds [session] still null and re-raises. *)
Definition performDeepSearch (query : string) (options : DeepSearchOptions)
  : M DeepSearchResult :=
  let* session := openSession query options in
  try_catch (run query options session) (on_error session).

End Orchestrator.
End Orchestrator.

(** ** Statements of the specification, and sample environments *)

(** The outside calls a computation makes from a world. *)
Definition events_of {A} (m : M A) (w : World) : list Event :=
  drop (length (trace w)) (trace (snd (m w))).

(** The provider calls in a trace: query and result budget. *)
Definition search_calls (events : list Event) : list (string * Z) :=
  omap (fun e => match e with EvSearch q dc => Some (q, dc) | _ => None end) events.

(** The page fetches in a trace. *)
Definition fetched_urls (events : list Event) : list string :=
  omap (fun e => match e with EvFetch url => Some url | _ => None end) events.

Definition empty_store : Store :=
  {| search_sessions := []; web_sources := []; reports := [];
     embeddings_cache := ∅ |}.

Definition initial_world : World := {| trace := []; store := empty_store |}.

Definition block (title url : string) : ResultBlock :=
  {| rb_title := title; rb_href := Some url; rb_snippet := "snippet" |}.

(** An installation with the default configuration whose provider answers
    every query with the same page of two results, whose pages cannot be
    fetched and whose language model is down. *)
Definition sampleEnv : Env :=
  {| cfg_maxResults := 50;
     cfg_maxConcurrentScrapes := 5;
     cfg_maxContentLength := 50000;
     cfg_parallelProcessingLimit := 5;
     cfg_blockedDomains := ["localhost"; "127.0.0.1"; "10.*"; "192.168.*"; "172.16.*"];
     cfg_allowedDomains := ["*"];
     cfg_reportsDir := "./reports";
     cfg_embeddingModel := "nomic-embed-text";
     decodeURIComponent := Some;
     URL_href := Some;
     URL_hostname := Some;
     md5_hex := id;
     toLowerCase := id;
     toUpperCase := id;
     querySlug := id;
     path_join := fun dir file => dir +:+ "/" +:+ file;
     JSON_parse_terms := fun _ => None;
     JSON_parse_analysis := fun _ => None;
     search_provider := fun _ _ _ =>
       inr [block "Example" "https://example.com/"; block "Other" "https://other.org/"];
     http_get := fun _ _ => inl "ECONNREFUSED";
     llm_generate := fun _ _ _ => inl "connect ECONNREFUSED";
     llm_embed := fun _ _ => inl "connect ECONNREFUSED";
     store_fault := fun _ => NoFault;
     now := fun _ => "2025-09-20T10:11:12.000Z";
     schedule := fun _ => [] |}.

(** A world after further outside calls that leave the store alone. *)
Definition extend (events : list Event) (w : World) : World :=
  {| trace := trace w ++ events; store := store w |}.

(** The calls of [multiSearch] and of [searchWithDorks]: one search and
    one pause per term. *)
Definition multiSearch_events (budget : Z) (terms : list string) : list Event :=
  flat_map (fun term => [EvSearch term budget; EvSleep 1000]) terms.

Definition dork_events (budget : Z) (ds : list string) : list Event :=
  flat_map (fun dork => [EvSearch dork budget; EvSleep 2000]) ds.

(** The invariant of the deduplication loops: the URLs kept so far are
    distinct and all recorded as seen. *)
Definition dedup_inv (acc : list Hit * gset string) : Prop :=
  NoDup (map hit_url (fst acc)) /\
  forall u, u ∈ map hit_url (fst acc) -> u ∈ snd acc.

(** An installation whose provider answers every query with six results
    of its own. *)
Definition busyEnv : Env :=
  {| cfg_maxResults := cfg_maxResults sampleEnv;
     cfg_maxConcurrentScrapes := cfg_maxConcurrentScrapes sampleEnv;
     cfg_maxContentLength := cfg_maxContentLength sampleEnv;
     cfg_parallelProcessingLimit := cfg_parallelProcessingLimit sampleEnv;
     cfg_blockedDomains := cfg_blockedDomains sampleEnv;
     cfg_allowedDomains := cfg_allowedDomains sampleEnv;
     cfg_reportsDir := cfg_reportsDir sampleEnv;
     cfg_embeddingModel := cfg_embeddingModel sampleEnv;
     decodeURIComponent := Some;
     URL_href := Some;
     URL_hostname := Some;
     md5_hex := id;
     toLowerCase := id;
     toUpperCase := id;
     querySlug := id;
     path_join := path_join sampleEnv;
     JSON_parse_terms := fun _ => None;
     JSON_parse_analysis := fun _ => None;
     search_provider := fun _ q _ =>
       inr (map (fun n => block q ("https://example.com/" +:+ q +:+ "/" +:+ n))
                ["1"; "2"; "3"; "4"; "5"; "6"]);
     http_get := http_get sampleEnv;
     llm_generate := llm_generate sampleEnv;
     llm_embed := llm_embed sampleEnv;
     store_fault := store_fault sampleEnv;
     now := now sampleEnv;
     schedule := schedule sampleEnv |}.

(** The budget scenario as the specification words it, for a run of the
    search phase in advanced mode with [maxResults = 10]: every one of
    the first seven provider calls has budget [ceil(5/7)] ... *)
Definition dork_budget_as_stated (E : Env) (terms : list string) (w : World) : Prop :=
  forall q dc,
    (q, dc) ∈ take 7 (search_calls (events_of (Orchestrator.searchPhase E terms 10 true) w)) ->
    dc = JS.ceil_div 5 7.

(** ... and the hits of the remaining terms, taken together, number at
    most the other five. *)
Definition remaining_share_as_stated (E : Env) (terms : list string) (w : World)
  : Prop :=
  exists hits w',
    Orchestrator.searchPhase E terms 10 true w = (Ok hits, w') /\
    (length (List.filter (fun h => bool_decide (hit_dork h = None)) hits) <= 5)%nat.





(** The three relevance tiers of the consolidator. *)
Definition high_tier (a : AnalysisResult) : bool :=
  Score.ge (Orchestrator.relevance a) (70 # 1)%Q.

Definition medium_tier (a : AnalysisResult) : bool :=
  Score.ge (Orchestrator.relevance a) (40 # 1)%Q
  && Score.lt (Orchestrator.relevance a) (70 # 1)%Q.

Definition low_tier (a : AnalysisResult) : bool :=
  Score.lt (Orchestrator.relevance a) (40 # 1)%Q.

Definition sample_source : ScrapedSource :=
  {| src_url := "https://example.com/";
     src_title := "Example";
     src_description := "An example";
     src_content := "Example content";
     src_domain := "example.com";
     src_searchTerm := Some "example";
     src_scrapedAt := "2025-09-20T10:11:12.000Z";
     src_wordCount := 2;
     src_contentLength := 15 |}.

Definition sample_analysis (score : Q) : AnalysisResult :=
  {| ar_source := sample_source;
     ar_analysis :=
       {| relevance_score := Some score;
          credibility_score := Some (50 # 1)%Q;
          summary := Some "summary";
          key_points := Some ["point"];
          insights := None;
          topics := Some ["IA"; "2024"] |};
     ar_embedding := None;
     ar_processingTime := "2025-09-20T10:11:12.000Z" |}.

(** A page is fetched only from a URL that passes the domain filter, and
    a source comes only from such a URL, under the host name of it. *)
Definition fetch_allowed (E : Env) (e : Event) : Prop :=
  forall url, e = EvFetch url -> isAllowedDomain E url = true.

Definition source_allowed (E : Env) (source : ScrapedSource) : Prop :=
  isAllowedDomain E (src_url source) = true
  /\ URL_hostname E (src_url source) = Some (src_domain source).

Definition blocked_hit : Hit :=
  {| hit_title := "Router";
     hit_url := "192.168.0.1";
     hit_snippet := "admin";
     hit_source := "duckduckgo";
     hit_dork := None;
     hit_searchTerm := Some "router" |}.

(** The key under which the embedding of a source is cached. *)
Definition embedding_key (E : Env) (source : ScrapedSource) : string :=
  md5_hex E (Orchestrator.contentForEmbedding source).




(** A world whose cache already holds the vector of [sample_source]. *)
Definition cached_world : World :=
  {| trace := [];
     store :=
       {| search_sessions := [];
          web_sources := [];
          reports := [];
          embeddings_cache :=
            {[ embedding_key sampleEnv sample_source :=
                 {| cr_preview := "Example";
                    cr_embedding := Some [(1 # 2)%Q; (1 # 4)%Q];
                    cr_model := "nomic-embed-text" |} ]} |} |}.

(** A computation that leaves the table of sessions as it found it. *)
Definition keeps_sessions {A} (m : M A) : Prop :=
  forall w, search_sessions (store (snd (m w))) = search_sessions (store w).

Definition plain_options : DeepSearchOptions :=
  {| useAdvancedSearch := None;
     generateEmbeddings := None;
     maxSources := Some 10;
     saveToDatabase := None |}.

(** *** The ranking of the consolidator, in the words of the specification *)

(** Occurrences by exact string match. *)
Definition occurrences (x : string) (items : list string) : nat :=
  length (filter (fun y => y = x) items).

(** The distinct items, in the order in which they are first seen. *)
Definition first_seen (items : list string) : list string :=
  fold_left (fun seen x => if decide (x ∈ seen) then seen else seen ++ [x]) items [].

(** [a] stands before [b] in [l]. *)
Definition before {A} (l : list A) (a b : A) : Prop :=
  exists i j, (i < j)%nat /\ l !! i = Some a /\ l !! j = Some b.

(** [x] is ranked above [y]: it occurs more often, or as often and was
    seen first. *)
Definition ranks_above (items : list string) (x y : string) : Prop :=
  (occurrences y items < occurrences x items)%nat
  \/ (occurrences x items = occurrences y items /\ before (first_seen items) x y).

(** [out] is the frequency ranking of [items] cut to [limit] entries:
    distinct items with their exact counts, every earlier entry ranked
    above every later one, and nothing left out that would belong in. *)
Definition ranking_of (items : list string) (limit : nat)
           (out : list (string * Counter.Count)) : Prop :=
  (length out <= limit)%nat
  /\ NoDup (map fst out)
  /\ (forall x c, (x, c) ∈ out ->
                  x ∈ items /\ c = Counter.Times (occurrences x items))
  /\ (forall i j a b, (i < j)%nat -> out !! i = Some a -> out !! j = Some b ->
                      ranks_above items (fst a) (fst b))
  /\ (forall z, z ∈ items -> z ∉ map fst out ->
                length out = limit
                /\ forall x, x ∈ map fst out -> ranks_above items x z).

(** Items under which a plain object counts as a map would: neither an
    array index nor a name inherited from [Object.prototype]. *)
Definition plain_item (x : string) : Prop :=
  Counter.array_index x = None /\ Counter.inherited x = false.

(** The count of each distinct item, in first-seen order. *)
Definition tally (items : list string) : Counter.t :=
  map (fun x => (x, Counter.Times (occurrences x items))) (first_seen items).

(** The number held by an entry. *)
Definition times (entry : string * Counter.Count) : nat :=
  match snd entry with Counter.Times n => n | Counter.Junk => O end.

Definition numeric (entry : string * Counter.Count) : Prop :=
  exists n, snd entry = Counter.Times n.

(** The order a stable descending sort of [l] establishes. *)
Definition above (l : Counter.t) (a b : string * Counter.Count) : Prop :=
  (times b < times a)%nat \/ (times a = times b /\ before l a b).

Fixpoint pairwise {A} (R : A -> A -> Prop) (l : list A) : Prop :=
  match l with
  | [] => True
  | a :: l' => Forall (R a) l' /\ pairwise R l'
  end.

Definition all_key_points (analyses : list AnalysisResult) : list string :=
  concat (map (fun a => default [] (key_points (ar_analysis a))) analyses).

Definition all_insights (analyses : list AnalysisResult) : list string :=
  concat (map (fun a => default [] (insights (ar_analysis a))) analyses).

Definition all_topics (analyses : list AnalysisResult) : list string :=
  concat (map (fun a => default [] (topics (ar_analysis a))) analyses).

(** An installation whose language model fails on the term-expansion
    prompt only. *)
Definition reportingEnv : Env :=
  {| cfg_maxResults := cfg_maxResults sampleEnv;
     cfg_maxConcurrentScrapes := cfg_maxConcurrentScrapes sampleEnv;
     cfg_maxContentLength := cfg_maxContentLength sampleEnv;
     cfg_parallelProcessingLimit := cfg_parallelProcessingLimit sampleEnv;
     cfg_blockedDomains := cfg_blockedDomains sampleEnv;
     cfg_allowedDomains := cfg_allowedDomains sampleEnv;
     cfg_reportsDir := cfg_reportsDir sampleEnv;
     cfg_embeddingModel := cfg_embeddingModel sampleEnv;
     decodeURIComponent := Some;
     URL_href := Some;
     URL_hostname := Some;
     md5_hex := id;
     toLowerCase := id;
     toUpperCase := id;
     querySlug := id;
     path_join := path_join sampleEnv;
     JSON_parse_terms := fun _ => None;
     JSON_parse_analysis := fun _ => None;
     search_provider := search_provider sampleEnv;
     http_get := http_get sampleEnv;
     llm_generate := fun _ task _ =>
       match task with
       | ExpandTerms => inl "model not found"
       | _ => inr "# Report"
       end;
     llm_embed := llm_embed sampleEnv;
     store_fault := store_fault sampleEnv;
     now := now sampleEnv;
     schedule := schedule sampleEnv |}.

(** *** Host globs, in the words of the specification

    A pattern with a star matches a text when its characters match
    literally and every star stands for any run of characters; a host
    matches when some part of it does. *)
Inductive glob_matches : string -> string -> Prop :=
| glob_end (text : string) : glob_matches EmptyString text
| glob_star (pattern skipped text : string) :
    Forall (fun c => Text.is_line_terminator c = false) (list_ascii_of_string skipped) ->
    glob_matches pattern text ->
    glob_matches (String "*" pattern) (skipped +:+ text)
| glob_char (c : ascii) (pattern text : string) :
    c <> "*"%char ->
    Text.is_line_terminator c = false ->
    glob_matches pattern text ->
    glob_matches (String c pattern) (String c text).

Definition host_matches (pattern host : string) : Prop :=
  exists before_ text, host = before_ +:+ text /\ glob_matches pattern text.

(** A paragraph of 122 characters once its white space is normalized. *)
Definition paragraph : string :=
  "  Formal   verification of a retrieval pipeline checks each stage " +:+
  "against the words of its specification, one claim at a time.  ".

(** An installation whose pages can be fetched: every URL answers with
    the same article. *)
Definition fetchingEnv : Env :=
  {| cfg_maxResults := cfg_maxResults sampleEnv;
     cfg_maxConcurrentScrapes := cfg_maxConcurrentScrapes sampleEnv;
     cfg_maxContentLength := cfg_maxContentLength sampleEnv;
     cfg_parallelProcessingLimit := cfg_parallelProcessingLimit sampleEnv;
     cfg_blockedDomains := cfg_blockedDomains sampleEnv;
     cfg_allowedDomains := cfg_allowedDomains sampleEnv;
     cfg_reportsDir := cfg_reportsDir sampleEnv;
     cfg_embeddingModel := cfg_embeddingModel sampleEnv;
     decodeURIComponent := Some;
     URL_href := Some;
     URL_hostname := Some;
     md5_hex := id;
     toLowerCase := id;
     toUpperCase := id;
     querySlug := id;
     path_join := path_join sampleEnv;
     JSON_parse_terms := fun _ => None;
     JSON_parse_analysis := fun _ => None;
     search_provider := search_provider sampleEnv;
     http_get := fun _ url =>
       inr {| pg_title := "Article";
              pg_description := None;
              pg_candidates := [Some paragraph; None; Some "short"];
              pg_body := "short" |};
     llm_generate := llm_generate sampleEnv;
     llm_embed := llm_embed sampleEnv;
     store_fault := store_fault sampleEnv;
     now := now sampleEnv;
     schedule := schedule sampleEnv |}.

Definition article_hit : Hit :=
  {| hit_title := "Article";
     hit_url := "example.com";
     hit_snippet := "snippet";
     hit_source := "duckduckgo";
     hit_dork := None;
     hit_searchTerm := Some "verification" |}.

(** C7 in the specification's words: the call returns a list, empty
    after a provider error or an empty page, and "in all cases" of at
    most [maxResults] hits. *)
Definition capped_as_stated (E : Env) (query : string) (options : SearchOptions)
           (w : World) : Prop :=
  let maxResults := default (cfg_maxResults E) (so_maxResults options) in
  exists hits w',
    searchDuckDuckGo E query options w = (Ok hits, w')
    /\ Z.of_nat (length hits) <= maxResults
    /\ ((exists message,
           search_provider E (trace w) query maxResults = inl message) -> hits = [])
    /\ (forall blocks,
           search_provider E (trace w) query maxResults = inr blocks ->
           parseDuckDuckGoResults E blocks = [] -> hits = []).

(** *** Tasks under an invariant

    What can be said of a member of a [Promise.all] is what each of its
    calls does from any world, since the other members take their turns
    in between.  [task_inv step final stuck g t]: every call of [t], made
    from any world while the member is in the state [g] of the proof, is
    a [step] to a state under which what is left of the task goes on; a
    call that never returns is [stuck]; and the value of the task is
    [final]. *)
Section TaskInvariant.

Context {A G : Type}.
Variable step : G -> World -> World -> G -> Prop.
Variable final : G -> A -> Prop.
Variable stuck : G -> World -> World -> Prop.

Fixpoint task_inv (g : G) (t : Task A) : Prop :=
  match t with
  | Return a => final g a
  | Call call next handler =>
    forall w,
      match call w with
      | (Ok b, w') => exists g', step g w w' g' /\ task_inv g' (next b)
      | (Throw e, w') => exists g', step g w w' g' /\ task_inv g' (handler e)
      | (Hang, w') => stuck g w w'
      end
  end.

End TaskInvariant.

(** A run that ends with a value and a world under [P], or never returns
    and leaves a world under [H]; it raises nothing. *)
Definition run_with {A} (P : A -> World -> Prop) (H : World -> Prop)
           (r : Outcome A * World) : Prop :=
  match r with
  | (Ok a, w') => P a w'
  | (Throw _, _) => False
  | (Hang, w') => H w'
  end.

(** Every call of the task relates the store before it to the store
    after it. *)
Definition task_stays {A} (R : Store -> Store -> Prop) (t : Task A) : Prop :=
  task_inv (fun (_ : unit) w w' _ => R (store w) (store w'))
           (fun _ (_ : A) => True)
           (fun _ w w' => R (store w) (store w'))
           tt t.

(** Every call of the task returns or raises and leaves the world as it
    is, and the value of the task satisfies [P]. *)
Definition task_silent {A} (P : A -> Prop) (t : Task A) : Prop :=
  task_inv (fun (g : A -> Prop) w w' g' => g' = g /\ w' = w)
           (fun g a => g a)
           (fun _ _ _ => False)
           P t.

(** ** Further statements about the services *)

(** What a single-term search returns from a world. *)
Definition search_result (E : Env) (query : string) (budget : Z) (w : World)
  : list Hit :=
  match search_provider E (trace w) query budget with
  | inl _ => []
  | inr blocks => JS.slice0 (parseDuckDuckGoResults E blocks) budget
  end.

(** The hits each call of [multiSearch] receives, in call order, each
    tagged with its term. *)
Fixpoint multiSearch_received (E : Env) (terms : list string) (budget : Z)
         (w : World) : list Hit :=
  match terms with
  | [] => []
  | term :: rest =>
    map (with_searchTerm term) (search_result E term budget w)
    ++ multiSearch_received E rest budget
         (extend [EvSearch term budget; EvSleep 1000] w)
  end.

(** The hits each call of [searchWithDorks] receives, in call order,
    each tagged with its dork and the base query. *)
Fixpoint dorks_received (E : Env) (ds : list string) (budget : Z)
         (baseQuery : option string) (w : World) : list Hit :=
  match ds with
  | [] => []
  | dork :: rest =>
    map (with_dork dork baseQuery) (search_result E dork budget w)
    ++ dorks_received E rest budget baseQuery
         (extend [EvSearch dork budget; EvSleep 2000] w)
  end.

(** [h] is the first hit of [received] with its URL. *)
Definition first_with_url (received : list Hit) (h : Hit) : Prop :=
  exists earlier later,
    received = earlier ++ h :: later
    /\ Forall (fun x => hit_url x <> hit_url h) earlier.

(** One turn of a deduplication loop. *)
Definition dedup_step (tag : Hit -> Hit) (acc : list Hit * gset string) (result : Hit)
  : list Hit * gset string :=
  if decide (hit_url result ∈ snd acc) then acc
  else (fst acc ++ [tag result], {[ hit_url result ]} ∪ snd acc).

(** What a deduplication loop has established after reading [received]:
    the URLs kept are those of [received] in first-seen order, the set
    of seen URLs holds exactly these, and every hit kept is the first of
    [received] with its URL. *)
Definition dedup_done (received : list Hit) (acc : list Hit * gset string) : Prop :=
  map hit_url (fst acc) = first_seen (map hit_url received)
  /\ (forall u, u ∈ snd acc <-> u ∈ map hit_url received)
  /\ Forall (first_with_url received) (fst acc).

(** *** Text *)

(** Every white-space character of [s] is a space that stands alone
    between two other characters or at the end; with [after_space] the
    text may not begin with one. *)
Fixpoint single_spaced (after_space : bool) (s : string) : Prop :=
  match s with
  | EmptyString => True
  | String c s' =>
    if Text.is_space c
    then c = " "%char /\ after_space = false /\ single_spaced true s'
    else single_spaced false s'
  end.

(** The character [c] occurs in [s]. *)
Fixpoint occurs (c : ascii) (s : string) : Prop :=
  match s with
  | EmptyString => False
  | String a s' => a = c \/ occurs c s'
  end.




Definition open_brace : string := "{".
Definition close_brace : string := "}".

(** *** Scraping *)

(** What scraping one hit adds to the trace: a fetch of its URL when
    the filter lets it pass, nothing otherwise. *)
Definition page_events (E : Env) (urlInfo : Hit) : list Event :=
  if isAllowedDomain E (hit_url urlInfo) then [EvFetch (hit_url urlInfo)] else [].

(** The trace of [scrapeContent]: the chunks in order, a pause after
    each. *)
Definition scrape_events (E : Env) (chunks : list (list Hit)) : list Event :=
  flat_map (fun chunk => flat_map (page_events E) chunk ++ [EvSleep 500]) chunks.

(** The pauses in a trace. *)
Definition pauses (events : list Event) : list Z :=
  omap (fun e => match e with EvSleep ms => Some ms | _ => None end) events.

(** [source] was scraped from the hit [urlInfo]. *)
Definition scraped_from (E : Env) (urlInfo : Hit) (source : ScrapedSource) : Prop :=
  src_url source = hit_url urlInfo
  /\ src_searchTerm source = hit_searchTerm urlInfo
  /\ URL_hostname E (hit_url urlInfo) = Some (src_domain source)
  /\ isAllowedDomain E (hit_url urlInfo) = true.

(** The sources are scraped from some of the hits, in the order of the
    hits. *)
Inductive scraped_in_order (E : Env) : list Hit -> list ScrapedSource -> Prop :=
| scraped_nil : scraped_in_order E [] []
| scraped_skip (urlInfo : Hit) (urls : list Hit) (sources : list ScrapedSource) :
    scraped_in_order E urls sources ->
    scraped_in_order E (urlInfo :: urls) sources
| scraped_keep (urlInfo : Hit) (urls : list Hit) (source : ScrapedSource)
               (sources : list ScrapedSource) :
    scraped_from E urlInfo source ->
    scraped_in_order E urls sources ->
    scraped_in_order E (urlInfo :: urls) (source :: sources).

(** No star among the characters of [s]. *)
Fixpoint star_free (s : string) : bool :=
  match s with
  | EmptyString => true
  | String c s' => negb (Ascii.eqb c "*") && star_free s'
  end.

(** *** Statistics *)

(** The name under which [getSearchStats] counts a source. *)
Definition domain_name (source : ScrapedSource) : string :=
  if JS.truthy (src_domain source) then src_domain source else "unknown".

Definition total_content_length (results : list ScrapedSource) : nat :=
  list_sum (map src_contentLength results).

Definition total_words (results : list ScrapedSource) : nat :=
  list_sum (map src_wordCount results).

(** *** Sources for the examples *)

Definition source_at (domain : string) (contentLength wordCount : nat) : ScrapedSource :=
  {| src_url := "https://" +:+ domain +:+ "/";
     src_title := "Title";
     src_description := EmptyString;
     src_content := "content";
     src_domain := domain;
     src_searchTerm := None;
     src_scrapedAt := "2025-09-20T10:11:12.000Z";
     src_wordCount := wordCount;
     src_contentLength := contentLength |}.

(** The step of the loop over the quoted strings of a response. *)
Definition fallback_step (terms : list string) (m : string) : list string :=
  let term := Text.trim m in
  if (2 <? String.length term)%nat && (String.length term <? 50)%nat
  then LLMService.set_add terms term else terms.

(** *** The store and the analysis *)

(** The store answers every call. *)
Definition healthy (E : Env) : Prop := forall t, store_fault E t = NoFault.

(** The analysis [analyzeWebContent] settles on in the world [w]. *)
Definition analysis_of (E : Env) (w : World) (content : string) : Analysis :=
  match llm_generate E (trace w) AnalyzeContent content with
  | inl _ => LLMService.default_analysis content
  | inr response =>
    match LLMService.match_braces response with
    | Some jsonMatch =>
      default (LLMService.default_analysis content) (JSON_parse_analysis E jsonMatch)
    | None => LLMService.default_analysis content
    end
  end.

(** The row of [web_sources] written for an analyzed source. *)
Definition saved_row (E : Env) (id : nat) (source : ScrapedSource)
           (analysis : Analysis) (embedding : option (list Q)) : SourceRow :=
  {| sr_session := id;
     sr_url := src_url source;
     sr_title := JS.substring0 500 (src_title source);
     sr_content := JS.substring0 (cfg_maxContentLength E) (src_content source);
     sr_summary := JS.substring0 2000 <$> summary analysis;
     sr_domain := src_domain source;
     sr_embedding := embedding |}.

Definition saved_rows (E : Env) (sessionId : option nat) (source : ScrapedSource)
           (analysis : Analysis) (embedding : option (list Q)) : list SourceRow :=
  match sessionId with
  | Some id => [saved_row E id source analysis embedding]
  | None => []
  end.

(** The tables of sessions, sources and reports are the same in both
    stores; the cache may differ. *)
Definition cache_only (s s' : Store) : Prop :=
  search_sessions s' = search_sessions s
  /\ web_sources s' = web_sources s
  /\ reports s' = reports s.

(** A computation whose every run relates the store before to the store
    after. *)
Definition stays (R : Store -> Store -> Prop) {A} (m : M A) : Prop :=
  forall w, R (store w) (store (snd (m w))).

(** The outcome of a computation is a value or an exception. *)
Definition settles {A} (m : M A) : Prop :=
  forall w, fst (m w) <> Hang.

(** The URLs of the rows written for [sources] during an analysis. *)
Definition saved_urls (sessionId : option nat) (sources : list ScrapedSource)
  : list string :=
  match sessionId with
  | Some _ => map src_url sources
  | None => []
  end.

(** One call of a member that still has the rows [snd g] to append to
    the rows [rows] of the store: the call appends the first of them and
    leaves the others to the calls that follow. *)
Definition adds_step {A X} (rows : Store -> list X)
           (g : (A -> Prop) * list X) (w w' : World)
           (g' : (A -> Prop) * list X) : Prop :=
  fst g' = fst g
  /\ exists done, rows (store w') = rows (store w) ++ done /\ snd g = done ++ snd g'.

(** Every call of the task returns or raises, from any world; between
    them the calls append [todo] to [rows], and the value of the task
    satisfies [P]. *)
Definition task_adds {A X} (rows : Store -> list X) (P : A -> Prop)
           (todo : list X) (t : Task A) : Prop :=
  task_inv (adds_step rows) (fun g a => snd g = [] /\ fst g a)
           (fun _ _ _ => False) (P, todo) t.

(** *** Installations for the examples *)

(** [E] with another embedding model and another health of the store. *)
Definition with_services (E : Env)
           (embed : list Event -> string -> string + list Q)
           (fault : list Event -> StoreFault) : Env :=
  {| cfg_maxResults := cfg_maxResults E;
     cfg_maxConcurrentScrapes := cfg_maxConcurrentScrapes E;
     cfg_maxContentLength := cfg_maxContentLength E;
     cfg_parallelProcessingLimit := cfg_parallelProcessingLimit E;
     cfg_blockedDomains := cfg_blockedDomains E;
     cfg_allowedDomains := cfg_allowedDomains E;
     cfg_reportsDir := cfg_reportsDir E;
     cfg_embeddingModel := cfg_embeddingModel E;
     decodeURIComponent := decodeURIComponent E;
     URL_href := URL_href E;
     URL_hostname := URL_hostname E;
     md5_hex := md5_hex E;
     toLowerCase := toLowerCase E;
     toUpperCase := toUpperCase E;
     querySlug := querySlug E;
     path_join := path_join E;
     JSON_parse_terms := JSON_parse_terms E;
     JSON_parse_analysis := JSON_parse_analysis E;
     search_provider := search_provider E;
     http_get := http_get E;
     llm_generate := llm_generate E;
     llm_embed := embed;
     store_fault := fault;
     now := now E;
     schedule := schedule E |}.

(** The sample installation without a reachable database. *)
Definition offlineEnv : Env :=
  with_services sampleEnv (llm_embed sampleEnv)
                (fun _ => ConnectFails "connect ECONNREFUSED 127.0.0.1:5432").

(** The sample installation with an embedding model that answers. *)
Definition embeddingEnv : Env :=
  with_services sampleEnv (fun _ _ => inr [(1 # 2)%Q; (1 # 4)%Q]) (fun _ => NoFault).

(** [E] with another order in which the members of a [Promise.all] get
    their turns. *)
Definition with_schedule (E : Env) (order : list Event -> list nat) : Env :=
  {| cfg_maxResults := cfg_maxResults E;
     cfg_maxConcurrentScrapes := cfg_maxConcurrentScrapes E;
     cfg_maxContentLength := cfg_maxContentLength E;
     cfg_parallelProcessingLimit := cfg_parallelProcessingLimit E;
     cfg_blockedDomains := cfg_blockedDomains E;
     cfg_allowedDomains := cfg_allowedDomains E;
     cfg_reportsDir := cfg_reportsDir E;
     cfg_embeddingModel := cfg_embeddingModel E;
     decodeURIComponent := decodeURIComponent E;
     URL_href := URL_href E;
     URL_hostname := URL_hostname E;
     md5_hex := md5_hex E;
     toLowerCase := toLowerCase E;
     toUpperCase := toUpperCase E;
     querySlug := querySlug E;
     path_join := path_join E;
     JSON_parse_terms := JSON_parse_terms E;
     JSON_parse_analysis := JSON_parse_analysis E;
     search_provider := search_provider E;
     http_get := http_get E;
     llm_generate := llm_generate E;
     llm_embed := llm_embed E;
     store_fault := store_fault E;
     now := now E;
     schedule := order |}.

(** The installation with an embedding model, where the two members of a
    batch take their turns one after the other. *)
Definition alternatingEnv : Env :=
  with_schedule embeddingEnv (fun _ => [0; 1]%nat).

(** The calls of the embedding model in a trace. *)
Definition embedded_texts (events : list Event) : list string :=
  omap (fun e => match e with EvEmbed text => Some text | _ => None end) events.

(** [E] with another language model and another reading of its answer to
    the term-expansion prompt. *)
Definition with_model (E : Env)
           (generate : list Event -> LLMTask -> string -> string + string)
           (parse_terms : string -> option SearchTermsData) : Env :=
  {| cfg_maxResults := cfg_maxResults E;
     cfg_maxConcurrentScrapes := cfg_maxConcurrentScrapes E;
     cfg_maxContentLength := cfg_maxContentLength E;
     cfg_parallelProcessingLimit := cfg_parallelProcessingLimit E;
     cfg_blockedDomains := cfg_blockedDomains E;
     cfg_allowedDomains := cfg_allowedDomains E;
     cfg_reportsDir := cfg_reportsDir E;
     cfg_embeddingModel := cfg_embeddingModel E;
     decodeURIComponent := decodeURIComponent E;
     URL_href := URL_href E;
     URL_hostname := URL_hostname E;
     md5_hex := md5_hex E;
     toLowerCase := toLowerCase E;
     toUpperCase := toUpperCase E;
     querySlug := querySlug E;
     path_join := path_join E;
     JSON_parse_terms := parse_terms;
     JSON_parse_analysis := JSON_parse_analysis E;
     search_provider := search_provider E;
     http_get := http_get E;
     llm_generate := generate;
     llm_embed := llm_embed E;
     store_fault := store_fault E;
     now := now E;
     schedule := schedule E |}.

(** The sample installation with a model that answers the term-expansion
    prompt with an object that has no [search_terms]. *)
Definition terseEnv : Env :=
  with_model sampleEnv
    (fun _ task _ =>
       match task with
       | ExpandTerms => inr "{}"
       | _ => inl "connect ECONNREFUSED"
       end)
    (fun _ => Some {| original_query := None; search_terms := TermsMissing;
                      categories := None |}).

(** The sample installation with a database that is reachable for the
    first call only. *)
Definition flakyEnv : Env :=
  with_services sampleEnv (llm_embed sampleEnv)
    (fun t => match t with [] => NoFault | _ => ConnectFails "pool exhausted" end).

(** The message of the exception JavaScript raises when [length] is
    read from [undefined]. *)
Definition undefined_length : string :=
  "Cannot read properties of undefined (reading 'length')".

(** What stands under [search_terms] can be searched: it is an array
    or a string. *)
Definition listed (value : TermsValue) : Prop :=
  match value with
  | TermsArray _ | TermsText _ => True
  | _ => False
  end.

(** The message a fault of the store carries. *)
Definition fault_message (fault : StoreFault) : option string :=
  match fault with
  | NoFault => None
  | ConnectFails message => Some message
  | QueryFails message => Some message
  end.

(** [E] with other batch sizes. *)
Definition with_sizes (E : Env) (concurrentScrapes parallelLimit : Z) : Env :=
  {| cfg_maxResults := cfg_maxResults E;
     cfg_maxConcurrentScrapes := concurrentScrapes;
     cfg_maxContentLength := cfg_maxContentLength E;
     cfg_parallelProcessingLimit := parallelLimit;
     cfg_blockedDomains := cfg_blockedDomains E;
     cfg_allowedDomains := cfg_allowedDomains E;
     cfg_reportsDir := cfg_reportsDir E;
     cfg_embeddingModel := cfg_embeddingModel E;
     decodeURIComponent := decodeURIComponent E;
     URL_href := URL_href E;
     URL_hostname := URL_hostname E;
     md5_hex := md5_hex E;
     toLowerCase := toLowerCase E;
     toUpperCase := toUpperCase E;
     querySlug := querySlug E;
     path_join := path_join E;
     JSON_parse_terms := JSON_parse_terms E;
     JSON_parse_analysis := JSON_parse_analysis E;
     search_provider := search_provider E;
     http_get := http_get E;
     llm_generate := llm_generate E;
     llm_embed := llm_embed E;
     store_fault := store_fault E;
     now := now E;
     schedule := schedule E |}.

(** C4 in the specification's words: whenever the report-synthesis call
    of a session-backed run fails, the failure is raised and the session
    is stored with status 'error' and the failure message. *)
Definition report_failure_as_stated (E : Env) (query : string)
           (options : DeepSearchOptions) (w : World) : Prop :=
  forall (w1 w2 w3 w4 : World) (session : SessionRow) (data : SearchTermsData)
         (web : WebResults) (analysis : ContentAnalysis) (message : string),
    let limit := default (cfg_maxResults E) (maxSources options) in
    let advanced := default true (useAdvancedSearch options) in
    let wanted := default true (generateEmbeddings options) in
    let failure := "Erro ao gerar relatório: Erro ao gerar resposta: " +:+ message in
    Orchestrator.openSession E query options w = (Ok (Some session), w1) ->
    Orchestrator.generateSearchTerms E query w1 = (Ok data, w2) ->
    Orchestrator.searchFromTerms E (search_terms data) (Some limit) (Some advanced) w2
    = (Ok web, w3) ->
    Orchestrator.analyzeContent E query web (Some wanted) (Some (ss_id session)) w3
    = (Ok analysis, w4) ->
    llm_generate E (trace w4) SynthesizeReport query = inl message ->
    exists w' row,
      Orchestrator.performDeepSearch E query options w = (Throw failure, w')
      /\ search_sessions (store w') !! ss_id session = Some row
      /\ ss_status row = Failed
      /\ ss_metadata row !! "error" = Some (MText failure).

(** * Properties *)

(** ** Arrays *)

Lemma slice0_length {A} (l : list A) (n : Z) :
  0 <= n -> Z.of_nat (length (JS.slice0 l n)) <= n.
Proof.
  intros Hn. unfold JS.slice0.
  destruct (n <? 0) eqn:Hneg; [apply Z.ltb_lt in Hneg; lia |].
  rewrite length_take. lia.
Qed.

Lemma slice0_nil {A} (n : Z) : JS.slice0 (@nil A) n = [].
Proof. unfold JS.slice0. destruct (n <? 0); apply take_nil. Qed.

Lemma slice0_take {A} (l : list A) (n : Z) :
  0 <= n -> JS.slice0 l n = take (Z.to_nat n) l.
Proof.
  intros Hn. unfold JS.slice0.
  destruct (n <? 0) eqn:Hneg; [apply Z.ltb_lt in Hneg; lia | reflexivity].
Qed.

(** With a positive chunk size the loop of [chunkArray] ends, and the
    chunks put together are the array. *)
Lemma chunk_loop_total {A} (fuel chunkSize : nat) (l : list A) :
  (length l <= fuel)%nat -> (0 < chunkSize)%nat ->
  exists chunks, chunk_loop fuel chunkSize l = Some chunks /\ concat chunks = l.
Proof.
  revert l. induction fuel as [| fuel IH]; intros l Hlen Hpos.
  - destruct l; [exists []; auto | simpl in Hlen; lia].
  - destruct l as [| x l]; [exists []; auto |].
    destruct (IH (drop chunkSize (x :: l))) as (chunks & Hrun & Hconcat).
    + rewrite length_drop. simpl in *. lia.
    + exact Hpos.
    + exists (take chunkSize (x :: l) :: chunks).
      change (chunk_loop (S fuel) chunkSize (x :: l))
        with (option_map (cons (take chunkSize (x :: l)))
                         (chunk_loop fuel chunkSize (drop chunkSize (x :: l)))).
      rewrite Hrun. split; [reflexivity |].
      change (concat (take chunkSize (x :: l) :: chunks))
        with (take chunkSize (x :: l) ++ concat chunks).
      rewrite Hconcat. apply take_drop.
Qed.

Lemma chunkArray_total {A} (array : list A) (chunkSize : Z) :
  0 < chunkSize ->
  exists chunks, chunkArray array chunkSize = Some chunks /\ concat chunks = array.
Proof.
  intros Hpos. apply chunk_loop_total; lia.
Qed.

(** ** The query engine *)

Section QueryEngine.

Variable E : Env.

Lemma searchDuckDuckGo_run (query : string) (options : SearchOptions) (w : World) :
  let maxResults := default (cfg_maxResults E) (so_maxResults options) in
  searchDuckDuckGo E query options w =
  (Ok match search_provider E (trace w) query maxResults with
      | inl _ => []
      | inr blocks => JS.slice0 (parseDuckDuckGoResults E blocks) maxResults
      end,
   emit (EvSearch query maxResults) w).
Proof.
  unfold searchDuckDuckGo, try_catch, bind, searchClient_get, ret. simpl.
  destruct (search_provider E (trace w) query _); reflexivity.
Qed.

(** C7 — a single-term search never fails: whatever the result budget,
    it returns a list of hits after one provider call, and that list is
    empty after a provider error or a page without usable results; for a
    result budget [maxResults >= 0] the hits returned number at most
    [maxResults]. *)
Theorem searchDuckDuckGo_capped (query : string) (options : SearchOptions) (w : World) :
  let maxResults := default (cfg_maxResults E) (so_maxResults options) in
  exists hits,
    searchDuckDuckGo E query options w
    = (Ok hits, emit (EvSearch query maxResults) w)
    /\ (0 <= maxResults -> Z.of_nat (length hits) <= maxResults)
    /\ ((exists message,
           search_provider E (trace w) query maxResults = inl message) -> hits = [])
    /\ (forall blocks,
           search_provider E (trace w) query maxResults = inr blocks ->
           parseDuckDuckGoResults E blocks = [] -> hits = []).
Proof.
  intros maxResults. eexists. split; [apply searchDuckDuckGo_run |].
  fold maxResults.
  destruct (search_provider E (trace w) query maxResults) as [message | blocks].
  - repeat split; try reflexivity; simpl; auto with zarith.
  - split; [apply slice0_length |]. split.
    + intros [message Hm]. discriminate.
    + intros blocks' Hb Hparse. injection Hb as <-.
      rewrite Hparse. apply slice0_nil.
Qed.

End QueryEngine.

Lemma searchDuckDuckGo_capped_witness :
  0 <= 1 /\
  exists hits,
    searchDuckDuckGo sampleEnv "rocq" {| so_maxResults := Some 1 |} initial_world
    = (Ok hits, emit (EvSearch "rocq" 1) initial_world)
    /\ hits <> []
    /\ Z.of_nat (length hits) <= 1.
Proof.
  split; [lia |].
  destruct (searchDuckDuckGo_capped sampleEnv "rocq" {| so_maxResults := Some 1 |}
              initial_world) as (hits & Hrun & Hcap & _).
  exists hits. split; [exact Hrun |].
  split; [| apply Hcap; simpl; lia].
  intros ->. vm_compute in Hrun. discriminate Hrun.
Defined.

(** With a budget of -1 the sample page of two results comes back as one
    hit, which is more than the budget: the cap of C7 does not hold "in
    all cases". *)
Lemma negative_budget_counterexample :
  ~ capped_as_stated sampleEnv "rocq" {| so_maxResults := Some (-1) |} initial_world.
Proof.
  intros (hits & w' & Hrun & Hcap & _).
  vm_compute in Hrun. injection Hrun as <- _.
  simpl in Hcap. lia.
Qed.

(** ** Worlds *)

Lemma emit_extend (e : Event) (w : World) : emit e w = extend [e] w.
Proof. reflexivity. Qed.

Lemma extend_nil (w : World) : extend [] w = w.
Proof. destruct w. unfold extend. simpl. by rewrite app_nil_r. Qed.

Lemma extend_extend (a b : list Event) (w : World) :
  extend a (extend b w) = extend (b ++ a) w.
Proof. unfold extend. simpl. by rewrite app_assoc. Qed.

(** ** Members of a [Promise.all] *)

Section Pool.

Context {A G : Type}.
Variable step : G -> World -> World -> G -> Prop.
Variable final : G -> A -> Prop.
Variable stuck : G -> World -> World -> Prop.

(** What holds of the world and of the states of all members, and what
    holds of the world when a call never returns. *)
Variable I : list G -> World -> Prop.
Variable H : World -> Prop.

Hypothesis step_frame : forall pre g post g' w w',
  step g w w' g' -> I (pre ++ g :: post) w -> I (pre ++ g' :: post) w'.
Hypothesis stuck_frame : forall pre g post w w',
  stuck g w w' -> I (pre ++ g :: post) w -> H w'.

Lemma resume_inv (t : Task A) (g : G) (w : World) :
  task_inv step final stuck g t ->
  run_with (fun t' w' =>
              exists g', (g' = g /\ w' = w \/ step g w w' g')
                         /\ task_inv step final stuck g' t')
           (stuck g w) (resume t w).
Proof.
  destruct t as [a | B call next handler]; simpl.
  - intros Hfinal. exists g. split; [left; split; reflexivity | exact Hfinal].
  - intros Hinv. specialize (Hinv w).
    destruct (call w) as [[b | e |] w1]; simpl.
    + destruct Hinv as (g' & Hstep & Hrest). exists g'. split; [right |]; assumption.
    + destruct Hinv as (g' & Hstep & Hrest). exists g'. split; [right |]; assumption.
    + exact Hinv.
Qed.

Lemma settle_inv (t : Task A) :
  forall (g : G) (pre post : list G) (w : World),
    task_inv step final stuck g t ->
    I (pre ++ g :: post) w ->
    run_with (fun a w' => exists g', I (pre ++ g' :: post) w' /\ final g' a)
             H (settle t w).
Proof.
  induction t as [a | B call next IHnext handler IHhandler];
    intros g pre post w Hinv HI; simpl.
  - exists g. split; assumption.
  - simpl in Hinv. specialize (Hinv w).
    destruct (call w) as [[b | e |] w1].
    + destruct Hinv as (g' & Hstep & Hrest).
      apply (IHnext b g' pre post w1 Hrest). eapply step_frame; eassumption.
    + destruct Hinv as (g' & Hstep & Hrest).
      apply (IHhandler e g' pre post w1 Hrest). eapply step_frame; eassumption.
    + simpl. eapply stuck_frame; eassumption.
Qed.

Lemma start_all_inv (gs : list G) (tasks : list (Task A)) :
  Forall2 (task_inv step final stuck) gs tasks ->
  forall (pre : list G) (w : World),
    I (pre ++ gs) w ->
    run_with (fun tasks' w' =>
                exists gs', I (pre ++ gs') w'
                            /\ Forall2 (task_inv step final stuck) gs' tasks')
             H (start_all tasks w).
Proof.
  induction 1 as [| g t gs tasks Hgt Hrest IH]; intros pre w HI; simpl.
  - exists []. split; [exact HI | constructor].
  - unfold bind at 1. pose proof (resume_inv t g w Hgt) as Hres.
    destruct (resume t w) as [[t' | e |] w1]; simpl in Hres.
    + destruct Hres as (g' & Hstep & Hinv').
      assert (HI' : I ((pre ++ [g']) ++ gs) w1).
      { rewrite <- app_assoc. simpl.
        destruct Hstep as [[-> ->] | Hstep]; [exact HI |].
        eapply step_frame; eassumption. }
      specialize (IH (pre ++ [g']) w1 HI'). unfold bind at 1.
      destruct (start_all tasks w1) as [[tasks' | e |] w2]; simpl in IH |- *.
      * destruct IH as (gs' & HI2 & Hall). exists (g' :: gs').
        rewrite <- app_assoc in HI2. split; [exact HI2 |].
        constructor; assumption.
      * exact IH.
      * exact IH.
    + exact Hres.
    + eapply stuck_frame; eassumption.
Qed.

Lemma resume_in_order_inv (order : list nat) :
  forall (gs : list G) (tasks : list (Task A)) (w : World),
    Forall2 (task_inv step final stuck) gs tasks ->
    I gs w ->
    run_with (fun tasks' w' =>
                exists gs', I gs' w'
                            /\ Forall2 (task_inv step final stuck) gs' tasks')
             H (resume_in_order order tasks w).
Proof.
  induction order as [| i order IH]; intros gs tasks w Hall HI; simpl.
  - exists gs. split; assumption.
  - destruct (tasks !! i) as [t |] eqn:Hi; [| apply (IH gs); assumption].
    destruct (Forall2_lookup_r _ _ _ _ _ Hall Hi) as (g & Hg & Hgt).
    pose proof (take_drop_middle gs i g Hg) as Hsplit.
    unfold bind. pose proof (resume_inv t g w Hgt) as Hres.
    destruct (resume t w) as [[t' | e |] w1]; simpl in Hres.
    + destruct Hres as (g' & Hstep & Hinv').
      apply (IH (<[i := g']> gs)).
      * apply Forall2_insert; assumption.
      * rewrite insert_take_drop by (eapply lookup_lt_Some; exact Hg).
        destruct Hstep as [[-> ->] | Hstep].
        -- rewrite Hsplit. exact HI.
        -- eapply step_frame; [exact Hstep |]. rewrite Hsplit. exact HI.
    + exact Hres.
    + eapply stuck_frame; [exact Hres |]. rewrite Hsplit. exact HI.
Qed.

Lemma settle_all_inv (gs : list G) (tasks : list (Task A)) :
  Forall2 (task_inv step final stuck) gs tasks ->
  forall (pre : list G) (w : World),
    I (pre ++ gs) w ->
    run_with (fun results w' =>
                exists gs', I (pre ++ gs') w' /\ Forall2 final gs' results)
             H (settle_all tasks w).
Proof.
  induction 1 as [| g t gs tasks Hgt Hrest IH]; intros pre w HI; simpl.
  - exists []. split; [exact HI | constructor].
  - unfold bind at 1. pose proof (settle_inv t g pre gs w Hgt HI) as Hres.
    destruct (settle t w) as [[a | e |] w1]; simpl in Hres.
    + destruct Hres as (g' & HI' & Hfinal).
      assert (HI'' : I ((pre ++ [g']) ++ gs) w1)
        by (rewrite <- app_assoc; exact HI').
      specialize (IH (pre ++ [g']) w1 HI''). unfold bind at 1.
      destruct (settle_all tasks w1) as [[results | e |] w2]; simpl in IH |- *.
      * destruct IH as (gs' & HI2 & Hall). exists (g' :: gs').
        rewrite <- app_assoc in HI2. split; [exact HI2 |].
        constructor; assumption.
      * exact IH.
      * exact IH.
    + exact Hres.
    + exact Hres.
Qed.

(** Whatever turns the members take, the invariant holds when all of
    them have their value. *)
Lemma promise_all_inv (E : Env) (gs : list G) (tasks : list (Task A)) (w : World) :
  Forall2 (task_inv step final stuck) gs tasks ->
  I gs w ->
  run_with (fun results w' => exists gs', I gs' w' /\ Forall2 final gs' results)
           H (promise_all E tasks w).
Proof.
  intros Hall HI. unfold promise_all, bind at 1.
  pose proof (start_all_inv gs tasks Hall [] w HI) as Hstart.
  destruct (start_all tasks w) as [[started | e |] w1]; simpl in Hstart;
    [| exact Hstart | exact Hstart].
  destruct Hstart as (gs1 & HI1 & Hall1). unfold bind.
  pose proof (resume_in_order_inv (schedule E (trace w1)) gs1 started w1 Hall1 HI1)
    as Hturns.
  destruct (resume_in_order (schedule E (trace w1)) started w1)
    as [[resumed | e |] w2]; simpl in Hturns; [| exact Hturns | exact Hturns].
  destruct Hturns as (gs2 & HI2 & Hall2).
  apply (settle_all_inv gs2 resumed Hall2 [] w2 HI2).
Qed.

End Pool.

(** *** Members that leave part of the store alone *)

Section PoolStays.

Variable R : Store -> Store -> Prop.
Hypothesis R_refl : forall s, R s s.
Hypothesis R_trans : forall a b c, R a b -> R b c -> R a c.

Lemma task_stays_call {A B} (call : M B) (next : B -> Task A)
      (handler : string -> Task A) :
  stays R call ->
  (forall b, task_stays R (next b)) ->
  (forall e, task_stays R (handler e)) ->
  task_stays R (Call call next handler).
Proof.
  intros Hcall Hnext Hhandler w. specialize (Hcall w).
  destruct (call w) as [[b | e |] w1]; simpl in Hcall.
  - exists tt. split; [exact Hcall | apply Hnext].
  - exists tt. split; [exact Hcall | apply Hhandler].
  - exact Hcall.
Qed.

Lemma task_stays_return {A} (a : A) : task_stays R (Return a).
Proof. exact I. Qed.

Lemma promise_all_stays {A} (E : Env) (tasks : list (Task A)) :
  Forall (task_stays R) tasks -> stays R (promise_all E tasks).
Proof.
  intros Hall w.
  assert (Hall2 : Forall2 (task_inv (fun (_ : unit) w w' _ => R (store w) (store w'))
                                    (fun _ (_ : A) => True)
                                    (fun _ w w' => R (store w) (store w')))
                          (map (fun _ => tt) tasks) tasks).
  { apply Forall2_fmap_l, Forall_Forall2_diag. exact Hall. }
  pose proof (promise_all_inv
                (fun (_ : unit) w w' _ => R (store w) (store w'))
                (fun _ (_ : A) => True)
                (fun _ w w' => R (store w) (store w'))
                (fun _ w' => R (store w) (store w'))
                (fun w' => R (store w) (store w'))
                (fun pre g post g' w1 w2 Hstep HI => R_trans _ _ _ HI Hstep)
                (fun pre g post w1 w2 Hstuck HI => R_trans _ _ _ HI Hstuck)
                E _ tasks w Hall2 (R_refl _)) as Hrun.
  destruct (promise_all E tasks w) as [[results | e |] w']; simpl in Hrun |- *.
  - destruct Hrun as (_ & Hrun & _). exact Hrun.
  - contradiction.
  - exact Hrun.
Qed.

Variable E : Env.

Lemma analyzeSingleSource_task_stays (query : string) (source : ScrapedSource)
      (wanted : bool) (sessionId : option nat) :
  (forall content, stays R (LLMService.analyzeWebContent E content query)) ->
  (wanted = true ->
   (forall contentHash, stays R (getCachedEmbedding E contentHash))
   /\ (forall text, stays R (LLMService.generateEmbedding E text))
   /\ (forall contentHash preview embedding model,
          stays R (cacheEmbedding E contentHash preview embedding model))) ->
  (forall id summary embedding,
      sessionId = Some id -> stays R (saveWebSource E id source summary embedding)) ->
  task_stays R (Orchestrator.analyzeSingleSource_task E query source wanted sessionId).
Proof.
  intros Hanalyze Hwanted Hsave.
  assert (Hfinish : forall analysis embedding,
             task_stays R (Orchestrator.finish_task E source analysis embedding)).
  { intros analysis embedding. apply task_stays_call.
    - intros w. apply R_refl.
    - intros processingTime. apply task_stays_return.
    - intros e. apply task_stays_return. }
  assert (Hsaved : forall analysis embedding,
             task_stays R (Orchestrator.save_task E source analysis embedding sessionId)).
  { intros analysis embedding. unfold Orchestrator.save_task.
    destruct sessionId as [id |]; [| apply Hfinish].
    apply task_stays_call; [apply Hsave; reflexivity | intros; apply Hfinish |].
    intros e. apply task_stays_return. }
  unfold Orchestrator.analyzeSingleSource_task.
  apply task_stays_call; [apply Hanalyze | | intros e; apply task_stays_return].
  intros analysis. unfold Orchestrator.embedding_wanted.
  destruct wanted; simpl andb; [| apply Hsaved].
  destruct (Score.gt (relevance_score analysis) (30 # 1)%Q); [| apply Hsaved].
  destruct (Hwanted eq_refl) as (Hlookup & Hembed & Hcache).
  unfold Orchestrator.embedding_task.
  apply task_stays_call; [apply Hlookup | | intros e; apply task_stays_return].
  intros cached. destruct (cached ≫= cr_embedding) as [embedding |]; [apply Hsaved |].
  apply task_stays_call; [apply Hembed | | intros e; apply Hsaved].
  intros generated. apply task_stays_call; [apply Hcache | |]; intros; apply Hsaved.
Qed.

End PoolStays.

(** *** Members that only wait *)

Section PoolSilent.

Context {A : Type}.

Lemma silent_pool (Ps : list (A -> Prop)) (tasks : list (Task A))
      (order : list nat) (w : World) :
  Forall2 task_silent Ps tasks ->
  exists results,
    (let* resumed := resume_in_order order tasks in settle_all resumed) w
    = (Ok results, w)
    /\ Forall2 (fun P a => P a) Ps results.
Proof.
  intros Hall.
  assert (Hframe : forall (pre : list (A -> Prop)) g post g' (w1 w2 : World),
             g' = g /\ w2 = w1 ->
             pre ++ g :: post = Ps /\ w1 = w ->
             pre ++ g' :: post = Ps /\ w2 = w).
  { intros pre g post g' w1 w2 [-> ->] HI. exact HI. }
  pose proof (resume_in_order_inv
                (fun (g : A -> Prop) w w' g' => g' = g /\ w' = w)
                (fun g a => g a) (fun _ _ _ => False)
                (fun gs w1 => gs = Ps /\ w1 = w) (fun _ => False)
                Hframe (fun pre g post w1 w2 Hstuck HI => Hstuck)
                order Ps tasks w Hall (conj eq_refl eq_refl)) as Hturns.
  unfold bind.
  destruct (resume_in_order order tasks w) as [[resumed | e |] w1];
    simpl in Hturns; [| contradiction | contradiction].
  destruct Hturns as (gs1 & [-> ->] & Hall1).
  pose proof (settle_all_inv
                (fun (g : A -> Prop) w w' g' => g' = g /\ w' = w)
                (fun g a => g a) (fun _ _ _ => False)
                (fun gs w1 => gs = Ps /\ w1 = w) (fun _ => False)
                Hframe (fun pre g post w1 w2 Hstuck HI => Hstuck)
                Ps resumed Hall1 [] w (conj eq_refl eq_refl)) as Hsettle.
  destruct (settle_all resumed w) as [[results | e |] w2];
    simpl in Hsettle; [| contradiction | contradiction].
  destruct Hsettle as (gs2 & [-> ->] & Hfinal).
  exists results. split; [reflexivity | exact Hfinal].
Qed.

End PoolSilent.

(** ** Deduplication *)

Section Dedup.

Variable E : Env.
Variable tag : Hit -> Hit.
Hypothesis tag_url : forall h, hit_url (tag h) = hit_url h.

Lemma dedup_into_inv (results : list Hit) (acc : list Hit * gset string) :
  dedup_inv acc -> dedup_inv (dedup_into tag results acc).
Proof.
  revert acc. induction results as [| r rest IH]; intros [allResults seenUrls] Hinv;
    [exact Hinv |].
  simpl. destruct (decide (hit_url r ∈ seenUrls)) as [Hseen | Hnew].
  - apply IH, Hinv.
  - apply IH. destruct Hinv as [Hnodup Hsub]. simpl in *. split; simpl.
    + rewrite map_app. simpl. rewrite tag_url.
      apply NoDup_app. split; [exact Hnodup |]. split.
      * intros u Hu Hu'. apply list_elem_of_singleton in Hu'. subst u.
        apply Hnew, Hsub, Hu.
      * apply NoDup_singleton.
    + intros u. rewrite map_app. simpl. rewrite tag_url.
      rewrite elem_of_app, list_elem_of_singleton. intros [Hu | ->].
      * apply elem_of_union_r, Hsub, Hu.
      * apply elem_of_union_l, elem_of_singleton. reflexivity.
Qed.

(** Hits already kept stay where they are: an earlier hit is never
    displaced by a later one with the same URL. *)
Lemma dedup_into_prefix (results : list Hit) (acc : list Hit * gset string) :
  exists kept, fst (dedup_into tag results acc) = fst acc ++ kept.
Proof.
  revert acc. induction results as [| r rest IH]; intros [allResults seenUrls].
  - exists []. simpl. by rewrite app_nil_r.
  - simpl. destruct (decide (hit_url r ∈ seenUrls)).
    + apply IH.
    + destruct (IH (allResults ++ [tag r], {[hit_url r]} ∪ seenUrls)) as [kept Hk].
      exists (tag r :: kept). rewrite Hk. simpl. by rewrite <- app_assoc.
Qed.

End Dedup.

Lemma dedup_inv_empty : dedup_inv ([], ∅).
Proof. split; simpl; [apply NoDup_nil_2 | intros u Hu; inversion Hu]. Qed.

Section SearchLoops.

Variable E : Env.

Lemma multiSearch_loop_run (terms : list string) (options : SearchOptions)
      (acc : list Hit * gset string) (w : World) :
  let budget := default (cfg_maxResults E) (so_maxResults options) in
  dedup_inv acc ->
  exists hits kept,
    multiSearch_loop E terms options acc w
    = (Ok hits, extend (multiSearch_events budget terms) w)
    /\ hits = fst acc ++ kept
    /\ NoDup (map hit_url hits).
Proof.
  intros budget. revert acc w.
  induction terms as [| term rest IH]; intros acc w Hinv.
  - exists (fst acc), []. simpl. unfold ret. rewrite extend_nil, app_nil_r.
    repeat split. apply Hinv.
  - simpl. unfold bind at 1. unfold try_catch, bind at 1.
    rewrite searchDuckDuckGo_run. fold budget.
    set (results := match search_provider E (trace w) term budget with
                    | inl _ => []
                    | inr blocks => JS.slice0 (parseDuckDuckGoResults E blocks) budget
                    end).
    unfold sleep, bind, ret. simpl.
    pose proof (dedup_into_inv (with_searchTerm term) (fun h => eq_refl) results acc Hinv)
      as Hinv'.
    destruct (IH (dedup_into (with_searchTerm term) results acc)
                 (emit (EvSleep 1000) (emit (EvSearch term budget) w)) Hinv')
      as (hits & kept & Hrun & Hhits & Hnodup).
    destruct (dedup_into_prefix (with_searchTerm term) results acc) as [kept0 Hk0].
    exists hits, (kept0 ++ kept). split; [| split].
    + rewrite Hrun. f_equal. rewrite !emit_extend, !extend_extend. reflexivity.
    + rewrite Hhits, Hk0. by rewrite app_assoc.
    + exact Hnodup.
Qed.

(** Within one call of [multiSearch] no URL is kept twice. *)
Lemma multiSearch_run (terms : list string) (options : SearchOptions) (w : World) :
  let budget := default (cfg_maxResults E) (so_maxResults options) in
  exists hits,
    multiSearch E terms options w
    = (Ok hits, extend (multiSearch_events budget terms) w)
    /\ NoDup (map hit_url hits).
Proof.
  intros budget. unfold multiSearch.
  destruct (multiSearch_loop_run terms options ([], ∅) w dedup_inv_empty)
    as (hits & kept & Hrun & _ & Hnodup).
  exists hits. split; assumption.
Qed.

Lemma dork_loop_run (ds : list string) (nDorks : Z) (baseQuery : option string)
      (allResults : list Hit) (w : World) :
  let budget := JS.ceil_div (cfg_maxResults E) nDorks in
  exists hits,
    dork_loop E ds nDorks baseQuery allResults w
    = (Ok hits, extend (dork_events budget ds) w).
Proof.
  intros budget. revert allResults w.
  induction ds as [| dork rest IH]; intros allResults w.
  - exists allResults. simpl. unfold ret. by rewrite extend_nil.
  - simpl. unfold bind at 1. unfold try_catch, bind at 1.
    rewrite searchDuckDuckGo_run. simpl. fold budget.
    unfold sleep, bind, ret. simpl.
    match goal with
    | |- context [dork_loop E rest nDorks baseQuery ?a ?w'] =>
      destruct (IH a w') as [hits Hrun]
    end.
    exists hits. rewrite Hrun. f_equal.
    rewrite !emit_extend, !extend_extend. reflexivity.
Qed.

(** Within one call of [searchWithDorks] no URL is kept twice. *)
Lemma searchWithDorks_run (baseQuery : option string) (options : SearchOptions)
      (w : World) :
  let budget := JS.ceil_div (cfg_maxResults E) 7 in
  exists hits,
    searchWithDorks E baseQuery options w
    = (Ok hits, extend (dork_events budget (dorks baseQuery)) w)
    /\ NoDup (map hit_url hits).
Proof.
  intros budget. unfold searchWithDorks, bind.
  destruct (dork_loop_run (dorks baseQuery) (Z.of_nat (length (dorks baseQuery)))
                          baseQuery [] w) as [allResults Hrun].
  rewrite Hrun. unfold ret. eexists. split; [reflexivity |].
  apply (dedup_into_inv id (fun h => eq_refl) allResults ([], ∅) dedup_inv_empty).
Qed.

End SearchLoops.

(** ** The search phase of a run *)

Lemma events_of_extend {A} (m : M A) (w : World) (r : Outcome A) (events : list Event) :
  m w = (r, extend events w) -> events_of m w = events.
Proof.
  intros Hrun. unfold events_of. rewrite Hrun. simpl. apply drop_app_length.
Qed.

Lemma search_calls_app (a b : list Event) :
  search_calls (a ++ b) = search_calls a ++ search_calls b.
Proof. apply omap_app. Qed.

Lemma search_calls_dork_events (budget : Z) (ds : list string) :
  search_calls (dork_events budget ds) = map (fun d => (d, budget)) ds.
Proof. induction ds as [| d ds IH]; simpl; [reflexivity | by rewrite <- IH]. Qed.

Lemma search_calls_multiSearch_events (budget : Z) (terms : list string) :
  search_calls (multiSearch_events budget terms) = map (fun t => (t, budget)) terms.
Proof. induction terms as [| t terms IH]; simpl; [reflexivity | by rewrite <- IH]. Qed.

Section SearchPhase.

Variable E : Env.

(** In advanced mode the provider is asked the seven refinements of the
    first term, each with the configured maximum divided by seven, then
    each further term with half of the run's maximum. *)
Lemma searchPhase_advanced_run (searchTerms : list string) (maxResults : Z) (w : World) :
  exists hits,
    Orchestrator.searchPhase E searchTerms maxResults true w
    = (Ok hits,
       extend (dork_events (JS.ceil_div (cfg_maxResults E) 7) (dorks (head searchTerms))
               ++ multiSearch_events (JS.ceil_div maxResults 2) (tail searchTerms)) w).
Proof.
  unfold Orchestrator.searchPhase. unfold bind at 1.
  destruct (searchWithDorks_run E (head searchTerms)
              {| so_maxResults := Some (JS.ceil_div maxResults 2) |} w)
    as (dorkResults & Hdork & _).
  rewrite Hdork.
  destruct (tail searchTerms) as [| t rest] eqn:Htail.
  - exists dorkResults. unfold ret, multiSearch_events. simpl flat_map.
    by rewrite app_nil_r.
  - unfold bind.
    destruct (multiSearch_run E (t :: rest)
                {| so_maxResults := Some (JS.ceil_div maxResults 2) |}
                (extend (dork_events (JS.ceil_div (cfg_maxResults E) 7)
                                     (dorks (head searchTerms))) w))
      as (normalResults & Hmulti & _).
    rewrite Hmulti. unfold ret. eexists. f_equal.
    rewrite extend_extend. reflexivity.
Qed.

(** Without advanced mode every call of the run goes through one
    [multiSearch], and the merged hits hold no URL twice. *)
Lemma searchPhase_plain_unique (searchTerms : list string) (maxResults : Z) (w : World) :
  exists hits,
    Orchestrator.searchPhase E searchTerms maxResults false w
    = (Ok hits, extend (multiSearch_events maxResults searchTerms) w)
    /\ NoDup (map hit_url hits).
Proof.
  unfold Orchestrator.searchPhase.
  apply (multiSearch_run E searchTerms {| so_maxResults := Some maxResults |} w).
Qed.

(** C2 — with advanced mode on and [maxResults = 10], the provider is
    asked exactly the seven refinements of the first expanded term, and
    then every remaining term once, each with a result budget of its own
    of 5. *)
Theorem searchPhase_advanced_calls (term : string) (rest : list string) (w : World) :
  let calls :=
    search_calls (events_of (Orchestrator.searchPhase E (term :: rest) 10 true) w) in
  map fst (take 7 calls) = dorks (Some term)
  /\ length (dorks (Some term)) = 7%nat
  /\ drop 7 calls = map (fun t => (t, 5)) rest.
Proof.
  intros calls. subst calls.
  destruct (searchPhase_advanced_run (term :: rest) 10 w) as [hits Hrun].
  rewrite (events_of_extend _ _ _ _ Hrun).
  rewrite search_calls_app, search_calls_dork_events, search_calls_multiSearch_events.
  simpl head. simpl tail.
  change (JS.ceil_div 10 2) with 5.
  repeat split.
Qed.

End SearchPhase.

(** C1 — a run in advanced mode over two terms whose provider returns
    the same page for every query: the hits handed to scraping hold the
    URLs of that page twice, once from the refinements of the first term
    and once from the second term, and each of them is fetched twice. *)
Theorem searchPhase_advanced_duplicates :
  exists hits w',
    Orchestrator.searchPhase sampleEnv ["deep learning"; "neural networks"] 10 true
                             initial_world = (Ok hits, w')
    /\ map hit_url hits
       = ["https://example.com/"; "https://other.org/";
          "https://example.com/"; "https://other.org/"]
    /\ ~ NoDup (map hit_url hits)
    /\ fetched_urls
         (events_of (Orchestrator.performWebSearch
                       sampleEnv ["deep learning"; "neural networks"]
                       (Some 10) (Some true)) initial_world)
       = map hit_url hits.
Proof.
  eexists. eexists. split; [vm_compute; reflexivity |].
  split; [reflexivity |]. split; [| vm_compute; reflexivity].
  simpl. intros Hnodup. apply NoDup_cons in Hnodup as [Hnotin _].
  apply Hnotin. right. left.
Qed.

Lemma budget_split_counterexample :
  ~ dork_budget_as_stated busyEnv ["x"; "y"; "z"] initial_world
  /\ ~ remaining_share_as_stated busyEnv ["x"; "y"; "z"] initial_world.
Proof.
  split.
  - intros Hclaim.
    specialize (Hclaim (JS.dquote +:+ "x" +:+ JS.dquote) 8).
    assert (Hin : (JS.dquote +:+ "x" +:+ JS.dquote, 8)
                  ∈ take 7 (search_calls
                      (events_of (Orchestrator.searchPhase busyEnv ["x"; "y"; "z"] 10 true)
                                 initial_world))).
    { vm_compute. left. }
    apply Hclaim in Hin. vm_compute in Hin. discriminate.
  - intros (hits & w' & Hrun & Hlen).
    vm_compute in Hrun. injection Hrun as <- _.
    vm_compute in Hlen. lia.
Qed.

(** ** Term expansion *)

Section TermExpansion.

Variable E : Env.

Lemma llm_generateSearchTerms_run (query : string) (w : World) :
  LLMService.generateSearchTerms E query w =
  (Ok match llm_generate E (trace w) ExpandTerms query with
      | inl _ => LLMService.simple_fallback query
      | inr response =>
        match LLMService.match_braces response with
        | Some jsonMatch =>
          match JSON_parse_terms E jsonMatch with
          | Some data => data
          | None => LLMService.simple_fallback query
          end
        | None => LLMService.extractSearchTermsFallback query response
        end
      end,
   emit (EvGenerate ExpandTerms query) w).
Proof.
  unfold LLMService.generateSearchTerms, try_catch, bind, LLMService.generateResponse.
  destruct (llm_generate E (trace w) ExpandTerms query) as [message | response];
    [reflexivity |].
  destruct (LLMService.match_braces response) as [jsonMatch |]; [| reflexivity].
  destruct (JSON_parse_terms E jsonMatch); reflexivity.
Qed.

(** The step of the orchestrator never raises, whatever the model does. *)
Lemma generateSearchTerms_run (query : string) (w : World) :
  Orchestrator.generateSearchTerms E query w = LLMService.generateSearchTerms E query w.
Proof.
  unfold Orchestrator.generateSearchTerms, try_catch.
  by rewrite llm_generateSearchTerms_run.
Qed.



Lemma occurs_app (c : ascii) (s t : string) :
  occurs c (s +:+ t) <-> occurs c s \/ occurs c t.
Proof.
  induction s as [| a s IH]; simpl; [tauto |]. rewrite IH. tauto.
Qed.

Lemma append_assoc (a b c : string) : (a +:+ b) +:+ c = a +:+ b +:+ c.
Proof.
  induction a as [| x a IH]; [reflexivity |].
  change (String x ((a +:+ b) +:+ c) = String x (a +:+ b +:+ c)).
  f_equal. exact IH.
Qed.




End TermExpansion.



(** ** The content fetcher *)

Section Fetcher.

Variable E : Env.

(** C5 — scraping a URL never raises; it yields a source only when the
    content taken from the fetched page, after white space is normalized,
    has at least 100 characters, and yields none when that content is
    shorter. *)
Theorem scrapePage_min_length (urlInfo : Hit) (w : World) :
  exists result w',
    scrapePage E urlInfo w = (Ok result, w')
    /\ (forall source,
           result = Some source ->
           exists page,
             http_get E (trace w) (hit_url urlInfo) = inr page
             /\ (100 <= String.length (cleanContent (extractContent page)))%nat
             /\ src_contentLength source
                = String.length (cleanContent (extractContent page)))
    /\ (forall page,
           http_get E (trace w) (hit_url urlInfo) = inr page ->
           (String.length (cleanContent (extractContent page)) < 100)%nat ->
           result = None).
Proof.
  unfold scrapePage, try_catch.
  destruct (isAllowedDomain E (hit_url urlInfo)) eqn:Hallowed; simpl.
  - unfold bind at 1. unfold scrapeClient_get.
    destruct (http_get E (trace w) (hit_url urlInfo)) as [message | page] eqn:Hget.
    + unfold ret. do 2 eexists. split; [reflexivity |].
      split; [intros source Hs; discriminate | intros page Hp; discriminate].
    + destruct (String.length (cleanContent (extractContent page)) <? 100)%nat eqn:Hlen.
      * unfold ret. do 2 eexists. split; [reflexivity |].
        split; [intros source Hs; discriminate | reflexivity].
      * apply Nat.ltb_ge in Hlen.
        destruct (URL_hostname E (hit_url urlInfo)) as [domain |].
        -- unfold bind, clock, ret. do 2 eexists. split; [reflexivity |]. split.
           ++ intros source Hs. injection Hs as <-. exists page. simpl. auto.
           ++ intros page' Hp Hshort. injection Hp as <-. lia.
        -- unfold throw, ret. do 2 eexists. split; [reflexivity |]. split.
           ++ intros source Hs. discriminate.
           ++ reflexivity.
  - unfold ret. do 2 eexists. split; [reflexivity |].
    split; [intros source Hs; discriminate | reflexivity].
Qed.

End Fetcher.

Example cleanContent_collapses :
  cleanContent (String (ascii_of_nat 9) "a  b" +:+ String (ascii_of_nat 10) "  c ")
  = "a b c".
Proof. reflexivity. Qed.

(** A page whose article has 122 characters yields a source; with the
    body alone, 5 characters, it would yield none. *)
Example scrapePage_article :
  String.length (cleanContent paragraph) = 122%nat
  /\ exists source w',
      scrapePage fetchingEnv article_hit initial_world = (Ok (Some source), w')
      /\ src_contentLength source = 122%nat
      /\ src_wordCount source = 20%nat
      /\ src_domain source = "example.com".
Proof.
  split; [reflexivity |]. do 2 eexists. split; [reflexivity |].
  repeat split.
Qed.

(** ** Relevance tiers *)

Lemma tiers_exclusive (a : AnalysisResult) :
  is_Some (Orchestrator.relevance a) ->
  (Nat.b2n (high_tier a) + Nat.b2n (medium_tier a) + Nat.b2n (low_tier a) = 1)%nat.
Proof.
  intros [q Hq]. unfold high_tier, medium_tier, low_tier. rewrite Hq. simpl.
  destruct (Qle_bool (70 # 1) q) eqn:H70; destruct (Qle_bool (40 # 1) q) eqn:H40;
    try reflexivity.
  exfalso. apply Qle_bool_iff in H70.
  assert (H : Qle_bool (40 # 1) q = true).
  { apply Qle_bool_iff. apply Qle_trans with (70 # 1)%Q; [| exact H70].
    unfold Qle. simpl. lia. }
  congruence.
Qed.

Lemma tier_counts (analyses : list AnalysisResult) :
  Forall (fun a => is_Some (Orchestrator.relevance a)) analyses ->
  (length (List.filter high_tier analyses)
   + length (List.filter medium_tier analyses)
   + length (List.filter low_tier analyses) = length analyses)%nat.
Proof.
  induction 1 as [| a rest Ha _ IH]; [reflexivity |].
  pose proof (tiers_exclusive a Ha) as Hone. simpl.
  destruct (high_tier a), (medium_tier a), (low_tier a); simpl in *; lia.
Qed.

(** C10 — when every relevance score is a number, the three tier counts
    of the synthesis add up to [totalSources], which is the number of
    analyses, and every analysis falls in exactly one of the tiers
    (score >= 70, 40 <= score < 70, score < 40). *)
Theorem tiers_partition (query : string) (analyses : list AnalysisResult) :
  Forall (fun a => is_Some (Orchestrator.relevance a)) analyses ->
  let synthesis := Orchestrator.consolidateAnalyses query analyses in
  (highRelevanceSources synthesis + mediumRelevanceSources synthesis
   + lowRelevanceSources synthesis = totalSources synthesis)%nat
  /\ totalSources synthesis = length analyses
  /\ highRelevanceSources synthesis = length (List.filter high_tier analyses)
  /\ mediumRelevanceSources synthesis = length (List.filter medium_tier analyses)
  /\ lowRelevanceSources synthesis = length (List.filter low_tier analyses)
  /\ Forall (fun a =>
               (Nat.b2n (high_tier a) + Nat.b2n (medium_tier a)
                + Nat.b2n (low_tier a) = 1)%nat) analyses.
Proof.
  intros Hnum synthesis. subst synthesis. simpl.
  split; [apply (tier_counts analyses Hnum) |].
  repeat split.
  eapply Forall_impl; [exact Hnum |]. apply tiers_exclusive.
Qed.

Lemma tiers_partition_witness :
  let analyses := [sample_analysis (85 # 1)%Q; sample_analysis (139 # 2)%Q;
                   sample_analysis (12 # 1)%Q] in
  let synthesis := Orchestrator.consolidateAnalyses "rocq" analyses in
  Forall (fun a => is_Some (Orchestrator.relevance a)) analyses
  /\ (highRelevanceSources synthesis, mediumRelevanceSources synthesis,
      lowRelevanceSources synthesis, totalSources synthesis) = (1, 1, 1, 3)%nat
  /\ (highRelevanceSources synthesis + mediumRelevanceSources synthesis
      + lowRelevanceSources synthesis = totalSources synthesis)%nat.
Proof.
  intros analyses synthesis.
  assert (Hnum : Forall (fun a => is_Some (Orchestrator.relevance a)) analyses).
  { repeat constructor; eexists; reflexivity. }
  split; [exact Hnum |]. split; [reflexivity |].
  exact (proj1 (tiers_partition "rocq" analyses Hnum)).
Defined.

(** ** The domain filter *)

Section DomainFilter.

Variable E : Env.

Lemma blocked_not_allowed (url domain pattern : string) :
  URL_hostname E url = Some domain ->
  pattern ∈ cfg_blockedDomains E ->
  Glob.pattern_matches pattern domain = true ->
  isAllowedDomain E url = false.
Proof.
  intros Hhost Hin Hmatch. unfold isAllowedDomain. rewrite Hhost.
  assert (Hex : existsb (fun p => Glob.pattern_matches p domain) (cfg_blockedDomains E)
                = true).
  { apply existsb_exists. exists pattern. split; [| exact Hmatch].
    apply list_elem_of_In, Hin. }
  by rewrite Hex.
Qed.

Lemma scrapePage_run (urlInfo : Hit) (w : World) :
  exists result events,
    scrapePage E urlInfo w = (Ok result, extend events w)
    /\ Forall (fetch_allowed E) events
    /\ (isAllowedDomain E (hit_url urlInfo) = false -> result = None /\ events = [])
    /\ (forall source,
           result = Some source ->
           src_url source = hit_url urlInfo /\ source_allowed E source).
Proof.
  unfold scrapePage, try_catch.
  destruct (isAllowedDomain E (hit_url urlInfo)) eqn:Hallowed; simpl.
  - assert (Hfetch : Forall (fetch_allowed E) [EvFetch (hit_url urlInfo)]).
    { apply Forall_singleton. intros url Hurl. injection Hurl as <-. exact Hallowed. }
    unfold bind at 1. unfold scrapeClient_get.
    destruct (http_get E (trace w) (hit_url urlInfo)) as [message | page].
    + unfold ret. exists None, [EvFetch (hit_url urlInfo)].
      repeat split; try discriminate; assumption.
    + destruct (String.length (cleanContent (extractContent page)) <? 100)%nat.
      * unfold ret. exists None, [EvFetch (hit_url urlInfo)].
        repeat split; try discriminate; assumption.
      * destruct (URL_hostname E (hit_url urlInfo)) as [domain |] eqn:Hhost.
        -- unfold bind, clock, ret. eexists. exists [EvFetch (hit_url urlInfo)].
           split; [reflexivity |]. split; [exact Hfetch |].
           split; [discriminate |].
           intros source Hs. injection Hs as <-. simpl.
           unfold source_allowed. simpl. auto.
        -- unfold throw, ret. exists None, [EvFetch (hit_url urlInfo)].
           repeat split; try discriminate; assumption.
  - unfold ret. exists None, []. rewrite extend_nil.
    repeat split; try discriminate. apply Forall_nil_2.
Qed.

(** The fetches of a chunk leave in its order, one for each allowed
    URL; after them every member only waits for its turn to read its
    page. *)
Lemma start_scrapes (chunk : list Hit) (w : World) :
  exists started,
    start_all (map (scrapePage_task E) chunk) w
    = (Ok started, extend (flat_map (page_events E) chunk) w)
    /\ Forall2 task_silent
               (map (fun urlInfo r =>
                       forall source, r = Some source -> scraped_from E urlInfo source)
                    chunk)
               started.
Proof.
  revert w. induction chunk as [| urlInfo rest IH]; intros w.
  - exists []. simpl. unfold ret. rewrite extend_nil. split; [reflexivity | constructor].
  - simpl. unfold bind at 1.
    assert (Hfirst : exists t,
               resume (scrapePage_task E urlInfo) w
               = (Ok t, extend (page_events E urlInfo) w)
               /\ task_silent
                    (fun r => forall source,
                         r = Some source -> scraped_from E urlInfo source) t).
    { unfold scrapePage_task, page_events.
      destruct (isAllowedDomain E (hit_url urlInfo)) eqn:Hallowed; simpl.
      - unfold scrapeClient_get. rewrite emit_extend.
        destruct (http_get E (trace w) (hit_url urlInfo)) as [message | page].
        + eexists. split; [reflexivity |]. simpl. discriminate.
        + eexists. split; [reflexivity |].
          destruct (String.length (cleanContent (extractContent page)) <? 100)%nat;
            [simpl; discriminate |].
          destruct (URL_hostname E (hit_url urlInfo)) as [domain |] eqn:Hhost;
            [| simpl; discriminate].
          intros w0. unfold clock. eexists. split; [split; reflexivity |].
          intros source Hs. injection Hs as <-.
          unfold scraped_from. simpl. auto.
      - eexists. rewrite extend_nil. split; [reflexivity |]. simpl. discriminate. }
    destruct Hfirst as (t & Hresume & Hsilent). rewrite Hresume.
    destruct (IH (extend (page_events E urlInfo) w)) as (started & Hrest & Hall).
    unfold bind. rewrite Hrest. unfold ret. exists (t :: started).
    rewrite extend_extend. split; [reflexivity |]. constructor; assumption.
Qed.

(** Awaited alone, the task of a hit is [scrapePage] under the [catch]
    of [scrapeContent]. *)
Lemma scrapePage_alone (urlInfo : Hit) (w : World) :
  settle (scrapePage_task E urlInfo) w
  = try_catch (scrapePage E urlInfo) (fun _ => ret None) w.
Proof.
  unfold scrapePage_task, scrapePage, try_catch.
  destruct (isAllowedDomain E (hit_url urlInfo)); simpl; [| reflexivity].
  unfold bind at 1.
  destruct (scrapeClient_get E (hit_url urlInfo) w) as [[page | message |] w1];
    [| reflexivity | reflexivity].
  destruct (String.length (cleanContent (extractContent page)) <? 100)%nat;
    [reflexivity |].
  destruct (URL_hostname E (hit_url urlInfo)); reflexivity.
Qed.

Lemma scrape_chunk_pool (chunk : list Hit) (w : World) :
  exists results,
    scrape_chunk E chunk w = (Ok results, extend (flat_map (page_events E) chunk) w)
    /\ Forall2 (fun urlInfo r =>
                  forall source, r = Some source -> scraped_from E urlInfo source)
               chunk results.
Proof.
  unfold scrape_chunk, promise_all. unfold bind at 1.
  destruct (start_scrapes chunk w) as (started & Hstart & Hall). rewrite Hstart.
  destruct (silent_pool _ started
              (schedule E (trace (extend (flat_map (page_events E) chunk) w)))
              (extend (flat_map (page_events E) chunk) w) Hall)
    as (results & Hrun & Hresults).
  exists results. split; [exact Hrun |].
  apply Forall2_fmap_l in Hresults. exact Hresults.
Qed.

Lemma scrape_chunk_run (chunk : list Hit) (w : World) :
  exists results events,
    scrape_chunk E chunk w = (Ok results, extend events w)
    /\ Forall (fetch_allowed E) events
    /\ Forall (source_allowed E) (omap id results).
Proof.
  destruct (scrape_chunk_pool chunk w) as (results & Hrun & Hresults).
  exists results, (flat_map (page_events E) chunk). split; [exact Hrun |]. split.
  - clear. induction chunk as [| urlInfo rest IH]; [constructor |].
    simpl. apply Forall_app. split; [| exact IH].
    unfold page_events.
    destruct (isAllowedDomain E (hit_url urlInfo)) eqn:Hallowed; [| constructor].
    apply Forall_singleton. intros url Hurl. injection Hurl as <-. exact Hallowed.
  - clear Hrun. induction Hresults as [| urlInfo r chunk results Hr Hrest IH];
      [constructor |].
    destruct r as [source |]; simpl; [| exact IH].
    constructor; [| exact IH].
    destruct (Hr source eq_refl) as (Hurl & _ & Hhost & Hallowed).
    unfold source_allowed. rewrite Hurl. auto.
Qed.

Lemma scrape_chunks_run (chunks : list (list Hit)) (results : list ScrapedSource)
      (w : World) :
  Forall (source_allowed E) results ->
  exists sources events,
    scrape_chunks E chunks results w = (Ok sources, extend events w)
    /\ Forall (fetch_allowed E) events
    /\ Forall (source_allowed E) sources.
Proof.
  revert results w. induction chunks as [| chunk rest IH]; intros results w Hres.
  - exists results, []. unfold scrape_chunks, ret. rewrite extend_nil.
    repeat split; [constructor | exact Hres].
  - simpl. unfold bind at 1.
    destruct (scrape_chunk_run chunk w) as (rs & ev & Hrun & Hev & Hrs).
    rewrite Hrun. unfold bind at 1. unfold sleep.
    destruct (IH (results ++ omap id rs) (emit (EvSleep 500) (extend ev w)))
      as (sources & evs & Hrest & Hevs & Hsources).
    { apply Forall_app. auto. }
    rewrite Hrest. exists sources, (ev ++ [EvSleep 500] ++ evs).
    rewrite emit_extend, !extend_extend.
    split; [reflexivity |]. split; [| exact Hsources].
    apply Forall_app. split; [exact Hev |].
    apply Forall_app. split; [| exact Hevs].
    apply Forall_singleton. intros url Hurl. discriminate.
Qed.

Lemma scrapeContent_run (urls : list Hit) (w : World) (sources : list ScrapedSource)
      (w' : World) :
  scrapeContent E urls w = (Ok sources, w') ->
  exists events,
    w' = extend events w
    /\ Forall (fetch_allowed E) events
    /\ Forall (source_allowed E) sources.
Proof.
  unfold scrapeContent.
  destruct (chunkArray urls (cfg_maxConcurrentScrapes E)) as [chunks |];
    [| discriminate].
  destruct (scrape_chunks_run chunks [] w (Forall_nil_2 _))
    as (sources' & events & Hrun & Hev & Hsrc).
  rewrite Hrun. intros Heq. injection Heq as <- <-. exists events. auto.
Qed.

Lemma searchPhase_run (searchTerms : list string) (maxResults : Z) (advanced : bool)
      (w : World) :
  exists hits events,
    Orchestrator.searchPhase E searchTerms maxResults advanced w
    = (Ok hits, extend events w)
    /\ Forall (fetch_allowed E) events.
Proof.
  assert (Hdork : forall b ds, Forall (fetch_allowed E) (dork_events b ds)).
  { intros b ds. induction ds as [| d ds IH]; simpl; [constructor |].
    repeat (constructor; [intros url Hurl; discriminate |]). exact IH. }
  assert (Hmulti : forall b ts, Forall (fetch_allowed E) (multiSearch_events b ts)).
  { intros b ts. induction ts as [| t ts IH]; simpl; [constructor |].
    repeat (constructor; [intros url Hurl; discriminate |]). exact IH. }
  destruct advanced.
  - destruct (searchPhase_advanced_run E searchTerms maxResults w) as [hits Hrun].
    do 2 eexists. split; [exact Hrun |]. apply Forall_app. auto.
  - destruct (searchPhase_plain_unique E searchTerms maxResults w) as (hits & Hrun & _).
    do 2 eexists. split; [exact Hrun |]. auto.
Qed.

Lemma performWebSearch_run (searchTerms : list string) (maxResults : option Z)
      (advanced : option bool) (w : World) (web : WebResults) (w' : World) :
  Orchestrator.performWebSearch E searchTerms maxResults advanced w = (Ok web, w') ->
  exists events,
    w' = extend events w
    /\ Forall (fetch_allowed E) events
    /\ Forall (source_allowed E) (wr_sources web)
    /\ wr_stats web = getSearchStats (wr_sources web).
Proof.
  unfold Orchestrator.performWebSearch, try_catch. unfold bind at 1.
  destruct (searchPhase_run searchTerms (default (cfg_maxResults E) maxResults)
                            (default true advanced) w)
    as (hits & ev & Hsearch & Hev).
  rewrite Hsearch. unfold bind.
  destruct (scrapeContent E hits (extend ev w)) as [[sources | message |] w1] eqn:Hscrape;
    unfold ret, throw; intros Heq; try discriminate.
  injection Heq as <- <-. simpl.
  destruct (scrapeContent_run hits _ sources w1 Hscrape) as (evs & -> & Hevs & Hsrc).
  exists (ev ++ evs). rewrite extend_extend.
  repeat split; [apply Forall_app; auto | exact Hsrc].
Qed.

(** With a positive scrape concurrency the retrieval phase always
    returns: no search and no fetch can make it raise. *)
Lemma performWebSearch_total (searchTerms : list string) (maxResults : option Z)
      (advanced : option bool) (w : World) :
  0 < cfg_maxConcurrentScrapes E ->
  exists web w',
    Orchestrator.performWebSearch E searchTerms maxResults advanced w = (Ok web, w').
Proof.
  intros Hpos. unfold Orchestrator.performWebSearch, try_catch. unfold bind at 1.
  destruct (searchPhase_run searchTerms (default (cfg_maxResults E) maxResults)
                            (default true advanced) w)
    as (hits & ev & Hsearch & _).
  rewrite Hsearch. unfold bind, scrapeContent.
  destruct (chunkArray_total hits (cfg_maxConcurrentScrapes E) Hpos)
    as (chunks & Hchunks & _).
  rewrite Hchunks.
  destruct (scrape_chunks_run chunks [] (extend ev w) (Forall_nil_2 _))
    as (sources & events & Hrun & _).
  rewrite Hrun. unfold ret. do 2 eexists. reflexivity.
Qed.

(** The counter of domains holds nothing under a name no source has. *)
Lemma own_set_own_ne (o : Counter.t) (k h : string) (v : Counter.Count) :
  k <> h -> Counter.own (Counter.set_own o k v) h = Counter.own o h.
Proof.
  intros Hne. induction o as [| [k' v'] o IH]; [reflexivity |]. simpl.
  destruct (decide (k' = k)) as [-> | Hk]; simpl.
  - destruct (decide (k = h)); [contradiction | reflexivity].
  - destruct (decide (k' = h)); [reflexivity | exact IH].
Qed.

Lemma own_snoc_ne (o : Counter.t) (k h : string) (v : Counter.Count) :
  k <> h -> Counter.own (o ++ [(k, v)]) h = Counter.own o h.
Proof.
  intros Hne. induction o as [| [k' v'] o IH]; simpl.
  - destruct (decide (k = h)); [contradiction | reflexivity].
  - destruct (decide (k' = h)); [reflexivity | exact IH].
Qed.

Lemma own_bump_ne (o : Counter.t) (k h : string) :
  k <> h -> Counter.own (Counter.bump o k) h = Counter.own o h.
Proof.
  intros Hne. unfold Counter.bump.
  destruct (Counter.own o k) as [[n |] |].
  - by apply own_set_own_ne.
  - by apply own_set_own_ne.
  - destruct (Counter.inherited k); [destruct (decide (k = "__proto__")) |];
      try reflexivity; by apply own_snoc_ne.
Qed.

Lemma stats_domain_absent (sources : list ScrapedSource) (domain : string) :
  domain <> "unknown" ->
  Forall (fun s => src_domain s <> domain) sources ->
  Counter.own (domains (getSearchStats sources)) domain = None.
Proof.
  intros Hunknown Hsrc. unfold getSearchStats. simpl.
  assert (Hgen : forall o,
             Counter.own o domain = None ->
             Counter.own
               (fold_left
                  (fun o result =>
                     Counter.bump o (if JS.truthy (src_domain result)
                                     then src_domain result else "unknown"))
                  sources o) domain = None).
  { induction Hsrc as [| s rest Hs _ IH]; intros o Ho; [exact Ho |].
    simpl. apply IH. rewrite own_bump_ne; [exact Ho |].
    destruct (JS.truthy (src_domain s)); [exact Hs | congruence]. }
  apply Hgen. reflexivity.
Qed.

(** C9 — a hit whose host matches a blocked-domain pattern is dropped
    before any fetch: scraping it yields nothing and calls nothing, no
    run of the retrieval phase fetches its URL, no returned source has
    its URL or its host, and the statistics, computed from the returned
    sources alone, count nothing under its host. *)
Theorem blocked_hit_excluded (urlInfo : Hit) (domain pattern : string) :
  URL_hostname E (hit_url urlInfo) = Some domain ->
  pattern ∈ cfg_blockedDomains E ->
  Glob.host_glob pattern = true ->
  Glob.pattern_matches pattern domain = true ->
  (forall w, scrapePage E urlInfo w = (Ok None, w))
  /\ forall searchTerms maxResults advanced w web w',
      Orchestrator.performWebSearch E searchTerms maxResults advanced w = (Ok web, w') ->
      (EvFetch (hit_url urlInfo) ∉ drop (length (trace w)) (trace w'))
      /\ Forall (fun s => src_url s <> hit_url urlInfo /\ src_domain s <> domain)
                (wr_sources web)
      /\ wr_stats web = getSearchStats (wr_sources web)
      /\ totalResults (wr_stats web) = length (wr_sources web)
      /\ (domain <> "unknown" ->
          Counter.own (domains (wr_stats web)) domain = None).
Proof.
  intros Hhost Hin _ Hmatch.
  pose proof (blocked_not_allowed _ _ _ Hhost Hin Hmatch) as Hblocked.
  split.
  - intros w. destruct (scrapePage_run urlInfo w) as (r & ev & Hrun & _ & Hnone & _).
    destruct (Hnone Hblocked) as [-> ->]. by rewrite extend_nil in Hrun.
  - intros searchTerms maxResults advanced w web w' Hrun.
    destruct (performWebSearch_run _ _ _ _ _ _ Hrun) as (events & -> & Hev & Hsrc & Hstats).
    assert (Hsources : Forall (fun s => src_url s <> hit_url urlInfo
                                        /\ src_domain s <> domain) (wr_sources web)).
    { eapply Forall_impl; [exact Hsrc |].
      intros s [Hallowed Hdomain]. split.
      - intros Heq. rewrite Heq in Hallowed. congruence.
      - intros Heq. subst domain.
        rewrite (blocked_not_allowed _ _ _ Hdomain Hin Hmatch) in Hallowed.
        discriminate. }
    split; [| split; [exact Hsources | split; [exact Hstats | split]]].
    + simpl. rewrite drop_app_length. intros Hfetch.
      rewrite Forall_forall in Hev. specialize (Hev _ Hfetch _ eq_refl).
      congruence.
    + rewrite Hstats. reflexivity.
    + intros Hunknown. rewrite Hstats. apply stats_domain_absent; [exact Hunknown |].
      eapply Forall_impl; [exact Hsources |]. intros s [_ Hd]. exact Hd.
Qed.

End DomainFilter.

Lemma blocked_hit_excluded_witness :
  URL_hostname sampleEnv (hit_url blocked_hit) = Some "192.168.0.1"
  /\ "192.168.*" ∈ cfg_blockedDomains sampleEnv
  /\ Glob.host_glob "192.168.*" = true
  /\ Glob.pattern_matches "192.168.*" "192.168.0.1" = true
  /\ scrapePage sampleEnv blocked_hit initial_world = (Ok None, initial_world).
Proof.
  assert (Hin : "192.168.*" ∈ cfg_blockedDomains sampleEnv).
  { simpl. do 3 right. left. }
  split; [reflexivity |]. split; [exact Hin |].
  split; [reflexivity |]. split; [reflexivity |].
  exact (proj1 (blocked_hit_excluded sampleEnv blocked_hit "192.168.0.1" "192.168.*"
                  eq_refl Hin eq_refl eq_refl) initial_world).
Defined.

(** ** The source analyzer *)

Lemma try_catch_bind_ok {A B} (m : M A) (k : A -> M B) (h : string -> M B)
      (w w1 : World) (a : A) :
  m w = (Ok a, w1) -> try_catch (bind m k) h w = try_catch (k a) h w1.
Proof. intros Hm. unfold try_catch, bind. rewrite Hm. reflexivity. Qed.

Lemma try_catch_bind_throw {A B} (m : M A) (k : A -> M B) (h : string -> M B)
      (w w1 : World) (message : string) :
  m w = (Throw message, w1) -> try_catch (bind m k) h w = h message w1.
Proof. intros Hm. unfold try_catch, bind. rewrite Hm. reflexivity. Qed.

Section Analyzer.

Variable E : Env.


(** A hit: one lookup, the stored vector, no call of the model. *)
Lemma resolveEmbedding_hit (source : ScrapedSource) (w : World)
      (row : CacheRow) (vector : list Q) :
  store_fault E (trace w) = NoFault ->
  embeddings_cache (store w) !! embedding_key E source = Some row ->
  cr_embedding row = Some vector ->
  Orchestrator.resolveEmbedding E source w
  = (Ok (Some vector), emit (EvStore (OpGetCachedEmbedding (embedding_key E source))) w).
Proof.
  intros Hfault Hrow Hvec.
  unfold Orchestrator.resolveEmbedding, bind, getCachedEmbedding, store_call.
  fold (embedding_key E source). rewrite Hfault, Hrow. simpl. rewrite Hvec.
  unfold ret, emit. simpl. destruct w as [t s]. reflexivity.
Qed.





(** The statements of [analyzeSingleSource] after the embedding block,
    awaited alone. *)
Lemma save_task_alone (source : ScrapedSource) (analysis : Analysis)
      (embedding : option (list Q)) (sessionId : option nat) (w : World) :
  settle (Orchestrator.save_task E source analysis embedding sessionId) w
  = try_catch
      (let* _ :=
         match sessionId with
         | Some id => saveWebSource E id source (summary analysis) embedding
         | None => ret tt
         end in
       let* processingTime := clock E in
       ret (Some {| ar_source := source;
                    ar_analysis := analysis;
                    ar_embedding := take 10 <$> embedding;
                    ar_processingTime := processingTime |}))
      (fun _ => ret None) w.
Proof.
  unfold Orchestrator.save_task, Orchestrator.finish_task, try_catch, bind.
  destruct sessionId as [id |]; simpl; [| reflexivity].
  destruct (saveWebSource E id source (summary analysis) embedding w)
    as [[[] | e |] w1]; reflexivity.
Qed.

(** Awaited alone, the task of a source is [analyzeSingleSource]. *)
Lemma analyzeSingleSource_alone (query : string) (source : ScrapedSource)
      (wanted : bool) (sessionId : option nat) (w : World) :
  settle (Orchestrator.analyzeSingleSource_task E query source wanted sessionId) w
  = Orchestrator.analyzeSingleSource E query source wanted sessionId w.
Proof.
  unfold Orchestrator.analyzeSingleSource, Orchestrator.analyzeSingleSource_task.
  simpl settle.
  destruct (LLMService.analyzeWebContent E (src_content source) query w)
    as [[analysis | e |] w1] eqn:Hanalysis.
  - rewrite (try_catch_bind_ok _ _ _ _ _ _ Hanalysis).
    destruct (Orchestrator.embedding_wanted wanted analysis).
    + unfold Orchestrator.embedding_task. simpl settle.
      destruct (getCachedEmbedding E
                  (md5_hex E (Orchestrator.contentForEmbedding source)) w1)
        as [[cached | e |] w2] eqn:Hlookup.
      * destruct (cached ≫= cr_embedding) as [embedding |] eqn:Hcached.
        -- assert (Hres : Orchestrator.resolveEmbedding E source w1
                          = (Ok (Some embedding), w2)).
           { unfold Orchestrator.resolveEmbedding, bind.
             rewrite Hlookup, Hcached. reflexivity. }
           rewrite (try_catch_bind_ok _ _ _ _ _ _ Hres). apply save_task_alone.
        -- simpl settle.
           destruct (LLMService.generateEmbedding E
                       (Orchestrator.contentForEmbedding source) w2)
             as [[[embedding model] | e |] w3] eqn:Hembed.
           ++ simpl fst. simpl snd.
              destruct (cacheEmbedding E
                          (md5_hex E (Orchestrator.contentForEmbedding source))
                          (JS.substring0 500 (Orchestrator.contentForEmbedding source))
                          embedding model w3) as [[[] | e |] w4] eqn:Hcache.
              ** assert (Hres : Orchestrator.resolveEmbedding E source w1
                                = (Ok (Some embedding), w4)).
                 { unfold Orchestrator.resolveEmbedding, bind at 1.
                   rewrite Hlookup, Hcached.
                   unfold bind at 1. unfold try_catch at 1. unfold bind at 1.
                   rewrite Hembed. unfold ret at 1. cbv beta iota.
                   unfold bind, try_catch. rewrite Hcache. reflexivity. }
                 rewrite (try_catch_bind_ok _ _ _ _ _ _ Hres). apply save_task_alone.
              ** assert (Hres : Orchestrator.resolveEmbedding E source w1
                                = (Ok (Some embedding), w4)).
                 { unfold Orchestrator.resolveEmbedding, bind at 1.
                   rewrite Hlookup, Hcached.
                   unfold bind at 1. unfold try_catch at 1. unfold bind at 1.
                   rewrite Hembed. unfold ret at 1. cbv beta iota.
                   unfold bind, try_catch. rewrite Hcache. reflexivity. }
                 rewrite (try_catch_bind_ok _ _ _ _ _ _ Hres). apply save_task_alone.
              ** unfold try_catch at 1. unfold bind at 1.
                 unfold Orchestrator.resolveEmbedding, bind at 1.
                 rewrite Hlookup, Hcached.
                 unfold bind at 1. unfold try_catch at 1. unfold bind at 1.
                 rewrite Hembed. unfold ret at 1. cbv beta iota.
                 unfold bind, try_catch. rewrite Hcache. reflexivity.
           ++ assert (Hres : Orchestrator.resolveEmbedding E source w1 = (Ok None, w3)).
              { unfold Orchestrator.resolveEmbedding, bind at 1.
                rewrite Hlookup, Hcached.
                unfold bind at 1. unfold try_catch at 1. unfold bind at 1.
                rewrite Hembed. reflexivity. }
              rewrite (try_catch_bind_ok _ _ _ _ _ _ Hres). apply save_task_alone.
           ++ unfold try_catch at 1. unfold bind at 1.
              unfold Orchestrator.resolveEmbedding, bind at 1.
              rewrite Hlookup, Hcached.
              unfold bind at 1. unfold try_catch at 1. unfold bind at 1.
              rewrite Hembed. reflexivity.
      * assert (Hres : Orchestrator.resolveEmbedding E source w1 = (Throw e, w2)).
        { unfold Orchestrator.resolveEmbedding, bind. rewrite Hlookup. reflexivity. }
        rewrite (try_catch_bind_throw _ _ _ _ _ _ Hres). reflexivity.
      * unfold try_catch, bind, Orchestrator.resolveEmbedding, bind.
        rewrite Hlookup. reflexivity.
    + rewrite save_task_alone. reflexivity.
  - rewrite (try_catch_bind_throw _ _ _ _ _ _ Hanalysis). reflexivity.
  - unfold try_catch, bind. rewrite Hanalysis. reflexivity.
Qed.


End Analyzer.


(** ** The table of sessions during a run *)

Create HintDb keeps.

Lemma keeps_ret {A} (a : A) : keeps_sessions (ret a).
Proof. intros w. reflexivity. Qed.

Lemma keeps_throw {A} (message : string) : keeps_sessions (@throw A message).
Proof. intros w. reflexivity. Qed.

Lemma keeps_sleep (ms : Z) : keeps_sessions (sleep ms).
Proof. intros w. reflexivity. Qed.

Lemma keeps_hang {A} : keeps_sessions (fun w => (@Hang A, w)).
Proof. intros w. reflexivity. Qed.

Lemma keeps_bind {A B} (m : M A) (k : A -> M B) :
  keeps_sessions m -> (forall a, keeps_sessions (k a)) -> keeps_sessions (bind m k).
Proof.
  intros Hm Hk w. unfold bind. specialize (Hm w).
  destruct (m w) as [[a | message |] w1]; simpl in *; try exact Hm.
  rewrite (Hk a w1). exact Hm.
Qed.

Lemma keeps_try_catch {A} (m : M A) (h : string -> M A) :
  keeps_sessions m -> (forall e, keeps_sessions (h e)) -> keeps_sessions (try_catch m h).
Proof.
  intros Hm Hh w. unfold try_catch. specialize (Hm w).
  destruct (m w) as [[a | message |] w1]; simpl in *; try exact Hm.
  rewrite (Hh message w1). exact Hm.
Qed.

#[local] Hint Resolve keeps_ret keeps_throw keeps_sleep keeps_hang : keeps.
#[local] Hint Extern 2 (keeps_sessions (bind _ _)) =>
  apply keeps_bind; [| intros ?] : keeps.
#[local] Hint Extern 2 (keeps_sessions (try_catch _ _)) =>
  apply keeps_try_catch; [| intros ?] : keeps.

Section KeepsSessions.

Variable E : Env.

Lemma keeps_clock : keeps_sessions (clock E).
Proof. intros w. reflexivity. Qed.

Lemma keeps_generateResponse (task : LLMTask) (text : string) :
  keeps_sessions (LLMService.generateResponse E task text).
Proof.
  intros w. unfold LLMService.generateResponse.
  destruct (llm_generate E (trace w) task text); reflexivity.
Qed.

Lemma keeps_generateEmbedding (text : string) :
  keeps_sessions (LLMService.generateEmbedding E text).
Proof.
  intros w. unfold LLMService.generateEmbedding.
  destruct (llm_embed E (trace w) text); reflexivity.
Qed.

Lemma keeps_store_call {A} (op : StoreOp) (swallow : option A)
      (run : Store -> A * Store) :
  (forall s, search_sessions (snd (run s)) = search_sessions s) ->
  keeps_sessions (store_call E op swallow run).
Proof.
  intros Hrun w. unfold store_call.
  destruct (store_fault E (trace w)); simpl.
  - specialize (Hrun (store w)). destruct (run (store w)). exact Hrun.
  - reflexivity.
  - destruct swallow; reflexivity.
Qed.

Lemma keeps_saveWebSource id source summary embedding :
  keeps_sessions (saveWebSource E id source summary embedding).
Proof. apply keeps_store_call. reflexivity. Qed.

Lemma keeps_getCachedEmbedding contentHash :
  keeps_sessions (getCachedEmbedding E contentHash).
Proof. apply keeps_store_call. reflexivity. Qed.

Lemma keeps_cacheEmbedding contentHash preview embedding model :
  keeps_sessions (cacheEmbedding E contentHash preview embedding model).
Proof. apply keeps_store_call. reflexivity. Qed.

Hint Resolve keeps_clock keeps_generateResponse keeps_generateEmbedding
     keeps_saveWebSource keeps_getCachedEmbedding keeps_cacheEmbedding : keeps.

Lemma keeps_analyzeWebContent content query :
  keeps_sessions (LLMService.analyzeWebContent E content query).
Proof.
  unfold LLMService.analyzeWebContent.
  apply keeps_try_catch; [| auto with keeps].
  apply keeps_bind; [auto with keeps | intros response].
  destruct (LLMService.match_braces response) as [jsonMatch |]; auto with keeps.
  destruct (JSON_parse_analysis E jsonMatch); auto with keeps.
Qed.

Lemma keeps_resolveEmbedding source :
  keeps_sessions (Orchestrator.resolveEmbedding E source).
Proof.
  unfold Orchestrator.resolveEmbedding.
  apply keeps_bind; [auto with keeps | intros cached].
  destruct (cached ≫= cr_embedding); [auto with keeps |].
  apply keeps_bind; [auto with keeps | intros generated].
  destruct generated as [[embedding model] |]; auto with keeps.
Qed.

Hint Resolve keeps_analyzeWebContent keeps_resolveEmbedding : keeps.

Lemma keeps_analyzeSingleSource query source wanted sessionId :
  keeps_sessions (Orchestrator.analyzeSingleSource E query source wanted sessionId).
Proof.
  unfold Orchestrator.analyzeSingleSource.
  apply keeps_try_catch; [| auto with keeps].
  apply keeps_bind; [auto with keeps | intros analysis].
  apply keeps_bind; [| intros embedding].
  - destruct (Orchestrator.embedding_wanted wanted analysis); auto with keeps.
  - apply keeps_bind; [| auto with keeps].
    destruct sessionId; auto with keeps.
Qed.

Hint Resolve keeps_analyzeSingleSource : keeps.

Lemma keeps_analyzeSingleSource_task query source wanted sessionId :
  task_stays (fun s s' => search_sessions s' = search_sessions s)
             (Orchestrator.analyzeSingleSource_task E query source wanted sessionId).
Proof.
  apply analyzeSingleSource_task_stays; try congruence.
  - intros content. apply keeps_analyzeWebContent.
  - intros _. split; [| split]; intros.
    + apply keeps_getCachedEmbedding.
    + apply keeps_generateEmbedding.
    + apply keeps_cacheEmbedding.
  - intros id summary embedding _. apply keeps_saveWebSource.
Qed.

Lemma keeps_analyze_batch query batch wanted sessionId :
  keeps_sessions (Orchestrator.analyze_batch E query batch wanted sessionId).
Proof.
  unfold Orchestrator.analyze_batch.
  apply (promise_all_stays (fun s s' => search_sessions s' = search_sessions s));
    try congruence.
  apply Forall_map, Forall_forall. intros source _.
  apply keeps_analyzeSingleSource_task.
Qed.

Hint Resolve keeps_analyze_batch : keeps.

(** Two sources with the same text in one batch: when the members take
    their turns one after the other, both look the vector up before
    either has stored it, and the model is called twice; when the first
    member is seen through before the second has its turn, the second
    finds the vector of the first. *)
Example equal_sources_both_miss :
  embedded_texts
    (events_of (Orchestrator.analyze_batch alternatingEnv "rocq"
                  [sample_source; sample_source] true None) initial_world)
  = [Orchestrator.contentForEmbedding sample_source;
     Orchestrator.contentForEmbedding sample_source]
  /\ embedded_texts
       (events_of (Orchestrator.analyze_batch embeddingEnv "rocq"
                     [sample_source; sample_source] true None) initial_world)
     = [Orchestrator.contentForEmbedding sample_source].
Proof. split; vm_compute; reflexivity. Qed.

Lemma keeps_analyze_batches query batches wanted sessionId analyses :
  keeps_sessions (Orchestrator.analyze_batches E query batches wanted sessionId analyses).
Proof.
  revert analyses. induction batches as [| batch rest IH]; intros analyses; simpl;
    auto with keeps.
Qed.

Hint Resolve keeps_analyze_batches : keeps.

Lemma keeps_analyzeContent query webResults wanted sessionId :
  keeps_sessions (Orchestrator.analyzeContent E query webResults wanted sessionId).
Proof.
  unfold Orchestrator.analyzeContent. apply keeps_try_catch; [| auto with keeps].
  destruct (chunkArray _ _); auto with keeps.
Qed.

End KeepsSessions.

(** ** The run and its session *)

Section Run.

Variable E : Env.

Lemma openSession_row (query : string) (options : DeepSearchOptions)
      (w w1 : World) (session : SessionRow) :
  Orchestrator.openSession E query options w = (Ok (Some session), w1) ->
  search_sessions (store w1) !! ss_id session = Some session
  /\ ss_status session = Pending.
Proof.
  unfold Orchestrator.openSession.
  destruct (default true (saveToDatabase options)); [| discriminate].
  unfold bind, clock, createSearchSession, store_call, ret.
  destruct (store_fault E (trace w)); try discriminate.
  intros Heq. injection Heq as <- <-. simpl.
  split; [| reflexivity].
  rewrite lookup_app_r by lia. by rewrite Nat.sub_diag.
Qed.

Lemma generateReport_failure (query : string) (analysis : ContentAnalysis)
      (sessionId : option nat) (w : World) (message : string) :
  llm_generate E (trace w) SynthesizeReport query = inl message ->
  Orchestrator.generateReport E query analysis sessionId w
  = (Throw ("Erro ao gerar relatório: Erro ao gerar resposta: " +:+ message),
     emit (EvGenerate SynthesizeReport query) w).
Proof.
  intros Hllm.
  unfold Orchestrator.generateReport, try_catch, bind,
    LLMService.generateFinalReport, try_catch, LLMService.generateResponse.
  rewrite Hllm. reflexivity.
Qed.

Lemma on_error_marks (session : SessionRow) (row : SessionRow) (message : string)
      (w : World) :
  search_sessions (store w) !! ss_id session = Some row ->
  store_fault E (trace w) = NoFault ->
  exists w',
    Orchestrator.on_error E (Some session) message w = (Throw message, w')
    /\ search_sessions (store w') !! ss_id session
       = Some {| ss_id := ss_id row;
                 ss_query := ss_query row;
                 ss_status := Failed;
                 ss_metadata :=
                   <["errorTime" := MText (now E (trace w))]>
                     (<["error" := MText message]> (ss_metadata session)) |}.
Proof.
  intros Hrow Hfault.
  unfold Orchestrator.on_error, bind, clock, updateSearchSession, store_call, throw, ret.
  rewrite Hfault, Hrow. simpl. eexists. split; [reflexivity |]. simpl.
  apply list_lookup_insert_eq. eapply lookup_lt_Some, Hrow.
Qed.

Lemma searchFromTerms_run (value : TermsValue) (maxResults : option Z)
      (advanced : option bool) (w : World) (web : WebResults) (w' : World) :
  Orchestrator.searchFromTerms E value maxResults advanced w = (Ok web, w') ->
  exists events, w' = extend events w.
Proof.
  destruct value as [| | terms | text | first]; simpl; try discriminate.
  - intros Hrun.
    destruct (performWebSearch_run E _ _ _ _ _ _ Hrun) as (events & -> & _).
    exists events. reflexivity.
  - unfold bind.
    destruct (Orchestrator.performWebSearch E (Orchestrator.characters text)
                                            maxResults advanced w)
      as [[results | message |] w1] eqn:Hrun; try discriminate.
    intros Heq. injection Heq as _ <-.
    destruct (performWebSearch_run E _ _ _ _ _ _ Hrun) as (events & -> & _).
    exists events. reflexivity.
  - unfold Orchestrator.performWebSearch_unlisted, try_catch.
    destruct (default true advanced); [| discriminate].
    unfold bind.
    destruct (searchWithDorks E first _ w) as [[hits | message |] w1]; discriminate.
Qed.

(** C4 — in a session-backed run whose report-synthesis call fails,
    [performDeepSearch] raises to its caller and returns no result.  When
    the store accepts the update of the session, the error raised is the
    failure of the report and the session is stored with status 'error'
    and with the failure message under [metadata.error]; when the store
    refuses that update, the error raised is the store's and the session
    keeps the row and the status it had. *)
Theorem report_failure_marks_session
        (query : string) (options : DeepSearchOptions)
        (w w1 w2 w3 w4 : World) (session : SessionRow)
        (data : SearchTermsData)
        (web : WebResults) (analysis : ContentAnalysis) (message : string) :
  let limit := default (cfg_maxResults E) (maxSources options) in
  let advanced := default true (useAdvancedSearch options) in
  let wanted := default true (generateEmbeddings options) in
  let failure := "Erro ao gerar relatório: Erro ao gerar resposta: " +:+ message in
  let w5 := emit (EvGenerate SynthesizeReport query) w4 in
  Orchestrator.openSession E query options w = (Ok (Some session), w1) ->
  Orchestrator.generateSearchTerms E query w1 = (Ok data, w2) ->
  Orchestrator.searchFromTerms E (search_terms data) (Some limit) (Some advanced) w2
  = (Ok web, w3) ->
  Orchestrator.analyzeContent E query web (Some wanted) (Some (ss_id session)) w3
  = (Ok analysis, w4) ->
  llm_generate E (trace w4) SynthesizeReport query = inl message ->
  (store_fault E (trace w5) = NoFault ->
   exists w' row,
     Orchestrator.performDeepSearch E query options w = (Throw failure, w')
     /\ search_sessions (store w') !! ss_id session = Some row
     /\ ss_status row = Failed
     /\ ss_metadata row !! "error" = Some (MText failure))
  /\ (forall refusal,
         fault_message (store_fault E (trace w5)) = Some refusal ->
         exists w',
           Orchestrator.performDeepSearch E query options w = (Throw refusal, w')
           /\ search_sessions (store w') !! ss_id session = Some session
           /\ ss_status session = Pending).
Proof.
  intros limit advanced wanted failure w5 Hopen Hterms Hweb Hanalysis Hllm.
  destruct (openSession_row _ _ _ _ _ Hopen) as [Hrow Hpending].
  assert (Hrow5 : search_sessions (store w5) !! ss_id session = Some session).
  { simpl.
    pose proof (keeps_analyzeContent E query web (Some wanted) (Some (ss_id session)) w3)
      as Hkeep.
    rewrite Hanalysis in Hkeep. simpl in Hkeep. rewrite Hkeep.
    destruct (searchFromTerms_run _ _ _ _ _ _ Hweb) as (events & ->).
    simpl.
    rewrite generateSearchTerms_run, llm_generateSearchTerms_run in Hterms.
    injection Hterms as _ <-. exact Hrow. }
  assert (Hrun : Orchestrator.run E query options (Some session) w1
                 = (Throw failure, w5)).
  { unfold Orchestrator.run. unfold bind at 1. rewrite Hterms.
    fold limit advanced wanted.
    unfold bind at 1. rewrite Hweb.
    unfold bind at 1. simpl fmap. rewrite Hanalysis.
    unfold bind at 1.
    rewrite (generateReport_failure query analysis (Some (ss_id session)) w4 message Hllm).
    reflexivity. }
  assert (Hcaught : Orchestrator.performDeepSearch E query options w
                    = Orchestrator.on_error E (Some session) failure w5).
  { unfold Orchestrator.performDeepSearch. unfold bind. rewrite Hopen.
    unfold try_catch. rewrite Hrun. reflexivity. }
  rewrite Hcaught. split.
  - intros Hfault.
    destruct (on_error_marks session session failure w5 Hrow5 Hfault)
      as (w' & Herror & Hmarked).
    exists w'. eexists. split; [exact Herror |].
    split; [exact Hmarked |]. split; [reflexivity |].
    simpl. rewrite lookup_insert_ne by discriminate. apply lookup_insert_eq.
  - intros refusal Hfault.
    unfold Orchestrator.on_error, bind, clock, updateSearchSession, store_call.
    destruct (store_fault E (trace w5)) as [| m | m]; simpl in Hfault;
      [discriminate | |]; injection Hfault as ->;
      (eexists; split; [reflexivity |]; split; [exact Hrow5 | exact Hpending]).
Qed.

End Run.

Lemma report_failure_marks_session_witness :
  exists w' row,
    Orchestrator.performDeepSearch sampleEnv "rocq" plain_options initial_world
    = (Throw "Erro ao gerar relatório: Erro ao gerar resposta: connect ECONNREFUSED", w')
    /\ search_sessions (store w') !! 0%nat = Some row
    /\ ss_status row = Failed
    /\ ss_metadata row !! "error"
       = Some (MText "Erro ao gerar relatório: Erro ao gerar resposta: connect ECONNREFUSED").
Proof.
  pose (r1 := Orchestrator.openSession sampleEnv "rocq" plain_options initial_world).
  pose (s := {| ss_id := 0; ss_query := "rocq"; ss_status := Pending;
                ss_metadata :=
                  Orchestrator.opening_metadata plain_options
                    "2025-09-20T10:11:12.000Z" |}).
  pose (r2 := Orchestrator.generateSearchTerms sampleEnv "rocq" (snd r1)).
  pose (r3 := Orchestrator.performWebSearch sampleEnv ["rocq"] (Some 10) (Some true)
                                             (snd r2)).
  pose (web := {| wr_searchTerms := TermsArray ["rocq"]; wr_sources := [];
                  wr_stats := getSearchStats [] |}).
  pose (r4 := Orchestrator.analyzeContent sampleEnv "rocq" web (Some true) (Some 0%nat)
                                           (snd r3)).
  pose (analysis :=
          {| individualAnalyses := [];
             consolidatedAnalysis := Orchestrator.consolidateAnalyses "rocq" [];
             ca_totalSources := 0;
             successfulAnalyses := 0 |}).
  apply (report_failure_marks_session sampleEnv "rocq" plain_options
           initial_world (snd r1) (snd r2) (snd r3) (snd r4) s
           (LLMService.simple_fallback "rocq") web analysis
           "connect ECONNREFUSED");
    reflexivity.
Defined.

(** On the installation whose database is reachable for the first call
    only, the run fails at the report, the update of the session is
    refused, the session stays 'pending' and the error raised is the
    store's. *)
Lemma refused_update_counterexample :
  ~ report_failure_as_stated flakyEnv "rocq" plain_options initial_world.
Proof.
  intros Hclaim.
  pose (r1 := Orchestrator.openSession flakyEnv "rocq" plain_options initial_world).
  pose (s := {| ss_id := 0; ss_query := "rocq"; ss_status := Pending;
                ss_metadata :=
                  Orchestrator.opening_metadata plain_options
                    "2025-09-20T10:11:12.000Z" |}).
  pose (r2 := Orchestrator.generateSearchTerms flakyEnv "rocq" (snd r1)).
  pose (r3 := Orchestrator.performWebSearch flakyEnv ["rocq"] (Some 10) (Some true)
                                             (snd r2)).
  pose (web := {| wr_searchTerms := TermsArray ["rocq"]; wr_sources := [];
                  wr_stats := getSearchStats [] |}).
  pose (r4 := Orchestrator.analyzeContent flakyEnv "rocq" web (Some true) (Some 0%nat)
                                           (snd r3)).
  pose (analysis :=
          {| individualAnalyses := [];
             consolidatedAnalysis := Orchestrator.consolidateAnalyses "rocq" [];
             ca_totalSources := 0;
             successfulAnalyses := 0 |}).
  destruct (Hclaim (snd r1) (snd r2) (snd r3) (snd r4) s
                   (LLMService.simple_fallback "rocq") web analysis
                   "connect ECONNREFUSED")
    as (w' & row & Hrun & _); try reflexivity.
  vm_compute in Hrun. discriminate Hrun.
Qed.

(** ** The consolidator's ranking *)

Section FirstSeen.

Lemma first_seen_snoc (l : list string) (x : string) :
  first_seen (l ++ [x])
  = if decide (x ∈ first_seen l) then first_seen l else first_seen l ++ [x].
Proof. unfold first_seen. rewrite fold_left_app. reflexivity. Qed.

Lemma elem_of_first_seen (l : list string) (x : string) :
  x ∈ first_seen l <-> x ∈ l.
Proof.
  induction l as [| y l IH] using rev_ind.
  - reflexivity.
  - rewrite first_seen_snoc. destruct (decide (y ∈ first_seen l)) as [Hin | Hnot].
    + rewrite elem_of_app, list_elem_of_singleton, IH.
      split; [tauto |]. intros [Hl | ->]; [exact Hl | apply IH, Hin].
    + rewrite !elem_of_app, IH. reflexivity.
Qed.

Lemma NoDup_first_seen (l : list string) : NoDup (first_seen l).
Proof.
  induction l as [| y l IH] using rev_ind.
  - apply NoDup_nil_2.
  - rewrite first_seen_snoc. destruct (decide (y ∈ first_seen l)) as [Hin | Hnot].
    + exact IH.
    + apply NoDup_app. split; [exact IH |]. split; [| apply NoDup_singleton].
      intros z Hz Hz'. apply list_elem_of_singleton in Hz'. subst z. contradiction.
Qed.

Lemma occurrences_snoc (l : list string) (x y : string) :
  occurrences y (l ++ [x])
  = (occurrences y l + if decide (x = y) then 1 else 0)%nat.
Proof.
  unfold occurrences. rewrite filter_app, length_app. f_equal.
  rewrite filter_cons. destruct (decide (x = y)); reflexivity.
Qed.

Lemma occurrences_pos (l : list string) (x : string) :
  x ∈ l -> (0 < occurrences x l)%nat.
Proof.
  intros Hin. unfold occurrences.
  assert (Hx : x ∈ filter (fun y => y = x) l).
  { apply list_elem_of_filter. split; [reflexivity | exact Hin]. }
  destruct (filter (fun y => y = x) l); [inversion Hx | simpl; lia].
Qed.

End FirstSeen.

Section CounterObject.

Lemma own_map_key (f : string -> Counter.Count) (keys : list string) (x : string) :
  Counter.own (map (fun y => (y, f y)) keys) x
  = if decide (x ∈ keys) then Some (f x) else None.
Proof.
  induction keys as [| k keys IH]; simpl.
  - destruct (decide (x ∈ [])) as [Hin | _]; [inversion Hin | reflexivity].
  - destruct (decide (k = x)) as [-> | Hne].
    + destruct (decide (x ∈ x :: keys)) as [_ | Hnot]; [reflexivity |].
      exfalso. apply Hnot. left.
    + rewrite IH. destruct (decide (x ∈ keys)) as [Hin | Hnot].
      * destruct (decide (x ∈ k :: keys)) as [_ | Hnot]; [reflexivity |].
        exfalso. apply Hnot. right. exact Hin.
      * destruct (decide (x ∈ k :: keys)) as [Hin | _]; [| reflexivity].
        apply elem_of_cons in Hin as [-> | Hin]; contradiction.
Qed.

Lemma set_own_map_key (f g : string -> Counter.Count) (keys : list string)
      (x : string) :
  NoDup keys ->
  (forall y, y <> x -> g y = f y) ->
  Counter.set_own (map (fun y => (y, f y)) keys) x (g x)
  = map (fun y => (y, g y)) keys.
Proof.
  intros Hnodup Hg. induction keys as [| k keys IH]; [reflexivity |].
  apply NoDup_cons in Hnodup as [Hnotin Hnodup]. simpl.
  destruct (decide (k = x)) as [-> | Hne].
  - f_equal. apply map_ext_in. intros y Hy. f_equal. symmetry. apply Hg.
    intros ->. apply Hnotin, list_elem_of_In, Hy.
  - rewrite (Hg k Hne). f_equal. apply IH, Hnodup.
Qed.

(** On plain items the object counts as a map in insertion order
    would. *)
Lemma count_all_plain (items : list string) :
  Forall plain_item items -> Counter.count_all items = tally items.
Proof.
  induction items as [| x items IH] using rev_ind; intros Hplain; [reflexivity |].
  apply Forall_app in Hplain as [Hitems Hx].
  apply Forall_singleton in Hx as [_ Hinherited].
  unfold Counter.count_all in *. rewrite fold_left_app. simpl.
  rewrite (IH Hitems). unfold tally, Counter.bump.
  rewrite (own_map_key (fun y => Counter.Times (occurrences y items))).
  rewrite first_seen_snoc.
  destruct (decide (x ∈ first_seen items)) as [Hin | Hnot].
  - rewrite <- (set_own_map_key
                  (fun y => Counter.Times (occurrences y items))
                  (fun y => Counter.Times (occurrences y (items ++ [x])))
                  (first_seen items) x (NoDup_first_seen items)).
    + f_equal. rewrite occurrences_snoc. destruct (decide (x = x)); [| contradiction].
      f_equal. lia.
    + intros y Hy. rewrite occurrences_snoc.
      destruct (decide (x = y)); [congruence |]. f_equal. lia.
  - rewrite Hinherited, map_app. simpl. f_equal.
    + apply map_ext_in. intros y Hy. rewrite occurrences_snoc.
      destruct (decide (x = y)) as [-> | _]; [| f_equal; f_equal; lia].
      exfalso. apply Hnot, list_elem_of_In, Hy.
    + rewrite occurrences_snoc. destruct (decide (x = x)); [| contradiction].
      assert (Hzero : occurrences x items = O).
      { destruct (occurrences x items) eqn:Hocc; [reflexivity |].
        exfalso. apply Hnot, elem_of_first_seen.
        unfold occurrences in Hocc.
        destruct (filter (fun y => y = x) items) as [| z rest] eqn:Hf; [discriminate |].
        assert (Hz : z ∈ filter (fun y => y = x) items) by (rewrite Hf; left).
        apply list_elem_of_filter in Hz as [-> Hz]. exact Hz. }
      rewrite Hzero. reflexivity.
Qed.

(** With no array index among the keys, the entries come in creation
    order. *)
Lemma entries_plain (o : Counter.t) :
  Forall (fun kv => Counter.array_index (fst kv) = None) o -> Counter.entries o = o.
Proof.
  intros Hplain. unfold Counter.entries.
  assert (Hindex : Counter.index_entries o = []).
  { unfold Counter.index_entries. induction Hplain as [| kv o Hkv _ IH]; [reflexivity |].
    simpl. rewrite Hkv. simpl. exact IH. }
  rewrite Hindex. clear Hindex.
  change (map snd (foldr Counter.insert_index [] [])) with (@nil (string * Counter.Count)).
  rewrite app_nil_l.
  induction Hplain as [| kv o Hkv _ IH]; [reflexivity |].
  rewrite filter_cons_True by exact Hkv.
  f_equal. exact IH.
Qed.

End CounterObject.

Section Pairwise.

Context {A : Type} (R : A -> A -> Prop).

Lemma pairwise_impl (R' : A -> A -> Prop) (l : list A) :
  (forall a b, R a b -> R' a b) -> pairwise R l -> pairwise R' l.
Proof.
  intros Himpl. induction l as [| a l IH]; simpl; [auto |].
  intros [Hhead Htail]. split; [| apply IH, Htail].
  eapply Forall_impl; [exact Hhead |]. apply Himpl.
Qed.

Lemma pairwise_app (l1 l2 : list A) :
  pairwise R (l1 ++ l2) ->
  pairwise R l1 /\ pairwise R l2 /\ forall a b, a ∈ l1 -> b ∈ l2 -> R a b.
Proof.
  induction l1 as [| x l1 IH]; simpl.
  - intros H. repeat split; [exact H |]. intros a b Ha. inversion Ha.
  - intros [Hhead Htail]. destruct (IH Htail) as (H1 & H2 & Hcross).
    apply Forall_app in Hhead as [Hx1 Hx2].
    repeat split; try assumption.
    intros a b Ha Hb. apply elem_of_cons in Ha as [-> | Ha].
    + rewrite Forall_forall in Hx2. apply Hx2, Hb.
    + apply Hcross; assumption.
Qed.

Lemma pairwise_take (n : nat) (l : list A) : pairwise R l -> pairwise R (take n l).
Proof.
  intros H. rewrite <- (take_drop n l) in H. apply pairwise_app in H. tauto.
Qed.

Lemma pairwise_lookup (l : list A) (i j : nat) (a b : A) :
  pairwise R l -> (i < j)%nat -> l !! i = Some a -> l !! j = Some b -> R a b.
Proof.
  revert i j. induction l as [| x l IH]; intros i j Hpw Hlt Hi Hj; [discriminate |].
  destruct Hpw as [Hhead Htail]. destruct j as [| j]; [lia |].
  destruct i as [| i]; simpl in Hi, Hj.
  - injection Hi as <-. rewrite Forall_forall in Hhead.
    apply Hhead. eapply list_elem_of_lookup_2, Hj.
  - apply (IH i j Htail); [lia | assumption | assumption].
Qed.

End Pairwise.

Section StableSort.

Lemma before_cons_head {A} (l : list A) (a b : A) : b ∈ l -> before (a :: l) a b.
Proof.
  intros Hb. apply list_elem_of_lookup in Hb as [j Hj].
  exists O, (S j). repeat split; [lia | exact Hj].
Qed.

Lemma before_cons {A} (l : list A) (x a b : A) : before l a b -> before (x :: l) a b.
Proof.
  intros (i & j & Hlt & Hi & Hj). exists (S i), (S j). repeat split; [lia | | ]; assumption.
Qed.

Lemma above_cons (l : Counter.t) (x a b : string * Counter.Count) :
  above l a b -> above (x :: l) a b.
Proof.
  intros [Hlt | [Heq Hbefore]]; [left; exact Hlt | right].
  split; [exact Heq | apply before_cons, Hbefore].
Qed.

Lemma above_times (l : Counter.t) (a b : string * Counter.Count) :
  above l a b -> (times b <= times a)%nat.
Proof. intros [Hlt | [Heq _]]; lia. Qed.

Lemma strictly_before_numeric (y x : string * Counter.Count) :
  numeric y -> numeric x ->
  Counter.strictly_before y x = true <-> (times x < times y)%nat.
Proof.
  intros [n Hy] [m Hx]. unfold Counter.strictly_before, Counter.compare_desc, times.
  rewrite Hy, Hx. rewrite Z.ltb_lt. lia.
Qed.

Lemma insert_stable_perm (x : string * Counter.Count) (s : Counter.t) :
  Counter.insert_stable x s ≡ₚ x :: s.
Proof.
  induction s as [| y ys IH]; simpl; [reflexivity |].
  destruct (Counter.strictly_before y x); [| reflexivity].
  rewrite IH. apply Permutation_swap.
Qed.

Lemma sort_desc_perm (l : Counter.t) : Counter.sort_desc l ≡ₚ l.
Proof.
  induction l as [| x l IH]; simpl; [reflexivity |].
  unfold Counter.sort_desc in *. simpl. rewrite insert_stable_perm, IH. reflexivity.
Qed.

Lemma insert_stable_pairwise (x : string * Counter.Count) (l0 s : Counter.t) :
  numeric x ->
  Forall numeric s ->
  (forall b, b ∈ s -> b ∈ l0) ->
  pairwise (above (x :: l0)) s ->
  pairwise (above (x :: l0)) (Counter.insert_stable x s).
Proof.
  intros Hx. 
  assert (Hfirst : forall b, b ∈ l0 -> (times b <= times x)%nat -> above (x :: l0) x b).
  { intros b Hb Hle. destruct (decide (times b = times x)) as [Heq | Hne].
    - right. split; [lia | apply before_cons_head, Hb].
    - left. lia. }
  induction s as [| y ys IH]; intros Hnum Hin Hpw.
  - simpl. split; [constructor | exact I].
  - apply Forall_cons in Hnum as [Hy Hnum]. destruct Hpw as [Hhead Htail]. simpl.
    destruct (Counter.strictly_before y x) eqn:Hcmp.
    + apply strictly_before_numeric in Hcmp; [| assumption | assumption].
      split.
      * rewrite insert_stable_perm. constructor; [left; exact Hcmp | exact Hhead].
      * apply IH; [exact Hnum | | exact Htail].
        intros b Hb. apply Hin. right. exact Hb.
    + assert (Hle : (times y <= times x)%nat).
      { destruct (decide (times x < times y)%nat) as [Hlt | Hge]; [| lia].
        apply strictly_before_numeric in Hlt; [congruence | assumption | assumption]. }
      split; [| split; assumption].
      constructor.
      * apply Hfirst; [apply Hin; left | exact Hle].
      * rewrite Forall_forall in Hhead |- *. intros b Hb.
        apply Hfirst; [apply Hin; right; exact Hb |].
        pose proof (above_times _ _ _ (Hhead b Hb)). lia.
Qed.

(** The sort puts every entry before the entries with a smaller count
    and before those with the same count that came after it. *)
Lemma sort_desc_pairwise (l : Counter.t) :
  Forall numeric l -> pairwise (above l) (Counter.sort_desc l).
Proof.
  induction l as [| x l IH]; intros Hnum; [exact I |].
  apply Forall_cons in Hnum as [Hx Hnum].
  change (Counter.sort_desc (x :: l))
    with (Counter.insert_stable x (Counter.sort_desc l)).
  apply insert_stable_pairwise.
  - exact Hx.
  - rewrite sort_desc_perm. exact Hnum.
  - intros b Hb. rewrite sort_desc_perm in Hb. exact Hb.
  - eapply pairwise_impl; [| apply IH, Hnum]. intros a b. apply above_cons.
Qed.

End StableSort.

Section Ranking.

Lemma map_fmap {A B} (f : A -> B) (l : list A) : map f l = f <$> l.
Proof. reflexivity. Qed.

Lemma tally_lookup (items : list string) (i : nat) (a : string * Counter.Count) :
  tally items !! i = Some a ->
  first_seen items !! i = Some (fst a)
  /\ snd a = Counter.Times (occurrences (fst a) items).
Proof.
  unfold tally. rewrite map_fmap, list_lookup_fmap.
  destruct (first_seen items !! i) as [x |]; simpl; [| discriminate].
  intros Heq. injection Heq as <-. auto.
Qed.

Lemma tally_elem (items : list string) (a : string * Counter.Count) :
  a ∈ tally items ->
  fst a ∈ items /\ snd a = Counter.Times (occurrences (fst a) items)
  /\ times a = occurrences (fst a) items.
Proof.
  intros Ha. apply list_elem_of_lookup in Ha as [i Hi].
  apply tally_lookup in Hi as [Hseen Hcount].
  split; [| split; [exact Hcount | unfold times; by rewrite Hcount]].
  apply elem_of_first_seen. eapply list_elem_of_lookup_2, Hseen.
Qed.

Lemma tally_numeric (items : list string) : Forall numeric (tally items).
Proof.
  apply Forall_forall. intros a Ha. apply tally_elem in Ha as (_ & Hcount & _).
  eexists. exact Hcount.
Qed.

Lemma tally_keys (items : list string) : map fst (tally items) = first_seen items.
Proof.
  unfold tally. rewrite map_map. simpl. apply map_id.
Qed.

Lemma above_tally (items : list string) (a b : string * Counter.Count) :
  a ∈ tally items -> b ∈ tally items ->
  above (tally items) a b -> ranks_above items (fst a) (fst b).
Proof.
  intros Ha Hb Habove.
  apply tally_elem in Ha as (_ & _ & Hta). apply tally_elem in Hb as (_ & _ & Htb).
  unfold ranks_above. rewrite <- Hta, <- Htb.
  destruct Habove as [Hlt | [Heq (i & j & Hij & Hi & Hj)]]; [left; exact Hlt | right].
  split; [exact Heq |]. exists i, j.
  apply tally_lookup in Hi as [Hi _]. apply tally_lookup in Hj as [Hj _]. auto.
Qed.

Lemma getTopItems_plain (items : list string) :
  Forall plain_item items ->
  Orchestrator.getTopItems items 10
  = take 10 (Counter.sort_desc (tally items)).
Proof.
  intros Hplain. unfold Orchestrator.getTopItems.
  rewrite (count_all_plain items Hplain), entries_plain.
  - rewrite slice0_take by lia. reflexivity.
  - apply Forall_forall. intros a Ha. apply tally_elem in Ha as (Hin & _).
    rewrite Forall_forall in Hplain. apply (Hplain _ Hin).
Qed.

(** On plain items [getTopItems] is the frequency ranking. *)
Lemma getTopItems_ranking (items : list string) :
  Forall plain_item items ->
  ranking_of items 10 (Orchestrator.getTopItems items 10).
Proof.
  intros Hplain. rewrite (getTopItems_plain items Hplain).
  set (sorted := Counter.sort_desc (tally items)).
  assert (Hperm : sorted ≡ₚ tally items) by apply sort_desc_perm.
  assert (Hpw : pairwise (above (tally items)) sorted)
    by apply sort_desc_pairwise, tally_numeric.
  assert (Hsub : forall a, a ∈ take 10 sorted -> a ∈ tally items).
  { intros a Ha. rewrite <- Hperm. apply (subseteq_take 10 sorted), Ha. }
  assert (Hnodup : NoDup (map fst sorted)).
  { rewrite Hperm, tally_keys. apply NoDup_first_seen. }
  split; [| split; [| split; [| split]]].
  - rewrite length_take. lia.
  - rewrite <- (take_drop 10 sorted), map_app in Hnodup.
    apply NoDup_app in Hnodup. tauto.
  - intros x c Hin. apply Hsub, tally_elem in Hin. simpl in Hin. tauto.
  - intros i j a b Hij Hi Hj.
    apply above_tally.
    + apply Hsub. eapply list_elem_of_lookup_2, Hi.
    + apply Hsub. eapply list_elem_of_lookup_2, Hj.
    + eapply (pairwise_lookup _ (take 10 sorted) i j);
        [apply pairwise_take, Hpw | exact Hij | exact Hi | exact Hj].
  - intros z Hz Hout.
    assert (Hzt : (z, Counter.Times (occurrences z items)) ∈ tally items).
    { unfold tally. rewrite map_fmap.
      apply (list_elem_of_fmap_2 (fun x => (x, Counter.Times (occurrences x items)))).
      apply elem_of_first_seen, Hz. }
    assert (Hzd : (z, Counter.Times (occurrences z items)) ∈ drop 10 sorted).
    { rewrite <- Hperm, <- (take_drop 10 sorted) in Hzt.
      apply elem_of_app in Hzt as [Htake | Hdrop]; [| exact Hdrop].
      exfalso. apply Hout. rewrite map_fmap.
      apply (list_elem_of_fmap_2 fst) in Htake. exact Htake. }
    split.
    + rewrite length_take. 
      assert (Hlen : (10 < length sorted)%nat).
      { destruct (decide (10 < length sorted)%nat) as [Hlt | Hge]; [exact Hlt |].
        rewrite drop_ge in Hzd by lia. inversion Hzd. }
      lia.
    + intros x Hx. rewrite map_fmap in Hx.
      apply list_elem_of_fmap in Hx as (a & -> & Ha).
      rewrite <- (take_drop 10 sorted) in Hpw.
      apply pairwise_app in Hpw as (_ & _ & Hcross).
      apply (above_tally items a (z, Counter.Times (occurrences z items)));
        [apply Hsub, Ha | exact Hzt | apply Hcross; assumption].
Qed.

(** C6 — consolidation is a function of the query and the analyses.  For
    each of key points, insights and topics, provided no item is an array
    index (a canonical decimal numeral) or a property name of
    [Object.prototype], the list kept is the frequency ranking of the
    flattened items: at most 10 distinct items, each with the number of
    its occurrences by exact string match, in descending order of count,
    items of equal count in first-seen order, and no item left out that
    ranks above one that is kept. *)
Theorem consolidation_ranking (query : string) (analyses : list AnalysisResult) :
  let synthesis := Orchestrator.consolidateAnalyses query analyses in
  (Forall plain_item (all_key_points analyses) ->
   ranking_of (all_key_points analyses) 10 (topKeyPoints synthesis))
  /\ (Forall plain_item (all_insights analyses) ->
      ranking_of (all_insights analyses) 10 (topInsights synthesis))
  /\ (Forall plain_item (all_topics analyses) ->
      ranking_of (all_topics analyses) 10 (topTopics synthesis)).
Proof.
  intros synthesis. subst synthesis.
  split; [| split]; intros Hplain;
    apply (getTopItems_ranking _ Hplain).
Qed.

End Ranking.

Lemma consolidation_ranking_witness :
  let analyses := [sample_analysis (85 # 1)%Q; sample_analysis (12 # 1)%Q] in
  Forall plain_item (all_key_points analyses)
  /\ ranking_of (all_key_points analyses) 10
                (topKeyPoints (Orchestrator.consolidateAnalyses "rocq" analyses))
  /\ topKeyPoints (Orchestrator.consolidateAnalyses "rocq" analyses)
     = [("point", Counter.Times 2)].
Proof.
  intros analyses.
  assert (Hplain : Forall plain_item (all_key_points analyses)).
  { repeat constructor. }
  split; [exact Hplain |]. split; [| reflexivity].
  exact (proj1 (consolidation_ranking "rocq" analyses) Hplain).
Defined.

(** The topics "IA" and "2024", each named once: the ranking lists
    "2024" first although "IA" was seen first. *)
Lemma tie_order_counterexample :
  let analyses := [sample_analysis (85 # 1)%Q] in
  all_topics analyses = ["IA"; "2024"]
  /\ topTopics (Orchestrator.consolidateAnalyses "rocq" analyses)
     = [("2024", Counter.Times 1); ("IA", Counter.Times 1)]
  /\ ~ ranking_of (all_topics analyses) 10
                  (topTopics (Orchestrator.consolidateAnalyses "rocq" analyses)).
Proof.
  intros analyses. split; [reflexivity |]. split; [reflexivity |].
  intros (_ & _ & _ & Horder & _).
  specialize (Horder 0%nat 1%nat ("2024", Counter.Times 1) ("IA", Counter.Times 1)).
  destruct Horder as [Hlt | [_ (i & j & Hij & Hi & Hj)]];
    [lia | reflexivity | reflexivity | |].
  - vm_compute in Hlt. lia.
  - change (first_seen (all_topics analyses)) with ["IA"; "2024"] in Hi, Hj.
    destruct i as [| [| i]]; try discriminate.
    destruct j as [| [| j]]; try discriminate; lia.
Qed.

(** ** Host globs *)

Section Globs.

Lemma match_here_star (r : list Glob.Atom) (skipped text : string) :
  Forall (fun c => Text.is_line_terminator c = false) (list_ascii_of_string skipped) ->
  Glob.match_here r text = true ->
  Glob.match_here (Glob.AnyStar :: r) (skipped +:+ text) = true.
Proof.
  intros Hskipped Hmatch. induction skipped as [| c skipped IH].
  - simpl. destruct text; simpl in *; rewrite Hmatch; reflexivity.
  - simpl in Hskipped. apply Forall_cons in Hskipped as [Hc Hskipped].
    specialize (IH Hskipped). simpl in *. rewrite Hc. simpl.
    rewrite IH. apply orb_true_r.
Qed.

Lemma glob_matches_here (pattern text : string) :
  glob_matches pattern text -> Glob.match_here (Glob.compile pattern) text = true.
Proof.
  induction 1 as [text | pattern skipped text Hskipped _ IH | c pattern text Hc Hlt _ IH].
  - reflexivity.
  - change (Glob.compile (String "*" pattern))
      with (Glob.AnyStar :: Glob.compile pattern).
    apply match_here_star; assumption.
  - simpl. destruct (Ascii.eqb c "*") eqn:Hstar;
      [apply Ascii.eqb_eq in Hstar; contradiction |].
    destruct (Ascii.eqb c "."); simpl.
    + rewrite Hlt. exact IH.
    + rewrite Ascii.eqb_refl. exact IH.
Qed.

Lemma test_anywhere (r : list Glob.Atom) (before_ text : string) :
  Glob.match_here r text = true -> Glob.test r (before_ +:+ text) = true.
Proof.
  intros Hmatch. induction before_ as [| c before_ IH]; simpl.
  - destruct text; simpl; rewrite Hmatch; reflexivity.
  - rewrite IH. apply orb_true_r.
Qed.

Lemma includes_cons (p : string) (c : ascii) (s : string) :
  JS.includes p (String c s) = String.prefix p (String c s) || JS.includes p s.
Proof. reflexivity. Qed.

Lemma prefix_same_head (c : ascii) (p s : string) :
  String.prefix (String c p) (String c s) = String.prefix p s.
Proof. simpl. destruct (ascii_dec c c); [reflexivity | contradiction]. Qed.

Lemma prefix_glob (pattern text : string) :
  JS.includes "*" pattern = false ->
  glob_matches pattern text -> String.prefix pattern text = true.
Proof.
  intros Hnostar Hglob.
  induction Hglob as [text | pattern skipped text _ _ _ | c pattern text Hc _ _ IH].
  - destruct text; reflexivity.
  - rewrite includes_cons in Hnostar. apply orb_false_iff in Hnostar as [Hprefix _].
    rewrite (prefix_same_head "*" EmptyString pattern) in Hprefix.
    destruct pattern; discriminate.
  - rewrite includes_cons in Hnostar. apply orb_false_iff in Hnostar as [_ Hrest].
    rewrite prefix_same_head. apply IH, Hrest.
Qed.

Lemma includes_prefix (pattern text : string) :
  String.prefix pattern text = true -> JS.includes pattern text = true.
Proof.
  intros Hprefix. destruct text as [| c text].
  - change (JS.includes pattern EmptyString)
      with (String.prefix pattern EmptyString || false).
    rewrite Hprefix. reflexivity.
  - rewrite includes_cons, Hprefix. reflexivity.
Qed.

Lemma includes_anywhere (pattern before_ text : string) :
  String.prefix pattern text = true -> JS.includes pattern (before_ +:+ text) = true.
Proof.
  intros Hprefix. induction before_ as [| c before_ IH].
  - apply includes_prefix, Hprefix.
  - change (String c before_ +:+ text) with (String c (before_ +:+ text)).
    rewrite includes_cons, IH. apply orb_true_r.
Qed.

(** Every host a glob describes, its dots read literally, is matched by
    the test the filter runs; the test also accepts any character for a
    dot. *)
Lemma host_matches_pattern (pattern host : string) :
  host_matches pattern host -> Glob.pattern_matches pattern host = true.
Proof.
  intros (before_ & text & -> & Hglob). unfold Glob.pattern_matches.
  destruct (JS.includes "*" pattern) eqn:Hstar.
  - apply test_anywhere, glob_matches_here, Hglob.
  - apply includes_anywhere, prefix_glob; assumption.
Qed.

Example private_range_blocked :
  host_matches "192.168.*" "192.168.0.1"
  /\ Glob.pattern_matches "192.168.*" "192.168.0.1" = true
  /\ Glob.pattern_matches "localhost" "api.localhost" = true
  /\ Glob.pattern_matches "10.*" "example.com" = false.
Proof.
  split; [| repeat split].
  exists EmptyString, "192.168.0.1". split; [reflexivity |].
  repeat (apply glob_char; [discriminate | reflexivity |]).
  apply (glob_star EmptyString "0.1" EmptyString).
  - repeat constructor.
  - apply glob_end.
Qed.

End Globs.

(** ** A run that completes *)

Section Completion.

Variable E : Env.

Lemma keeps_saveReport id title content file_path :
  keeps_sessions (saveReport E id title content file_path).
Proof. apply keeps_store_call. reflexivity. Qed.

Lemma keeps_generateReport query analysis sessionId :
  keeps_sessions (Orchestrator.generateReport E query analysis sessionId).
Proof.
  unfold Orchestrator.generateReport.
  apply keeps_try_catch; [| intros e; apply keeps_throw].
  apply keeps_bind; [| intros reportContent].
  - unfold LLMService.generateFinalReport.
    apply keeps_try_catch; [apply keeps_generateResponse | intros e; apply keeps_throw].
  - apply keeps_bind; [apply keeps_clock | intros t].
    apply keeps_bind; [apply keeps_clock | intros t'].
    apply keeps_bind; [| intros _; apply keeps_ret].
    destruct sessionId; [apply keeps_saveReport | apply keeps_ret].
Qed.

(** When every step after term generation succeeds, the run returns its
    result with the terms that step produced, and the session is stored
    as completed: a failed expansion, replaced by its fallback, leaves no
    mark on the session. *)
Lemma run_completes
      (query : string) (options : DeepSearchOptions)
      (w w1 w2 w3 w4 w5 : World) (session : SessionRow)
      (data : SearchTermsData)
      (web : WebResults) (analysis : ContentAnalysis) (report : Report) :
  let limit := default (cfg_maxResults E) (maxSources options) in
  let advanced := default true (useAdvancedSearch options) in
  let wanted := default true (generateEmbeddings options) in
  Orchestrator.openSession E query options w = (Ok (Some session), w1) ->
  Orchestrator.generateSearchTerms E query w1 = (Ok data, w2) ->
  Orchestrator.searchFromTerms E (search_terms data) (Some limit) (Some advanced) w2
  = (Ok web, w3) ->
  Orchestrator.analyzeContent E query web (Some wanted) (Some (ss_id session)) w3
  = (Ok analysis, w4) ->
  Orchestrator.generateReport E query analysis (Some (ss_id session)) w4
  = (Ok report, w5) ->
  store_fault E (trace w5) = NoFault ->
  exists result w' row,
    Orchestrator.performDeepSearch E query options w = (Ok result, w')
    /\ res_searchTerms result = data
    /\ search_sessions (store w') !! ss_id session = Some row
    /\ ss_status row = Completed.
Proof.
  intros limit advanced wanted Hopen Hterms Hweb Hanalysis Hreport Hfault.
  destruct (openSession_row E _ _ _ _ _ Hopen) as [Hrow _].
  assert (Hrow5 : search_sessions (store w5) !! ss_id session = Some session).
  { pose proof (keeps_generateReport query analysis (Some (ss_id session)) w4) as Hk5.
    rewrite Hreport in Hk5. simpl in Hk5. rewrite Hk5.
    pose proof (keeps_analyzeContent E query web (Some wanted) (Some (ss_id session)) w3)
      as Hk4.
    rewrite Hanalysis in Hk4. simpl in Hk4. rewrite Hk4.
    destruct (searchFromTerms_run E _ _ _ _ _ _ Hweb) as (events & ->).
    simpl.
    rewrite generateSearchTerms_run, llm_generateSearchTerms_run in Hterms.
    injection Hterms as _ <-. exact Hrow. }
  unfold Orchestrator.performDeepSearch. unfold bind at 1. rewrite Hopen.
  unfold try_catch, Orchestrator.run. unfold bind at 1. rewrite Hterms.
  fold limit advanced wanted.
  unfold bind at 1. rewrite Hweb.
  unfold bind at 1. simpl fmap. rewrite Hanalysis.
  unfold bind at 1. rewrite Hreport.
  unfold bind, clock, updateSearchSession, store_call, ret.
  rewrite Hfault, Hrow5. simpl.
  do 3 eexists. split; [reflexivity |]. split; [reflexivity |]. simpl.
  split; [apply list_lookup_insert_eq; eapply lookup_lt_Some, Hrow5 | reflexivity].
Qed.

End Completion.

(** A run whose term expansion fails and whose other steps succeed ends
    with the fallback terms and a completed session. *)
Example expansion_failure_completes :
  llm_generate reportingEnv [] ExpandTerms "rocq" = inl "model not found"
  /\ exists result w' row,
      Orchestrator.performDeepSearch reportingEnv "rocq" plain_options initial_world
      = (Ok result, w')
      /\ res_searchTerms result
         = {| original_query := Some "rocq";
              search_terms := TermsArray ["rocq"];
              categories := Some ["geral"] |}
      /\ search_sessions (store w') !! 0%nat = Some row
      /\ ss_status row = Completed.
Proof.
  split; [reflexivity |].
  pose (r := Orchestrator.performDeepSearch reportingEnv "rocq" plain_options
                                            initial_world).
  assert (Hr : exists result, fst r = Ok result
                              /\ res_searchTerms result
                                 = LLMService.simple_fallback "rocq").
  { eexists. split; vm_compute; reflexivity. }
  destruct Hr as (result & Hfst & Hterms).
  exists result, (snd r). eexists.
  split; [rewrite <- Hfst; apply surjective_pairing |].
  split; [exact Hterms |].
  split; vm_compute; reflexivity.
Qed.

(** * Further properties of the services *)

(** ** Chunks *)

Section Chunks.

Context {A : Type}.

Lemma chunk_loop_shape (fuel chunkSize : nat) (l : list A) (chunks : list (list A)) :
  (0 < chunkSize)%nat ->
  chunk_loop fuel chunkSize l = Some chunks ->
  concat chunks = l
  /\ Forall (fun c => (0 < length c <= chunkSize)%nat) chunks
  /\ (forall i c, chunks !! i = Some c -> (S i < length chunks)%nat ->
                  length c = chunkSize).
Proof.
  intros Hpos. revert l chunks.
  induction fuel as [| fuel IH]; intros l chunks Hrun.
  - destruct l; [| discriminate]. injection Hrun as <-.
    repeat split; [constructor | intros i c Hi; discriminate].
  - destruct l as [| x l]; [injection Hrun as <-;
      repeat split; [constructor | intros i c Hi; discriminate] |].
    change (chunk_loop (S fuel) chunkSize (x :: l))
      with (option_map (cons (take chunkSize (x :: l)))
                       (chunk_loop fuel chunkSize (drop chunkSize (x :: l)))) in Hrun.
    destruct (chunk_loop fuel chunkSize (drop chunkSize (x :: l)))
      as [chunks' |] eqn:Hrest; [| discriminate].
    injection Hrun as <-.
    destruct (IH _ _ Hrest) as (Hconcat & Hsizes & Hfull).
    split; [| split].
    + change (concat (take chunkSize (x :: l) :: chunks'))
        with (take chunkSize (x :: l) ++ concat chunks').
      rewrite Hconcat. apply take_drop.
    + constructor; [| exact Hsizes].
      rewrite length_take. simpl. lia.
    + intros i c Hi Hlast. destruct i as [| i].
      * injection Hi as <-. simpl in Hlast.
        destruct chunks' as [| c' chunks'']; [simpl in Hlast; lia |].
        assert (Hne : drop chunkSize (x :: l) <> []).
        { intros Hnil. rewrite Hnil in Hrest.
          destruct fuel; simpl in Hrest; discriminate. }
        rewrite length_take.
        destruct (decide (chunkSize < length (x :: l))%nat) as [Hlt | Hge]; [lia |].
        exfalso. apply Hne. apply drop_ge. lia.
      * simpl in Hi, Hlast. apply (Hfull i c Hi). lia.
Qed.

(** X1 — with a positive chunk size [chunkArray] returns; the chunks put
    together are the array, no chunk is empty or longer than the size,
    and every chunk but the last has exactly that size. *)
Theorem chunkArray_chunks (array : list A) (chunkSize : Z) :
  0 < chunkSize ->
  exists chunks,
    chunkArray array chunkSize = Some chunks
    /\ concat chunks = array
    /\ Forall (fun c => (0 < length c <= Z.to_nat chunkSize)%nat) chunks
    /\ (forall i c, chunks !! i = Some c -> (S i < length chunks)%nat ->
                    length c = Z.to_nat chunkSize).
Proof.
  intros Hpos. destruct (chunkArray_total array chunkSize Hpos) as (chunks & Hrun & _).
  exists chunks. split; [exact Hrun |].
  apply (chunk_loop_shape (length array) (Z.to_nat chunkSize)); [lia | exact Hrun].
Qed.

Lemma chunk_loop_stuck (fuel : nat) (l : list A) :
  l <> [] -> chunk_loop fuel 0 l = None.
Proof.
  intros Hne. induction fuel as [| fuel IH]; destruct l as [| x l]; try contradiction.
  - reflexivity.
  - change (chunk_loop (S fuel) 0 (x :: l))
      with (option_map (cons (take 0 (x :: l))) (chunk_loop fuel 0 (x :: l))).
    rewrite IH. reflexivity.
Qed.

(** X2 — [chunkArray] ends on an empty array whatever the size, and on a
    non-empty array it ends exactly when the size is positive: with a
    size of zero or less its loop never advances. *)
Theorem chunkArray_ends (array : list A) (chunkSize : Z) :
  (array = [] -> chunkArray array chunkSize = Some [])
  /\ (array <> [] -> (chunkArray array chunkSize = None <-> chunkSize <= 0)).
Proof.
  split.
  - intros ->. reflexivity.
  - intros Hne. split.
    + intros Hnone. destruct (decide (chunkSize <= 0)) as [Hle | Hgt]; [exact Hle |].
      destruct (chunkArray_total array chunkSize) as (chunks & Hrun & _); [lia |].
      congruence.
    + intros Hle. unfold chunkArray.
      replace (Z.to_nat chunkSize) with O by lia.
      apply chunk_loop_stuck, Hne.
Qed.

End Chunks.

Lemma chunkArray_chunks_witness :
  0 < 2 /\ chunkArray [1; 2; 3; 4; 5] 2 = Some [[1; 2]; [3; 4]; [5]].
Proof.
  split; [lia |].
  destruct (chunkArray_chunks [1; 2; 3; 4; 5] 2) as (chunks & Hrun & _); [lia |].
  rewrite Hrun. vm_compute in Hrun. injection Hrun as <-. reflexivity.
Defined.

Lemma chunkArray_ends_witness :
  [1; 2; 3] <> [] /\ chunkArray [1; 2; 3] 0 = None /\ chunkArray [1; 2; 3] (-2) = None.
Proof.
  assert (Hne : [1; 2; 3] <> []) by discriminate.
  split; [exact Hne |]. split.
  - apply (proj2 (chunkArray_ends [1; 2; 3] 0) Hne). lia.
  - apply (proj2 (chunkArray_ends [1; 2; 3] (-2)) Hne). lia.
Defined.

(** ** Deduplication by URL *)

Section FirstWins.

Lemma dedup_into_fold (tag : Hit -> Hit) (results : list Hit)
      (acc : list Hit * gset string) :
  dedup_into tag results acc = fold_left (dedup_step tag) results acc.
Proof.
  revert acc. induction results as [| r rest IH]; intros [allResults seenUrls];
    [reflexivity |].
  simpl. unfold dedup_step at 2. simpl.
  destruct (decide (hit_url r ∈ seenUrls)); apply IH.
Qed.

Lemma dedup_into_tagged (tag : Hit -> Hit) (results : list Hit)
      (acc : list Hit * gset string) :
  (forall h, hit_url (tag h) = hit_url h) ->
  dedup_into tag results acc = dedup_into id (map tag results) acc.
Proof.
  intros Htag. revert acc.
  induction results as [| r rest IH]; intros [allResults seenUrls]; [reflexivity |].
  simpl. rewrite Htag.
  destruct (decide (hit_url r ∈ seenUrls)); apply IH.
Qed.

Lemma dedup_into_app (tag : Hit -> Hit) (l1 l2 : list Hit)
      (acc : list Hit * gset string) :
  dedup_into tag (l1 ++ l2) acc = dedup_into tag l2 (dedup_into tag l1 acc).
Proof. rewrite !dedup_into_fold. apply fold_left_app. Qed.

Lemma first_with_url_snoc (received : list Hit) (h r : Hit) :
  first_with_url received h -> first_with_url (received ++ [r]) h.
Proof.
  intros (earlier & later & -> & Hearlier).
  exists earlier, (later ++ [r]). split; [| exact Hearlier].
  rewrite <- app_assoc. reflexivity.
Qed.

Lemma dedup_id_done (received : list Hit) :
  dedup_done received (dedup_into id received ([], ∅)).
Proof.
  rewrite dedup_into_fold.
  induction received as [| r received IH] using rev_ind.
  - repeat split; simpl; try constructor; intros Hu; inversion Hu.
  - rewrite fold_left_app. simpl.
    destruct (fold_left (dedup_step id) received ([], ∅)) as [allResults seenUrls].
    destruct IH as (Hurls & Hseen & Hfirst). simpl in Hurls, Hseen, Hfirst.
    unfold dedup_done, dedup_step. simpl.
    rewrite map_app. simpl. rewrite first_seen_snoc.
    destruct (decide (hit_url r ∈ seenUrls)) as [Hin | Hnew]; simpl.
    + destruct (decide (hit_url r ∈ first_seen (map hit_url received))) as [_ | Hnot].
      * split; [exact Hurls |]. split.
        -- intros u. rewrite elem_of_app, list_elem_of_singleton, <- Hseen.
           split; [tauto |]. intros [Hu | ->]; assumption.
        -- eapply Forall_impl; [exact Hfirst |]. intros h. apply first_with_url_snoc.
      * exfalso. apply Hnot, elem_of_first_seen, Hseen, Hin.
    + destruct (decide (hit_url r ∈ first_seen (map hit_url received))) as [Hin | _].
      * exfalso. apply Hnew, Hseen, elem_of_first_seen, Hin.
      * split; [rewrite map_app, Hurls; reflexivity |]. split.
        -- intros u. rewrite elem_of_union, elem_of_singleton, elem_of_app,
             list_elem_of_singleton, Hseen. tauto.
        -- apply Forall_app. split.
           ++ eapply Forall_impl; [exact Hfirst |]. intros h. apply first_with_url_snoc.
           ++ apply Forall_singleton. exists received, []. split; [reflexivity |].
              apply Forall_forall. intros x Hx Heq. apply Hnew, Hseen.
              rewrite <- Heq. rewrite map_fmap. apply list_elem_of_fmap_2, Hx.
Qed.

End FirstWins.

Section SearchReceived.

Variable E : Env.

Lemma searchDuckDuckGo_result (query : string) (options : SearchOptions) (w : World) :
  let budget := default (cfg_maxResults E) (so_maxResults options) in
  searchDuckDuckGo E query options w
  = (Ok (search_result E query budget w), emit (EvSearch query budget) w).
Proof. apply searchDuckDuckGo_run. Qed.

Lemma multiSearch_loop_received (terms : list string) (options : SearchOptions)
      (acc : list Hit * gset string) (w : World) :
  let budget := default (cfg_maxResults E) (so_maxResults options) in
  multiSearch_loop E terms options acc w
  = (Ok (fst (dedup_into id (multiSearch_received E terms budget w) acc)),
     extend (multiSearch_events budget terms) w).
Proof.
  intros budget. revert acc w.
  induction terms as [| term rest IH]; intros acc w.
  - simpl. unfold ret. by rewrite extend_nil.
  - simpl. unfold bind at 1. unfold try_catch, bind at 1.
    rewrite searchDuckDuckGo_result. fold budget.
    unfold sleep, bind, ret. simpl.
    rewrite IH. f_equal.
    + rewrite dedup_into_app. f_equal.
      rewrite <- (dedup_into_tagged (with_searchTerm term)) by reflexivity.
      rewrite !emit_extend, extend_extend. reflexivity.
    + rewrite !emit_extend, !extend_extend. reflexivity.
Qed.

Lemma multiSearch_received_terms (terms : list string) (budget : Z) (w : World) :
  Forall (fun h => exists term, term ∈ terms /\ hit_searchTerm h = Some term)
         (multiSearch_received E terms budget w).
Proof.
  revert w. induction terms as [| term rest IH]; intros w; [constructor |].
  simpl. apply Forall_app. split.
  - apply Forall_forall. intros h Hh. rewrite map_fmap in Hh.
    apply list_elem_of_fmap in Hh as (r & -> & _).
    exists term. split; [left | reflexivity].
  - eapply Forall_impl; [apply IH |]. intros h (t & Ht & Hh).
    exists t. split; [right; exact Ht | exact Hh].
Qed.

Lemma first_with_url_elem (received : list Hit) (h : Hit) :
  first_with_url received h -> h ∈ received.
Proof.
  intros (earlier & later & -> & _). apply elem_of_app. right. left.
Qed.

(** X3 — [multiSearch] never raises; it asks the provider once per term,
    in order, with a pause of one second after each call; the hits it
    returns are the hits received, deduplicated by URL in first-seen
    order: no URL twice, every hit the first one received with its URL,
    under the term whose call returned it. *)
Theorem multiSearch_first_wins (terms : list string) (options : SearchOptions)
        (w : World) :
  let budget := default (cfg_maxResults E) (so_maxResults options) in
  let received := multiSearch_received E terms budget w in
  exists hits,
    multiSearch E terms options w
    = (Ok hits, extend (multiSearch_events budget terms) w)
    /\ map hit_url hits = first_seen (map hit_url received)
    /\ NoDup (map hit_url hits)
    /\ Forall (first_with_url received) hits
    /\ Forall (fun h => exists term, term ∈ terms /\ hit_searchTerm h = Some term) hits.
Proof.
  intros budget received. unfold multiSearch.
  rewrite multiSearch_loop_received. fold budget received.
  eexists. split; [reflexivity |].
  destruct (dedup_id_done received) as (Hurls & _ & Hfirst).
  split; [exact Hurls |]. split; [rewrite Hurls; apply NoDup_first_seen |].
  split; [exact Hfirst |].
  apply Forall_forall. intros h Hh.
  rewrite Forall_forall in Hfirst. apply Hfirst, first_with_url_elem in Hh.
  pose proof (multiSearch_received_terms terms budget w) as Hterms.
  rewrite Forall_forall in Hterms. apply Hterms, Hh.
Qed.

Lemma dork_loop_received (ds : list string) (nDorks : Z) (baseQuery : option string)
      (allResults : list Hit) (w : World) :
  let budget := JS.ceil_div (cfg_maxResults E) nDorks in
  dork_loop E ds nDorks baseQuery allResults w
  = (Ok (allResults ++ dorks_received E ds budget baseQuery w),
     extend (dork_events budget ds) w).
Proof.
  intros budget. revert allResults w.
  induction ds as [| dork rest IH]; intros allResults w.
  - simpl. unfold ret. by rewrite extend_nil, app_nil_r.
  - simpl. unfold bind at 1. unfold try_catch, bind at 1.
    rewrite searchDuckDuckGo_result. simpl. fold budget.
    unfold sleep, bind, ret. simpl.
    rewrite IH. f_equal.
    + rewrite <- app_assoc. rewrite !emit_extend, extend_extend. reflexivity.
    + rewrite !emit_extend, !extend_extend. reflexivity.
Qed.

Lemma dorks_received_tags (ds : list string) (budget : Z) (baseQuery : option string)
      (w : World) :
  Forall (fun h => (exists dork, dork ∈ ds /\ hit_dork h = Some dork)
                   /\ hit_searchTerm h = baseQuery)
         (dorks_received E ds budget baseQuery w).
Proof.
  revert w. induction ds as [| dork rest IH]; intros w; [constructor |].
  simpl. apply Forall_app. split.
  - apply Forall_forall. intros h Hh. rewrite map_fmap in Hh.
    apply list_elem_of_fmap in Hh as (r & -> & _).
    split; [| reflexivity]. exists dork. split; [left | reflexivity].
  - eapply Forall_impl; [apply IH |]. intros h [(d & Hd & Hh) Hterm].
    split; [| exact Hterm]. exists d. split; [right; exact Hd | exact Hh].
Qed.

(** X4 — [searchWithDorks] never raises; it asks the provider the seven
    refinements of the base query, each with the configured maximum
    divided by seven as budget, whatever [maxResults] its caller passes,
    and pauses two seconds after each; the hits it returns are the hits
    received, deduplicated by URL in first-seen order, each carrying the
    refinement that returned it and the base query. *)
Theorem searchWithDorks_first_wins (baseQuery : option string)
        (options : SearchOptions) (w : World) :
  let budget := JS.ceil_div (cfg_maxResults E) 7 in
  let received := dorks_received E (dorks baseQuery) budget baseQuery w in
  exists hits,
    searchWithDorks E baseQuery options w
    = (Ok hits, extend (dork_events budget (dorks baseQuery)) w)
    /\ search_calls (dork_events budget (dorks baseQuery))
       = map (fun dork => (dork, budget)) (dorks baseQuery)
    /\ map hit_url hits = first_seen (map hit_url received)
    /\ NoDup (map hit_url hits)
    /\ Forall (first_with_url received) hits
    /\ Forall (fun h => (exists dork, dork ∈ dorks baseQuery /\ hit_dork h = Some dork)
                        /\ hit_searchTerm h = baseQuery) hits.
Proof.
  intros budget received. unfold searchWithDorks, bind.
  rewrite dork_loop_received.
  change (JS.ceil_div (cfg_maxResults E) (Z.of_nat (length (dorks baseQuery))))
    with budget.
  rewrite app_nil_l. fold received. unfold ret.
  eexists. split; [reflexivity |].
  split; [apply search_calls_dork_events |].
  destruct (dedup_id_done received) as (Hurls & _ & Hfirst).
  split; [exact Hurls |]. split; [rewrite Hurls; apply NoDup_first_seen |].
  split; [exact Hfirst |].
  apply Forall_forall. intros h Hh.
  rewrite Forall_forall in Hfirst. apply Hfirst, first_with_url_elem in Hh.
  pose proof (dorks_received_tags (dorks baseQuery) budget baseQuery w) as Htags.
  rewrite Forall_forall in Htags. apply Htags, Hh.
Qed.

(** X5 — with a negative [maxResults] a single-term search does not
    return an empty list: [slice(0, maxResults)] drops that many results
    from the end of the page and returns the others. *)
Theorem searchDuckDuckGo_negative_budget (query : string) (options : SearchOptions)
        (w : World) (blocks : list ResultBlock) :
  let maxResults := default (cfg_maxResults E) (so_maxResults options) in
  maxResults < 0 ->
  search_provider E (trace w) query maxResults = inr blocks ->
  let parsed := parseDuckDuckGoResults E blocks in
  exists hits w',
    searchDuckDuckGo E query options w = (Ok hits, w')
    /\ hits = take (length parsed - Z.to_nat (- maxResults)) parsed
    /\ length hits = (length parsed - Z.to_nat (- maxResults))%nat.
Proof.
  intros maxResults Hneg Hprovider parsed.
  rewrite searchDuckDuckGo_result. fold maxResults.
  unfold search_result. rewrite Hprovider. fold parsed.
  do 2 eexists. split; [reflexivity |].
  unfold JS.slice0. destruct (maxResults <? 0) eqn:Hlt;
    [| apply Z.ltb_ge in Hlt; lia].
  replace (Z.to_nat (Z.of_nat (length parsed) + maxResults))
    with (length parsed - Z.to_nat (- maxResults))%nat by lia.
  split; [reflexivity |]. rewrite length_take. lia.
Qed.

End SearchReceived.

Lemma searchDuckDuckGo_negative_budget_witness :
  exists hits w',
    searchDuckDuckGo sampleEnv "rocq" {| so_maxResults := Some (-1) |} initial_world
    = (Ok hits, w')
    /\ length hits = 1%nat.
Proof.
  destruct (searchDuckDuckGo_negative_budget sampleEnv "rocq"
              {| so_maxResults := Some (-1) |} initial_world
              [block "Example" "https://example.com/"; block "Other" "https://other.org/"])
    as (hits & w' & Hrun & _ & Hlen); [simpl; lia | reflexivity |].
  exists hits, w'. split; [exact Hrun | exact Hlen].
Defined.

(** ** Normalized text *)

Section CleanContent.

Lemma collapse_single_spaced (s : string) (in_run : bool) :
  single_spaced in_run (Text.replace_runs Text.is_space " " in_run s).
Proof.
  revert in_run. induction s as [| c s IH]; intros in_run; [exact I |].
  simpl. destruct (Text.is_space c) eqn:Hc.
  - destruct in_run; [apply IH |].
    simpl. repeat split. apply IH.
  - simpl. rewrite Hc. apply IH.
Qed.

Lemma single_spaced_weaken (s : string) : single_spaced true s -> single_spaced false s.
Proof.
  destruct s as [| c s]; [auto |]. simpl.
  destruct (Text.is_space c); [intros (_ & Habs & _); discriminate | auto].
Qed.

Lemma replace_runs_single_spaced (class : ascii -> bool) (by_ : ascii)
      (s : string) (in_run after_space : bool) :
  (forall c, class c = true -> Text.is_space c = true) ->
  (class " "%char = true -> by_ = " "%char) ->
  single_spaced after_space s ->
  (in_run = true -> after_space = true) ->
  Text.replace_runs class by_ in_run s = s.
Proof.
  intros Hclass Hby. revert in_run after_space.
  induction s as [| c s IH]; intros in_run after_space Hs Hrun; [reflexivity |].
  simpl in Hs |- *. destruct (class c) eqn:Hc.
  - rewrite (Hclass c Hc) in Hs. destruct Hs as (-> & -> & Hs).
    destruct in_run; [specialize (Hrun eq_refl); discriminate |].
    rewrite (IH true true Hs) by auto. rewrite (Hby Hc). reflexivity.
  - f_equal. destruct (Text.is_space c).
    + destruct Hs as (_ & _ & Hs). apply (IH false true Hs). discriminate.
    + apply (IH false false Hs). discriminate.
Qed.

Lemma trim_start_single_spaced (s : string) (after_space : bool) :
  single_spaced after_space s -> single_spaced true (Text.trim_start s).
Proof.
  revert after_space. induction s as [| c s IH]; intros after_space Hs; [exact I |].
  simpl in Hs |- *. destruct (Text.is_space c) eqn:Hc.
  - destruct Hs as (_ & _ & Hs). apply (IH true Hs).
  - simpl. rewrite Hc. exact Hs.
Qed.

Lemma trim_end_single_spaced (s : string) (after_space : bool) :
  single_spaced after_space s -> single_spaced after_space (Text.trim_end s).
Proof.
  revert after_space. induction s as [| c s IH]; intros after_space Hs; [exact I |].
  simpl in Hs |- *. destruct (Text.is_space c) eqn:Hc.
  - destruct Hs as (-> & -> & Hs). specialize (IH true Hs).
    destruct (Text.trim_end s) as [| a r]; [exact I |].
    simpl. auto.
  - specialize (IH false Hs).
    destruct (Text.trim_end s) as [| a r]; simpl; rewrite Hc; [exact I | exact IH].
Qed.

Lemma trim_start_fixed (s : string) : single_spaced true s -> Text.trim_start s = s.
Proof.
  destruct s as [| c s]; [reflexivity |]. simpl.
  destruct (Text.is_space c); [intros (_ & Habs & _); discriminate | reflexivity].
Qed.

Lemma trim_end_idempotent (s : string) :
  Text.trim_end (Text.trim_end s) = Text.trim_end s.
Proof.
  induction s as [| c s IH]; [reflexivity |]. simpl.
  destruct (Text.trim_end s) as [| a r] eqn:Ht.
  - destruct (Text.is_space c) eqn:Hc; [reflexivity |]. simpl. rewrite Hc. reflexivity.
  - change (Text.trim_end (String c (String a r)))
      with (match Text.trim_end (String a r) with
            | EmptyString =>
              if Text.is_space c then EmptyString else String c EmptyString
            | rest => String c rest
            end).
    rewrite IH. reflexivity.
Qed.

Lemma replace_runs_length (class : ascii -> bool) (by_ : ascii) (in_run : bool)
      (s : string) :
  (String.length (Text.replace_runs class by_ in_run s) <= String.length s)%nat.
Proof.
  revert in_run. induction s as [| c s IH]; intros in_run; [reflexivity |].
  pose proof (IH true). pose proof (IH false).
  simpl. destruct (class c); [destruct in_run |]; simpl; lia.
Qed.

Lemma trim_start_length (s : string) :
  (String.length (Text.trim_start s) <= String.length s)%nat.
Proof.
  induction s as [| c s IH]; [reflexivity |]. simpl.
  destruct (Text.is_space c); simpl; lia.
Qed.

Lemma trim_end_length (s : string) :
  (String.length (Text.trim_end s) <= String.length s)%nat.
Proof.
  induction s as [| c s IH]; [reflexivity |]. simpl.
  destruct (Text.trim_end s) as [| a r]; [destruct (Text.is_space c) |];
    simpl in *; lia.
Qed.

Lemma cleanContent_collapse (content : string) :
  cleanContent content
  = Text.trim (Text.replace_runs Text.is_space " " false content).
Proof.
  unfold cleanContent.
  pose proof (collapse_single_spaced content false) as Hs.
  rewrite (replace_runs_single_spaced Text.is_newline (ascii_of_nat 10)
             _ false false); try assumption; try discriminate.
  - rewrite (replace_runs_single_spaced _ " " _ false false);
      try assumption; try discriminate; try reflexivity.
    intros c Hc. apply andb_true_iff in Hc. tauto.
  - intros c Hc. unfold Text.is_newline in Hc. unfold Text.is_space.
    apply Nat.eqb_eq in Hc. rewrite Hc. reflexivity.
Qed.

(** X6 — whatever the text, [cleanContent] returns it with every run of
    white space turned into one space and none left at either end: no
    line break, tab or other white-space character survives, although the
    later two replacements of the method are written to keep line
    breaks; the result is never longer than the text, and cleaning it
    again changes nothing. *)
Theorem cleanContent_normal_form (content : string) :
  let cleaned := cleanContent content in
  single_spaced true cleaned
  /\ Text.trim cleaned = cleaned
  /\ cleanContent cleaned = cleaned
  /\ (String.length cleaned <= String.length content)%nat
  /\ cleaned = Text.trim (Text.replace_runs Text.is_space " " false content).
Proof.
  intros cleaned.
  assert (Hform : cleaned = Text.trim (Text.replace_runs Text.is_space " " false content))
    by apply cleanContent_collapse.
  assert (Hsingle : single_spaced true cleaned).
  { rewrite Hform. unfold Text.trim.
    apply trim_end_single_spaced, (trim_start_single_spaced _ false),
      collapse_single_spaced. }
  assert (Htrim : Text.trim cleaned = cleaned).
  { unfold Text.trim. rewrite (trim_start_fixed cleaned Hsingle).
    rewrite Hform. unfold Text.trim. apply trim_end_idempotent. }
  split; [exact Hsingle |]. split; [exact Htrim |]. split; [| split; [| exact Hform]].
  - rewrite cleanContent_collapse.
    rewrite (replace_runs_single_spaced Text.is_space " " cleaned false true);
      auto; discriminate.
  - rewrite Hform. unfold Text.trim.
    pose proof (trim_end_length
                  (Text.trim_start (Text.replace_runs Text.is_space " " false content))).
    pose proof (trim_start_length (Text.replace_runs Text.is_space " " false content)).
    pose proof (replace_runs_length Text.is_space " " false content).
    lia.
Qed.

End CleanContent.

(** ** The JSON block of a response *)

Section Braces.

Lemma from_first_brace_skip (before_ rest : string) :
  ~ occurs "{" before_ ->
  LLMService.from_first_brace (before_ +:+ String "{" rest) = Some (String "{" rest).
Proof.
  intros Hnone. induction before_ as [| c before_ IH]; [reflexivity |].
  simpl in Hnone |- *. destruct (Ascii.eqb c "{") eqn:Hc.
  - apply Ascii.eqb_eq in Hc. tauto.
  - apply IH. tauto.
Qed.

Lemma from_first_brace_none (s : string) :
  ~ occurs "{" s -> LLMService.from_first_brace s = None.
Proof.
  intros Hnone. induction s as [| c s IH]; [reflexivity |].
  simpl in Hnone |- *. destruct (Ascii.eqb c "{") eqn:Hc.
  - apply Ascii.eqb_eq in Hc. tauto.
  - apply IH. tauto.
Qed.

Lemma upto_last_brace_none (s : string) :
  ~ occurs "}" s -> LLMService.upto_last_brace s = None.
Proof.
  intros Hnone. induction s as [| c s IH]; [reflexivity |].
  simpl in Hnone |- *. rewrite IH by tauto.
  destruct (Ascii.eqb c "}") eqn:Hc; [| reflexivity].
  apply Ascii.eqb_eq in Hc. tauto.
Qed.

Lemma upto_last_brace_last (middle after_ : string) :
  ~ occurs "}" after_ ->
  LLMService.upto_last_brace (middle +:+ String "}" after_)
  = Some (middle +:+ "}").
Proof.
  intros Hnone. induction middle as [| c middle IH].
  - simpl. rewrite (upto_last_brace_none after_ Hnone). reflexivity.
  - simpl. rewrite IH. reflexivity.
Qed.

(** X7 — the JSON block taken from a response runs from its first
    opening brace to its last closing brace, so two objects in one
    response are taken as one block; a response without an opening brace,
    or with no closing brace after the first opening one, has no block. *)
Theorem match_braces_greedy (before_ middle after_ : string) :
  ~ occurs "{" before_ ->
  (~ occurs "}" after_ ->
   LLMService.match_braces (before_ +:+ "{" +:+ middle +:+ "}" +:+ after_)
   = Some ("{" +:+ middle +:+ "}"))
  /\ (~ occurs "}" middle ->
      LLMService.match_braces (before_ +:+ "{" +:+ middle) = None)
  /\ LLMService.match_braces before_ = None.
Proof.
  intros Hbefore. unfold LLMService.match_braces. split; [| split].
  - intros Hafter.
    change (before_ +:+ "{" +:+ middle +:+ "}" +:+ after_)
      with (before_ +:+ String "{" (middle +:+ String "}" after_)).
    rewrite (from_first_brace_skip _ _ Hbefore).
    change (String "{" (middle +:+ String "}" after_))
      with (String "{" middle +:+ String "}" after_).
    rewrite (upto_last_brace_last _ _ Hafter). reflexivity.
  - intros Hmiddle.
    change (before_ +:+ "{" +:+ middle) with (before_ +:+ String "{" middle).
    rewrite (from_first_brace_skip _ _ Hbefore).
    apply upto_last_brace_none. simpl. intros [Habs | Hocc]; [discriminate | tauto].
  - rewrite (from_first_brace_none _ Hbefore). reflexivity.
Qed.

End Braces.

Lemma match_braces_greedy_witness :
  ~ occurs "{" "Answer: "
  /\ LLMService.match_braces "Answer: {1} and {2}." = Some "{1} and {2}"
  /\ LLMService.match_braces "Answer: {1" = None.
Proof.
  assert (Hbefore : ~ occurs "{" "Answer: ").
  { simpl. intros H. repeat (destruct H as [H | H]; [discriminate |]). exact H. }
  split; [exact Hbefore |].
  destruct (match_braces_greedy "Answer: " "1} and {2" "." Hbefore) as (Hsome & _ & _).
  destruct (match_braces_greedy "Answer: " "1" EmptyString Hbefore) as (_ & Hnone & _).
  split.
  - apply Hsome. simpl. intros H. repeat (destruct H as [H | H]; [discriminate |]).
    exact H.
  - apply Hnone. simpl. intros H. repeat (destruct H as [H | H]; [discriminate |]).
    exact H.
Defined.

(** ** The trace of the content fetcher *)

Section ScrapeTrace.

Variable E : Env.

Lemma scrapePage_events (urlInfo : Hit) (w : World) :
  exists result,
    scrapePage E urlInfo w = (Ok result, extend (page_events E urlInfo) w)
    /\ (forall source, result = Some source -> scraped_from E urlInfo source).
Proof.
  unfold scrapePage, try_catch, page_events.
  destruct (isAllowedDomain E (hit_url urlInfo)) eqn:Hallowed; simpl.
  - unfold bind at 1. unfold scrapeClient_get. rewrite emit_extend.
    destruct (http_get E (trace w) (hit_url urlInfo)) as [message | page].
    + unfold ret. exists None. split; [reflexivity | discriminate].
    + destruct (String.length (cleanContent (extractContent page)) <? 100)%nat.
      * unfold ret. exists None. split; [reflexivity | discriminate].
      * destruct (URL_hostname E (hit_url urlInfo)) as [domain |] eqn:Hhost.
        -- unfold bind, clock, ret. eexists. split; [reflexivity |].
           intros source Hs. injection Hs as <-.
           unfold scraped_from. simpl. auto.
        -- unfold throw, ret. exists None. split; [reflexivity | discriminate].
  - unfold ret. exists None. rewrite extend_nil. split; [reflexivity | discriminate].
Qed.

Lemma scrape_chunk_events (chunk : list Hit) (w : World) :
  exists results,
    scrape_chunk E chunk w = (Ok results, extend (flat_map (page_events E) chunk) w)
    /\ scraped_in_order E chunk (omap id results).
Proof.
  destruct (scrape_chunk_pool E chunk w) as (results & Hrun & Hresults).
  exists results. split; [exact Hrun |].
  clear Hrun. induction Hresults as [| urlInfo r chunk results Hr Hrest IH];
    [constructor |].
  destruct r as [source |]; simpl.
  - apply scraped_keep; [apply Hr; reflexivity | exact IH].
  - apply scraped_skip, IH.
Qed.

Lemma scraped_in_order_app (urls1 urls2 : list Hit) (s1 s2 : list ScrapedSource) :
  scraped_in_order E urls1 s1 -> scraped_in_order E urls2 s2 ->
  scraped_in_order E (urls1 ++ urls2) (s1 ++ s2).
Proof.
  induction 1; intros H2; simpl; [exact H2 | |].
  - apply scraped_skip. auto.
  - apply scraped_keep; auto.
Qed.

Lemma scrape_chunks_events (chunks : list (list Hit)) (done : list Hit)
      (results : list ScrapedSource) (w : World) :
  scraped_in_order E done results ->
  exists sources,
    scrape_chunks E chunks results w = (Ok sources, extend (scrape_events E chunks) w)
    /\ scraped_in_order E (done ++ concat chunks) sources.
Proof.
  revert done results w.
  induction chunks as [| chunk rest IH]; intros done results w Hdone.
  - exists results. unfold scrape_chunks, ret. simpl. rewrite extend_nil, app_nil_r.
    split; [reflexivity | exact Hdone].
  - simpl. unfold bind at 1.
    destruct (scrape_chunk_events chunk w) as (rs & Hrun & Hrs).
    rewrite Hrun. unfold bind at 1. unfold sleep.
    destruct (IH (done ++ chunk) (results ++ omap id rs)
                 (emit (EvSleep 500) (extend (flat_map (page_events E) chunk) w)))
      as (sources & Hrest & Hsources).
    { apply scraped_in_order_app; assumption. }
    rewrite Hrest. exists sources.
    rewrite emit_extend, !extend_extend, <- !app_assoc.
    split; [reflexivity |].
    rewrite <- app_assoc in Hsources. exact Hsources.
Qed.

Lemma fetched_urls_app (a b : list Event) :
  fetched_urls (a ++ b) = fetched_urls a ++ fetched_urls b.
Proof. unfold fetched_urls. apply omap_app. Qed.

Lemma pauses_app (a b : list Event) : pauses (a ++ b) = pauses a ++ pauses b.
Proof. unfold pauses. apply omap_app. Qed.

Lemma fetched_urls_pages (urls : list Hit) :
  fetched_urls (flat_map (page_events E) urls)
  = List.filter (isAllowedDomain E) (map hit_url urls).
Proof.
  induction urls as [| u urls IH]; [reflexivity |].
  simpl. rewrite fetched_urls_app, IH. unfold page_events.
  destruct (isAllowedDomain E (hit_url u)); reflexivity.
Qed.

Lemma pauses_pages (urls : list Hit) : pauses (flat_map (page_events E) urls) = [].
Proof.
  induction urls as [| u urls IH]; [reflexivity |].
  simpl. rewrite pauses_app, IH. unfold page_events.
  destruct (isAllowedDomain E (hit_url u)); reflexivity.
Qed.

Lemma fetched_urls_scrape (chunks : list (list Hit)) :
  fetched_urls (scrape_events E chunks)
  = List.filter (isAllowedDomain E) (map hit_url (concat chunks)).
Proof.
  induction chunks as [| chunk rest IH]; [reflexivity |].
  simpl. rewrite !fetched_urls_app, IH, fetched_urls_pages.
  rewrite map_app, List.filter_app.
  change (fetched_urls [EvSleep 500]) with (@nil string).
  rewrite app_nil_r. reflexivity.
Qed.

Lemma pauses_scrape (chunks : list (list Hit)) :
  pauses (scrape_events E chunks) = replicate (length chunks) 500.
Proof.
  induction chunks as [| chunk rest IH]; [reflexivity |].
  simpl. rewrite !pauses_app, IH, pauses_pages. reflexivity.
Qed.

Lemma scraped_in_order_urls (urls : list Hit) (sources : list ScrapedSource) :
  scraped_in_order E urls sources ->
  sublist (map src_url sources) (List.filter (isAllowedDomain E) (map hit_url urls)).
Proof.
  induction 1 as [| u urls sources _ IH | u urls s sources Hfrom _ IH]; simpl.
  - constructor.
  - destruct (isAllowedDomain E (hit_url u)); [apply sublist_cons |]; exact IH.
  - destruct Hfrom as (-> & _ & _ & ->). apply sublist_skip, IH.
Qed.

Lemma scrapeContent_events (urls : list Hit) (w : World) :
  0 < cfg_maxConcurrentScrapes E ->
  exists sources chunks,
    chunkArray urls (cfg_maxConcurrentScrapes E) = Some chunks
    /\ concat chunks = urls
    /\ scrapeContent E urls w = (Ok sources, extend (scrape_events E chunks) w)
    /\ scraped_in_order E urls sources.
Proof.
  intros Hpos. unfold scrapeContent.
  destruct (chunkArray_total urls (cfg_maxConcurrentScrapes E) Hpos)
    as (chunks & Hrun & _).
  assert (Hsize : (0 < Z.to_nat (cfg_maxConcurrentScrapes E))%nat) by lia.
  destruct (chunk_loop_shape (length urls) _ urls chunks Hsize Hrun) as (Hconcat & _).
  rewrite Hrun.
  destruct (scrape_chunks_events chunks [] [] w (scraped_nil E)) as (sources & Hs & Hord).
  exists sources, chunks. rewrite Hconcat in Hord. auto.
Qed.

(** X8 — with a positive concurrency [scrapeContent] returns; it fetches
    exactly the URLs of the hits the domain filter lets pass, each as
    often as it stands among the hits and in their order, pauses 500 ms
    once per chunk, and the sources it returns are scraped from hits in
    the order of the hits, at most one from each. *)
Theorem scrapeContent_trace (urls : list Hit) (w : World) :
  0 < cfg_maxConcurrentScrapes E ->
  exists sources events chunks,
    scrapeContent E urls w = (Ok sources, extend events w)
    /\ chunkArray urls (cfg_maxConcurrentScrapes E) = Some chunks
    /\ fetched_urls events = List.filter (isAllowedDomain E) (map hit_url urls)
    /\ pauses events = replicate (length chunks) 500
    /\ scraped_in_order E urls sources
    /\ sublist (map src_url sources) (fetched_urls events).
Proof.
  intros Hpos.
  destruct (scrapeContent_events urls w Hpos) as (sources & chunks & Hc & Hcat & Hrun & Hord).
  exists sources, (scrape_events E chunks), chunks.
  split; [exact Hrun |]. split; [exact Hc |].
  rewrite fetched_urls_scrape, Hcat.
  split; [reflexivity |]. split; [apply pauses_scrape |]. split; [exact Hord |].
  apply scraped_in_order_urls, Hord.
Qed.

Lemma fetched_urls_multiSearch (budget : Z) (terms : list string) :
  fetched_urls (multiSearch_events budget terms) = [].
Proof. induction terms as [| t terms IH]; [reflexivity | exact IH]. Qed.

Lemma NoDup_list_filter {A} (f : A -> bool) (l : list A) :
  NoDup l -> NoDup (List.filter f l).
Proof.
  induction 1 as [| x l Hx _ IH]; simpl; [constructor |].
  destruct (f x); [| exact IH]. constructor; [| exact IH].
  intros Hin. apply Hx. apply list_elem_of_In in Hin.
  apply List.filter_In in Hin as [Hin _]. apply list_elem_of_In, Hin.
Qed.

(** X9 — without advanced mode, and with a positive concurrency, the
    retrieval phase returns, fetches no URL twice and returns no two
    sources with the same URL. *)
Theorem plain_search_fetches_once (searchTerms : list string) (maxResults : option Z)
        (w : World) :
  0 < cfg_maxConcurrentScrapes E ->
  exists web events,
    Orchestrator.performWebSearch E searchTerms maxResults (Some false) w
    = (Ok web, extend events w)
    /\ NoDup (fetched_urls events)
    /\ NoDup (map src_url (wr_sources web))
    /\ search_calls events
       = map (fun term => (term, default (cfg_maxResults E) maxResults)) searchTerms.
Proof.
  intros Hpos. unfold Orchestrator.performWebSearch, try_catch. unfold bind at 1.
  simpl default at 2.
  destruct (searchPhase_plain_unique E searchTerms
              (default (cfg_maxResults E) maxResults) w) as (hits & Hsearch & Hnodup).
  rewrite Hsearch. unfold bind.
  destruct (scrapeContent_events hits
              (extend (multiSearch_events (default (cfg_maxResults E) maxResults)
                                          searchTerms) w) Hpos)
    as (sources & chunks & _ & Hcat & Hrun & Hord).
  rewrite Hrun. unfold ret. do 2 eexists.
  rewrite extend_extend. split; [reflexivity |]. simpl.
  rewrite fetched_urls_app, fetched_urls_multiSearch, fetched_urls_scrape, Hcat.
  assert (Hfetched : NoDup (List.filter (isAllowedDomain E) (map hit_url hits)))
    by apply NoDup_list_filter, Hnodup.
  split; [exact Hfetched |]. split.
  - apply (sublist_NoDup _ _ Hfetched (scraped_in_order_urls _ _ Hord)).
  - rewrite search_calls_app, search_calls_multiSearch_events.
    assert (Hnone : forall cs, search_calls (scrape_events E cs) = []).
    { intros cs. induction cs as [| c cs IH]; [reflexivity |].
      simpl. rewrite !search_calls_app, IH.
      assert (Hpages : search_calls (flat_map (page_events E) c) = []).
      { induction c as [| u c IHc]; [reflexivity |].
        simpl. rewrite search_calls_app, IHc. unfold page_events.
        destruct (isAllowedDomain E (hit_url u)); reflexivity. }
      rewrite Hpages. reflexivity. }
    rewrite Hnone, app_nil_r. reflexivity.
Qed.

End ScrapeTrace.

Lemma scrapeContent_trace_witness :
  0 < cfg_maxConcurrentScrapes fetchingEnv
  /\ exists sources events,
      scrapeContent fetchingEnv [article_hit; blocked_hit; article_hit] initial_world
      = (Ok sources, extend events initial_world)
      /\ fetched_urls events = [hit_url article_hit; hit_url article_hit].
Proof.
  assert (Hpos : 0 < cfg_maxConcurrentScrapes fetchingEnv) by (vm_compute; reflexivity).
  split; [exact Hpos |].
  destruct (scrapeContent_trace fetchingEnv [article_hit; blocked_hit; article_hit]
              initial_world Hpos)
    as (sources & events & chunks & Hrun & _ & Hfetched & _).
  exists sources, events. split; [exact Hrun |]. rewrite Hfetched. reflexivity.
Defined.

Lemma plain_search_fetches_once_witness :
  0 < cfg_maxConcurrentScrapes sampleEnv
  /\ exists web events,
      Orchestrator.performWebSearch sampleEnv ["rocq"; "coq"] (Some 4) (Some false)
                                    initial_world
      = (Ok web, extend events initial_world)
      /\ NoDup (fetched_urls events).
Proof.
  assert (Hpos : 0 < cfg_maxConcurrentScrapes sampleEnv) by (vm_compute; reflexivity).
  split; [exact Hpos |].
  destruct (plain_search_fetches_once sampleEnv ["rocq"; "coq"] (Some 4)
              initial_world Hpos) as (web & events & Hrun & Hnodup & _).
  exists web, events. auto.
Defined.

(** ** The fields of a scraped source *)

Section SourceFields.

Variable E : Env.

Lemma cleanContent_shape (content : string) :
  single_spaced true (cleanContent content)
  /\ Text.trim_end (cleanContent content) = cleanContent content.
Proof.
  rewrite cleanContent_collapse. unfold Text.trim. split.
  - apply trim_end_single_spaced, (trim_start_single_spaced _ false),
      collapse_single_spaced.
  - apply trim_end_idempotent.
Qed.

Lemma substring0_length (n : nat) (s : string) :
  String.length (String.substring 0 n s) = Nat.min n (String.length s).
Proof.
  revert n. induction s as [| c s IH]; intros [| n]; simpl; try reflexivity.
  rewrite IH. reflexivity.
Qed.

Lemma substring0_split (n : nat) (s : string) :
  exists rest, s = String.substring 0 n s +:+ rest.
Proof.
  revert n. induction s as [| c s IH]; intros [| n]; simpl.
  - exists EmptyString. reflexivity.
  - exists EmptyString. reflexivity.
  - exists (String c s). reflexivity.
  - destruct (IH n) as [rest Hrest]. exists rest.
    change (String c s = String c (String.substring 0 n s +:+ rest)).
    f_equal. exact Hrest.
Qed.

Lemma trim_end_tail (c : ascii) (s : string) :
  Text.trim_end (String c s) = String c s ->
  Text.trim_end s = s /\ (Text.is_space c = true -> s <> EmptyString).
Proof.
  simpl. destruct (Text.trim_end s) as [| a r] eqn:Ht.
  - destruct (Text.is_space c); [discriminate |].
    intros Heq. injection Heq as <-. split; [reflexivity | discriminate].
  - intros Heq. injection Heq as <-. split; [reflexivity | discriminate].
Qed.

Lemma count_runs_start (s : string) :
  single_spaced true s -> Text.count_runs true s = Text.count_runs false s.
Proof.
  destruct s as [| c s]; [reflexivity |]. simpl.
  destruct (Text.is_space c); [intros (_ & Habs & _); discriminate | reflexivity].
Qed.

(** In a normalized text the words and the single spaces between them
    alternate. *)
Lemma words_bound (s : string) :
  (single_spaced false s -> Text.trim_end s = s ->
   (2 * Text.count_runs false s <= String.length s)%nat)
  /\ (single_spaced true s -> Text.trim_end s = s -> s <> EmptyString ->
      (2 * Text.count_runs false s + 1 <= String.length s)%nat).
Proof.
  induction s as [| c s [IHloose IHtight]].
  - split; [simpl; lia | intros _ _ Hne; contradiction].
  - split.
    + intros Hs Ht. apply trim_end_tail in Ht as [Ht Hne]. simpl in Hs |- *.
      destruct (Text.is_space c).
      * destruct Hs as (_ & _ & Hs). rewrite (count_runs_start s Hs).
        specialize (IHtight Hs Ht (Hne eq_refl)). lia.
      * specialize (IHloose Hs Ht). lia.
    + intros Hs Ht _. apply trim_end_tail in Ht as [Ht _]. simpl in Hs |- *.
      destruct (Text.is_space c); [destruct Hs as (_ & Habs & _); discriminate |].
      specialize (IHloose Hs Ht). lia.
Qed.

(** X10 — a source that [scrapePage] yields comes from the one fetch of
    the hit's URL; its content is the beginning of the normalized content
    of the page, cut at [maxContentLength] characters, while its
    [contentLength] and [wordCount] are those of the content before the
    cut; the words number at least one and at most half the characters,
    rounded up; the title is cut at 500 characters and the description at
    1000. *)
Theorem scrapePage_fields (urlInfo : Hit) (w w' : World) (source : ScrapedSource) :
  scrapePage E urlInfo w = (Ok (Some source), w') ->
  exists page rest,
    http_get E (trace w) (hit_url urlInfo) = inr page
    /\ w' = extend [EvFetch (hit_url urlInfo)] w
    /\ cleanContent (extractContent page) = src_content source +:+ rest
    /\ String.length (src_content source)
       = Nat.min (src_contentLength source) (Z.to_nat (cfg_maxContentLength E))
    /\ src_contentLength source = String.length (cleanContent (extractContent page))
    /\ src_wordCount source = Text.split_length (cleanContent (extractContent page))
    /\ (1 <= src_wordCount source)%nat
    /\ (2 * src_wordCount source <= src_contentLength source + 1)%nat
    /\ (String.length (src_title source) <= 500)%nat
    /\ (String.length (src_description source) <= 1000)%nat.
Proof.
  unfold scrapePage, try_catch.
  destruct (isAllowedDomain E (hit_url urlInfo)); simpl; [| unfold ret; discriminate].
  unfold bind at 1. unfold scrapeClient_get. rewrite emit_extend.
  destruct (http_get E (trace w) (hit_url urlInfo)) as [message | page];
    [unfold ret; discriminate |].
  destruct (String.length (cleanContent (extractContent page)) <? 100)%nat eqn:Hlen;
    [unfold ret; discriminate |].
  apply Nat.ltb_ge in Hlen.
  destruct (URL_hostname E (hit_url urlInfo)) as [domain |];
    [| unfold throw, ret; discriminate].
  unfold bind, clock, ret. intros Heq. injection Heq as <- <-.
  set (content := cleanContent (extractContent page)) in *.
  destruct (substring0_split (Z.to_nat (cfg_maxContentLength E)) content) as [rest Hrest].
  exists page, rest. simpl. unfold JS.substring0. rewrite !substring0_length.
  destruct (cleanContent_shape (extractContent page)) as [Hsingle Htrim].
  fold content in Hsingle, Htrim.
  assert (Hne : content <> EmptyString).
  { intros Hnil. rewrite Hnil in Hlen. simpl in Hlen. lia. }
  pose proof (proj2 (words_bound content) Hsingle Htrim Hne) as Hwords.
  unfold Text.split_length.
  repeat split; try reflexivity; try lia. exact Hrest.
Qed.

End SourceFields.

Lemma scrapePage_fields_witness :
  exists source w',
    scrapePage fetchingEnv article_hit initial_world = (Ok (Some source), w')
    /\ src_contentLength source = 122%nat
    /\ (2 * src_wordCount source <= src_contentLength source + 1)%nat.
Proof.
  do 2 eexists. split; [reflexivity |].
  split; [reflexivity |].
  destruct (scrapePage_fields fetchingEnv article_hit initial_world _ _ eq_refl)
    as (page & rest & _ & _ & _ & _ & _ & _ & _ & Hwords & _).
  exact Hwords.
Defined.

(** ** Patterns match anywhere in a host *)

Section Unanchored.

Variable E : Env.

Lemma compile_app (a b : string) :
  Glob.compile (a +:+ b) = Glob.compile a ++ Glob.compile b.
Proof. induction a as [| c a IH]; simpl; [reflexivity | by rewrite IH]. Qed.

Lemma match_here_literal (literal : string) (r : list Glob.Atom) (text : string) :
  star_free literal = true ->
  Glob.match_here r text = true ->
  Glob.match_here (Glob.compile literal ++ r) (literal +:+ text) = true.
Proof.
  intros Hfree Hmatch. induction literal as [| c literal IH]; [exact Hmatch |].
  simpl in Hfree. apply andb_true_iff in Hfree as [Hc Hfree].
  apply negb_true_iff in Hc. specialize (IH Hfree).
  simpl. rewrite Hc. destruct (Ascii.eqb c ".") eqn:Hdot; simpl.
  - apply Ascii.eqb_eq in Hdot. subst c. exact IH.
  - rewrite Ascii.eqb_refl. exact IH.
Qed.

Lemma includes_star_suffix (literal : string) :
  JS.includes "*" (literal +:+ ".*") = true.
Proof.
  induction literal as [| c literal IH]; [reflexivity |].
  change (String c literal +:+ ".*") with (String c (literal +:+ ".*")).
  rewrite includes_cons, IH. apply orb_true_r.
Qed.

Lemma prefix_append (pattern after_ : string) :
  String.prefix pattern (pattern +:+ after_) = true.
Proof.
  induction pattern as [| c pattern IH]; [destruct after_; reflexivity |].
  change (String c pattern +:+ after_) with (String c (pattern +:+ after_)).
  rewrite prefix_same_head. exact IH.
Qed.

Lemma trailing_glob_matches (literal before_ after_ : string) (c : ascii) :
  star_free literal = true ->
  Text.is_line_terminator c = false ->
  Glob.pattern_matches (literal +:+ ".*") (before_ +:+ literal +:+ String c after_) = true.
Proof.
  intros Hfree Hc. unfold Glob.pattern_matches.
  rewrite includes_star_suffix, compile_app.
  apply test_anywhere, match_here_literal; [exact Hfree |].
  simpl. rewrite Hc. destruct after_; reflexivity.
Qed.

(** X11 — the patterns of [blockedDomains] are not anchored.  A pattern
    without a star refuses every URL whose host contains it anywhere; a
    pattern that ends in [.*] refuses every URL whose host contains the
    part before it followed by one more character, whichever it is,
    since the dot of the pattern is not escaped. *)
Theorem blocked_pattern_anywhere (url pattern before_ after_ : string) :
  pattern ∈ cfg_blockedDomains E ->
  (JS.includes "*" pattern = false ->
   URL_hostname E url = Some (before_ +:+ pattern +:+ after_) ->
   isAllowedDomain E url = false)
  /\ (forall literal c,
         pattern = literal +:+ ".*" ->
         star_free literal = true ->
         Text.is_line_terminator c = false ->
         URL_hostname E url = Some (before_ +:+ literal +:+ String c after_) ->
         isAllowedDomain E url = false).
Proof.
  intros Hin. split.
  - intros Hplain Hhost. apply (blocked_not_allowed E _ _ pattern Hhost Hin).
    unfold Glob.pattern_matches. rewrite Hplain.
    apply includes_anywhere, prefix_append.
  - intros literal c -> Hfree Hc Hhost.
    apply (blocked_not_allowed E _ _ _ Hhost Hin).
    apply trailing_glob_matches; assumption.
Qed.

End Unanchored.

Lemma blocked_pattern_anywhere_witness :
  "localhost" ∈ cfg_blockedDomains sampleEnv
  /\ "10.*" ∈ cfg_blockedDomains sampleEnv
  /\ isAllowedDomain sampleEnv "notlocalhost.example.com" = false
  /\ isAllowedDomain sampleEnv "web100.example.org" = false.
Proof.
  assert (Hlocal : "localhost" ∈ cfg_blockedDomains sampleEnv) by (simpl; left).
  assert (Hten : "10.*" ∈ cfg_blockedDomains sampleEnv) by (simpl; do 2 right; left).
  split; [exact Hlocal |]. split; [exact Hten |]. split.
  - apply (proj1 (blocked_pattern_anywhere sampleEnv "notlocalhost.example.com"
                    "localhost" "not" ".example.com" Hlocal)); reflexivity.
  - apply (proj2 (blocked_pattern_anywhere sampleEnv "web100.example.org"
                    "10.*" "web" ".example.org" Hten) "10" "0"%char); reflexivity.
Defined.

(** ** Counting without the tie order *)

Section Counts.

(** Off the names of [Object.prototype] the object counts as a map in
    insertion order would, index keys included. *)
Lemma count_all_tally (items : list string) :
  Forall (fun x => Counter.inherited x = false) items ->
  Counter.count_all items = tally items.
Proof.
  induction items as [| x items IH] using rev_ind; intros Hown; [reflexivity |].
  apply Forall_app in Hown as [Hitems Hx].
  rewrite Forall_singleton in Hx.
  unfold Counter.count_all in *. rewrite fold_left_app. simpl.
  rewrite (IH Hitems). unfold tally, Counter.bump.
  rewrite (own_map_key (fun y => Counter.Times (occurrences y items))).
  rewrite first_seen_snoc.
  destruct (decide (x ∈ first_seen items)) as [Hin | Hnot].
  - rewrite <- (set_own_map_key
                  (fun y => Counter.Times (occurrences y items))
                  (fun y => Counter.Times (occurrences y (items ++ [x])))
                  (first_seen items) x (NoDup_first_seen items)).
    + f_equal. rewrite occurrences_snoc. destruct (decide (x = x)); [| contradiction].
      f_equal. lia.
    + intros y Hy. rewrite occurrences_snoc.
      destruct (decide (x = y)); [congruence |]. f_equal. lia.
  - rewrite Hx, map_app. simpl. f_equal.
    + apply map_ext_in. intros y Hy. rewrite occurrences_snoc.
      destruct (decide (x = y)) as [-> | _]; [| f_equal; f_equal; lia].
      exfalso. apply Hnot, list_elem_of_In, Hy.
    + rewrite occurrences_snoc. destruct (decide (x = x)); [| contradiction].
      assert (Hzero : occurrences x items = O).
      { destruct (occurrences x items) eqn:Hocc; [reflexivity |].
        exfalso. apply Hnot, elem_of_first_seen.
        unfold occurrences in Hocc.
        destruct (filter (fun y => y = x) items) as [| z rest] eqn:Hf; [discriminate |].
        assert (Hz : z ∈ filter (fun y => y = x) items) by (rewrite Hf; left).
        apply list_elem_of_filter in Hz as [-> Hz]. exact Hz. }
      rewrite Hzero. reflexivity.
Qed.

Lemma insert_index_perm (e : N * (string * Counter.Count))
      (l : list (N * (string * Counter.Count))) :
  Counter.insert_index e l ≡ₚ e :: l.
Proof.
  induction l as [| e' l IH]; simpl; [reflexivity |].
  destruct (fst e <? fst e')%N; [reflexivity |].
  rewrite IH. apply Permutation_swap.
Qed.

(** [Object.entries] lists every own property once, whatever the order. *)
Lemma entries_perm (o : Counter.t) : Counter.entries o ≡ₚ o.
Proof.
  unfold Counter.entries.
  assert (Hsorted : foldr Counter.insert_index [] (Counter.index_entries o)
                    ≡ₚ Counter.index_entries o).
  { induction (Counter.index_entries o) as [| e l IH]; simpl; [reflexivity |].
    rewrite insert_index_perm, IH. reflexivity. }
  rewrite map_fmap, Hsorted. clear Hsorted. unfold Counter.index_entries.
  induction o as [| kv o IH]; [reflexivity |].
  simpl. destruct (Counter.array_index (fst kv)) as [i |] eqn:Hindex; simpl.
  - rewrite filter_cons_False by (rewrite Hindex; discriminate).
    constructor. exact IH.
  - rewrite filter_cons_True by exact Hindex.
    rewrite <- Permutation_middle. constructor. exact IH.
Qed.

Lemma slice0_prefix {A} (l : list A) (n : Z) : exists m, JS.slice0 l n = take m l.
Proof. unfold JS.slice0. destruct (n <? 0); eexists; reflexivity. Qed.

Lemma slice0_same_length {A B} (l : list A) (l' : list B) (n : Z) :
  length l = length l' -> length (JS.slice0 l n) = length (JS.slice0 l' n).
Proof.
  intros Hlen. unfold JS.slice0. rewrite Hlen.
  destruct (n <? 0); rewrite !length_take; lia.
Qed.

Lemma getTopItems_sorted (items : list string) (limit : Z) :
  Forall (fun x => Counter.inherited x = false) items ->
  exists sorted m,
    Orchestrator.getTopItems items limit = take m sorted
    /\ JS.slice0 sorted limit = take m sorted
    /\ sorted ≡ₚ tally items
    /\ pairwise (fun a b => (times b <= times a)%nat) sorted.
Proof.
  intros Hown. unfold Orchestrator.getTopItems.
  rewrite (count_all_tally items Hown).
  set (sorted := Counter.sort_desc (Counter.entries (tally items))).
  destruct (slice0_prefix sorted limit) as [m Hm].
  exists sorted, m. split; [exact Hm |]. split; [exact Hm |]. split.
  - unfold sorted. rewrite sort_desc_perm. apply entries_perm.
  - eapply pairwise_impl; [| apply sort_desc_pairwise].
    + intros a b. apply above_times.
    + rewrite entries_perm. apply tally_numeric.
Qed.

(** X12 — whenever no item is a property name of [Object.prototype],
    [getTopItems] lists distinct items, each with the exact number of its
    occurrences, in descending order of count; it keeps as many entries
    as [slice(0, limit)] keeps of the distinct items, and no item it
    leaves out occurs more often than one it keeps.  Items that are array
    indices change the order among equal counts only. *)
Theorem getTopItems_counts (items : list string) (limit : Z) :
  Forall (fun x => Counter.inherited x = false) items ->
  let out := Orchestrator.getTopItems items limit in
  NoDup (map fst out)
  /\ (forall x c, (x, c) ∈ out ->
                  x ∈ items /\ c = Counter.Times (occurrences x items))
  /\ (forall i j a b, (i < j)%nat -> out !! i = Some a -> out !! j = Some b ->
                      (times b <= times a)%nat)
  /\ length out = length (JS.slice0 (first_seen items) limit)
  /\ (forall z a, z ∈ items -> z ∉ map fst out -> a ∈ out ->
                  (occurrences z items <= times a)%nat).
Proof.
  intros Hown out.
  destruct (getTopItems_sorted items limit Hown) as (sorted & m & Hout & Hslice & Hperm & Hpw).
  fold out in Hout.
  assert (Hsub : forall a, a ∈ out -> a ∈ tally items).
  { intros a Ha. rewrite <- Hperm. rewrite Hout in Ha.
    apply (subseteq_take m sorted), Ha. }
  assert (Hnodup : NoDup (map fst sorted)).
  { rewrite Hperm, tally_keys. apply NoDup_first_seen. }
  split; [| split; [| split; [| split]]].
  - rewrite Hout. rewrite <- (take_drop m sorted), map_app in Hnodup.
    apply NoDup_app in Hnodup. tauto.
  - intros x c Hin. apply Hsub, tally_elem in Hin. simpl in Hin. tauto.
  - intros i j a b Hij Hi Hj. rewrite Hout in Hi, Hj.
    apply (pairwise_lookup (fun a b => (times b <= times a)%nat)
                           (take m sorted) i j a b);
      [apply pairwise_take, Hpw | exact Hij | exact Hi | exact Hj].
  - rewrite Hout, <- Hslice. apply slice0_same_length.
    rewrite Hperm. unfold tally. apply length_map.
  - intros z a Hz Hleft Ha.
    assert (Hzt : (z, Counter.Times (occurrences z items)) ∈ tally items).
    { unfold tally. rewrite map_fmap.
      apply (list_elem_of_fmap_2 (fun x => (x, Counter.Times (occurrences x items)))).
      apply elem_of_first_seen, Hz. }
    assert (Hzd : (z, Counter.Times (occurrences z items)) ∈ drop m sorted).
    { rewrite <- Hperm, <- (take_drop m sorted) in Hzt.
      apply elem_of_app in Hzt as [Htake | Hdrop]; [| exact Hdrop].
      exfalso. apply Hleft. rewrite Hout, map_fmap.
      apply (list_elem_of_fmap_2 fst) in Htake. exact Htake. }
    rewrite <- (take_drop m sorted) in Hpw.
    apply pairwise_app in Hpw as (_ & _ & Hcross).
    rewrite Hout in Ha.
    apply (Hcross a (z, Counter.Times (occurrences z items)) Ha Hzd).
Qed.

End Counts.

Lemma getTopItems_counts_witness :
  Forall (fun x => Counter.inherited x = false) ["b"; "2"; "b"; "1"; "2"; "b"]
  /\ Orchestrator.getTopItems ["b"; "2"; "b"; "1"; "2"; "b"] 2
     = [("b", Counter.Times 3); ("2", Counter.Times 2)]
  /\ length (Orchestrator.getTopItems ["b"; "2"; "b"; "1"; "2"; "b"] 2)
     = length (JS.slice0 (first_seen ["b"; "2"; "b"; "1"; "2"; "b"]) 2).
Proof.
  assert (Hown : Forall (fun x => Counter.inherited x = false)
                        ["b"; "2"; "b"; "1"; "2"; "b"]).
  { repeat constructor. }
  split; [exact Hown |]. split; [reflexivity |].
  exact (proj1 (proj2 (proj2 (proj2
           (getTopItems_counts ["b"; "2"; "b"; "1"; "2"; "b"] 2 Hown))))).
Defined.

(** ** Statistics of the retrieval phase *)

Section Stats.

Lemma fold_left_bump (results : list ScrapedSource) (o : Counter.t) :
  fold_left (fun o result =>
               Counter.bump o (if JS.truthy (src_domain result)
                               then src_domain result else "unknown")) results o
  = fold_left Counter.bump (map domain_name results) o.
Proof.
  revert o. induction results as [| r results IH]; intros o; [reflexivity |].
  simpl. apply IH.
Qed.

Lemma fold_left_sum (f : ScrapedSource -> nat) (results : list ScrapedSource) (n : nat) :
  fold_left (fun n result => (n + f result)%nat) results n
  = (n + list_sum (map f results))%nat.
Proof.
  revert n. induction results as [| r results IH]; intros n; simpl; [lia |].
  rewrite IH. lia.
Qed.

(** X13 — the statistics of [getSearchStats]: as many results as
    sources, the words summed over the sources, and the domain ranking
    that [getTopItems] gives for the domains of the sources in their
    order, a source without domain counted under the name unknown.  With
    no source the average content length is not a number; otherwise it is
    the mean rounded to the nearest integer, halves upwards.  When no
    domain is a property name of [Object.prototype], every domain is held
    with the exact number of its sources. *)
Theorem getSearchStats_totals (results : list ScrapedSource) :
  let stats := getSearchStats results in
  let names := map domain_name results in
  totalResults stats = length results
  /\ totalWords stats = total_words results
  /\ domains stats = Counter.count_all names
  /\ topDomains stats = Orchestrator.getTopItems names 10
  /\ (results = [] -> averageContentLength stats = None)
  /\ (results <> [] ->
      exists mean,
        averageContentLength stats = Some mean
        /\ 2 * Z.of_nat (length results) * mean - Z.of_nat (length results)
           <= 2 * Z.of_nat (total_content_length results)
           < 2 * Z.of_nat (length results) * mean + Z.of_nat (length results))
  /\ (Forall (fun x => Counter.inherited x = false) names ->
      forall domain,
        Counter.own (domains stats) domain
        = if decide (domain ∈ names)
          then Some (Counter.Times (occurrences domain names))
          else None).
Proof.
  intros stats names.
  assert (Hdomains : domains stats = Counter.count_all names).
  { unfold stats, getSearchStats, Counter.count_all. simpl. apply fold_left_bump. }
  split; [reflexivity |]. split; [| split; [exact Hdomains | split; [| split; [| split]]]].
  - unfold stats, getSearchStats. simpl. apply (fold_left_sum src_wordCount).
  - unfold stats, getSearchStats, Orchestrator.getTopItems, Counter.count_all. simpl.
    rewrite fold_left_bump. reflexivity.
  - intros ->. reflexivity.
  - intros Hne. unfold stats, getSearchStats. simpl.
    rewrite (fold_left_sum src_contentLength). simpl.
    fold (total_content_length results).
    destruct (length results) as [| n] eqn:Hlen;
      [destruct results; [contradiction | discriminate] |].
    eexists. split; [reflexivity |].
    generalize (Z.of_nat (total_content_length results)). intros total.
    assert (Hpos : 0 < Z.of_nat (S n)) by lia.
    generalize dependent (Z.of_nat (S n)). intros count Hpos.
    assert (Hd : 0 < 2 * count) by lia.
    pose proof (Z.mul_div_le (2 * total + count) (2 * count) Hd) as Hlow.
    pose proof (Z.mul_succ_div_gt (2 * total + count) (2 * count) Hd) as Hhigh.
    nia.
  - intros Hown domain. rewrite Hdomains, (count_all_tally names Hown).
    unfold tally.
    rewrite (own_map_key (fun y => Counter.Times (occurrences y names))).
    destruct (decide (domain ∈ first_seen names)) as [Hin | Hnot];
      destruct (decide (domain ∈ names)) as [Hin' | Hnot']; try reflexivity.
    + exfalso. apply Hnot', elem_of_first_seen, Hin.
    + exfalso. apply Hnot, elem_of_first_seen, Hin'.
Qed.

End Stats.

Lemma getSearchStats_totals_witness :
  let results := [source_at "a.org" 101 20; source_at "b.org" 200 30;
                  source_at "a.org" 300 40] in
  results <> []
  /\ Forall (fun x => Counter.inherited x = false) (map domain_name results)
  /\ (exists mean,
         averageContentLength (getSearchStats results) = Some mean
         /\ 2 * 3 * mean - 3 <= 2 * 601 < 2 * 3 * mean + 3)
  /\ Counter.own (domains (getSearchStats results)) "a.org" = Some (Counter.Times 2).
Proof.
  intros results.
  assert (Hne : results <> []) by discriminate.
  assert (Hown : Forall (fun x => Counter.inherited x = false) (map domain_name results)).
  { repeat constructor. }
  destruct (getSearchStats_totals results) as (_ & _ & _ & _ & _ & Hmean & Hcount).
  split; [exact Hne |]. split; [exact Hown |]. split.
  - exact (Hmean Hne).
  - exact (Hcount Hown "a.org").
Defined.

(** ** Terms taken from an answer without JSON *)

Section FallbackTerms.

Lemma set_add_NoDup (terms : list string) (term : string) :
  NoDup terms -> NoDup (LLMService.set_add terms term).
Proof.
  intros Hnodup. unfold LLMService.set_add.
  destruct (decide (term ∈ terms)) as [Hin | Hnot]; [exact Hnodup |].
  apply NoDup_app. split; [exact Hnodup |]. split; [| apply NoDup_singleton].
  intros z Hz Hz'. apply list_elem_of_singleton in Hz'. subst z. contradiction.
Qed.

Lemma fallback_fold (matches terms : list string) :
  NoDup terms ->
  let result := fold_left fallback_step matches terms in
  NoDup result
  /\ (exists extra, result = terms ++ extra)
  /\ (forall t, t ∈ result -> t ∈ terms \/ exists m, m ∈ matches /\ t = Text.trim m).
Proof.
  revert terms. induction matches as [| m rest IH]; intros terms Hnodup.
  - simpl. split; [exact Hnodup |]. split; [exists []; by rewrite app_nil_r | auto].
  - simpl.
    assert (Hstep : NoDup (fallback_step terms m)
                    /\ (exists extra, fallback_step terms m = terms ++ extra)
                    /\ (forall t, t ∈ fallback_step terms m ->
                                  t ∈ terms \/ t = Text.trim m)).
    { unfold fallback_step.
      destruct ((2 <? String.length (Text.trim m))%nat
                && (String.length (Text.trim m) <? 50)%nat).
      - split; [apply set_add_NoDup, Hnodup |]. unfold LLMService.set_add.
        destruct (decide (Text.trim m ∈ terms)).
        + split; [exists []; by rewrite app_nil_r | auto].
        + split; [eexists; reflexivity |].
          intros t Ht. apply elem_of_app in Ht as [Ht | Ht]; [auto |].
          apply list_elem_of_singleton in Ht. auto.
      - split; [exact Hnodup |]. split; [exists []; by rewrite app_nil_r | auto]. }
    destruct Hstep as (Hnodup' & (extra & Hextra) & Hfrom).
    destruct (IH _ Hnodup') as (Hres & (extra' & Hextra') & Hall).
    split; [exact Hres |]. split.
    + exists (extra ++ extra'). rewrite Hextra', Hextra, app_assoc. reflexivity.
    + intros t Ht. destruct (Hall t Ht) as [Hstep | (m' & Hm' & ->)].
      * destruct (Hfrom t Hstep) as [Hin | ->]; [auto |].
        right. exists m. split; [left | reflexivity].
      * right. exists m'. split; [right; exact Hm' | reflexivity].
Qed.

Lemma quoted_captures (inside : option string) (s : string) :
  (forall acc c, inside = Some acc -> occurs c acc -> LLMService.is_quote c = false) ->
  Forall (fun m => m <> EmptyString
                   /\ forall c, occurs c m -> LLMService.is_quote c = false)
         (LLMService.quoted inside s).
Proof.
  revert inside. induction s as [| c s IH]; intros inside Hinside; [constructor |].
  destruct inside as [[| a acc] |]; simpl.
  - destruct (LLMService.is_quote c) eqn:Hc.
    + apply IH. intros acc' c' Heq. injection Heq as <-. intros [].
    + apply IH. intros acc' c' Heq. injection Heq as <-.
      intros [<- | []]. exact Hc.
  - destruct (LLMService.is_quote c) eqn:Hc.
    + constructor.
      * split; [discriminate |]. intros c'. apply (Hinside _ c' eq_refl).
      * apply IH. intros acc' c' Heq. discriminate.
    + apply IH. intros acc' c' Heq. injection Heq as <-.
      change (String a acc +:+ String c EmptyString)
        with (String a (acc +:+ String c EmptyString)).
      intros [<- | Hocc].
      * apply (Hinside _ a eq_refl). left. reflexivity.
      * apply occurs_app in Hocc as [Hocc | [<- | []]]; [| exact Hc].
        apply (Hinside _ c' eq_refl). right. exact Hocc.
  - destruct (LLMService.is_quote c).
    + apply IH. intros acc' c' Heq. injection Heq as <-. intros [].
    + apply IH. intros acc' c' Heq. discriminate.
Qed.

(** X14 — the terms [extractSearchTermsFallback] takes from an answer:
    the query first, no term twice, every further term the trimmed text
    of a quoted string of the answer; the quoted strings it reads are
    never empty and hold no quote of either kind. *)
Theorem extractSearchTermsFallback_distinct (query response : string) :
  exists terms,
    search_terms (LLMService.extractSearchTermsFallback query response) = TermsArray terms
    /\ NoDup terms
    /\ head terms = Some query
    /\ (forall t, t ∈ terms -> t <> query ->
                  exists m, m ∈ LLMService.quoted None response /\ t = Text.trim m)
    /\ Forall (fun m => m <> EmptyString
                        /\ forall c, occurs c m -> LLMService.is_quote c = false)
              (LLMService.quoted None response).
Proof.
  unfold LLMService.extractSearchTermsFallback. simpl search_terms.
  change (fold_left _ (LLMService.quoted None response) [query])
    with (fold_left fallback_step (LLMService.quoted None response) [query]).
  destruct (fallback_fold (LLMService.quoted None response) [query])
    as (Hnodup & (extra & Hextra) & Hfrom); [apply NoDup_singleton |].
  eexists. split; [reflexivity |].
  rewrite slice0_take by lia.
  split; [| split; [| split]].
  - apply (sublist_NoDup _ _ Hnodup). apply sublist_take.
  - rewrite Hextra. reflexivity.
  - intros t Ht Hne. apply (subseteq_take (Z.to_nat 10)) in Ht.
    destruct (Hfrom t Ht) as [Hin | Hm]; [| exact Hm].
    apply list_elem_of_singleton in Hin. contradiction.
  - apply quoted_captures. intros acc c Heq. discriminate.
Qed.

End FallbackTerms.

(** ** Analysis of one source *)

Section SingleSource.

Variable E : Env.

Lemma analyzeWebContent_value (content query : string) (w : World) :
  LLMService.analyzeWebContent E content query w
  = (Ok (analysis_of E w content), emit (EvGenerate AnalyzeContent content) w).
Proof.
  unfold LLMService.analyzeWebContent, try_catch, bind, LLMService.generateResponse,
    analysis_of.
  destruct (llm_generate E (trace w) AnalyzeContent content) as [message | response];
    [reflexivity |].
  destruct (LLMService.match_braces response) as [jsonMatch |]; [| reflexivity].
  destruct (JSON_parse_analysis E jsonMatch); reflexivity.
Qed.

Lemma resolveEmbedding_settles (source : ScrapedSource) :
  settles (Orchestrator.resolveEmbedding E source).
Proof.
  intros w. unfold Orchestrator.resolveEmbedding, bind at 1, getCachedEmbedding, store_call.
  assert (Hmiss : forall w1,
    fst ((let* generated :=
            try_catch
              (let* r := LLMService.generateEmbedding E
                           (Orchestrator.contentForEmbedding source) in ret (Some r))
              (fun _ => ret None) in
          match generated with
          | Some (embedding, model) =>
            let* _ :=
              try_catch
                (cacheEmbedding E (md5_hex E (Orchestrator.contentForEmbedding source))
                   (JS.substring0 500 (Orchestrator.contentForEmbedding source))
                   embedding model)
                (fun _ => ret tt) in
            ret (Some embedding)
          | None => ret None
          end) w1) <> Hang).
  { intros w1. unfold bind at 1. unfold try_catch at 1. unfold bind at 1.
    unfold LLMService.generateEmbedding.
    destruct (llm_embed E _ _) as [message | embedding]; simpl; [discriminate |].
    unfold bind, try_catch, cacheEmbedding, store_call, ret.
    destruct (store_fault E _); simpl; discriminate. }
  destruct (store_fault E (trace w)) as [| message | message]; simpl.
  - destruct (embeddings_cache (store w) !! _) as [row |]; simpl.
    + destruct (cr_embedding row) as [vector |]; simpl; [discriminate | apply Hmiss].
    + apply Hmiss.
  - discriminate.
  - apply Hmiss.
Qed.

Lemma resolveEmbedding_healthy (source : ScrapedSource) (w : World) :
  healthy E ->
  exists embedding w',
    Orchestrator.resolveEmbedding E source w = (Ok embedding, w')
    /\ cache_only (store w) (store w').
Proof.
  intros Hh. unfold Orchestrator.resolveEmbedding, bind at 1, getCachedEmbedding, store_call.
  rewrite Hh.
  assert (Hmiss : forall w1,
    store w1 = store w ->
    exists embedding w',
      (let* generated :=
         try_catch
           (let* r := LLMService.generateEmbedding E
                        (Orchestrator.contentForEmbedding source) in ret (Some r))
           (fun _ => ret None) in
       match generated with
       | Some (embedding, model) =>
         let* _ :=
           try_catch
             (cacheEmbedding E (md5_hex E (Orchestrator.contentForEmbedding source))
                (JS.substring0 500 (Orchestrator.contentForEmbedding source))
                embedding model)
             (fun _ => ret tt) in
         ret (Some embedding)
       | None => ret None
       end) w1 = (Ok embedding, w')
      /\ cache_only (store w) (store w')).
  { intros w1 Hstore. unfold bind at 1. unfold try_catch at 1. unfold bind at 1.
    unfold LLMService.generateEmbedding.
    destruct (llm_embed E _ _) as [message | embedding]; simpl.
    - unfold ret. do 2 eexists. split; [reflexivity |]. simpl. rewrite Hstore.
      repeat split.
    - unfold bind, try_catch, cacheEmbedding, store_call, ret. rewrite Hh. simpl.
      do 2 eexists. split; [reflexivity |]. simpl. rewrite Hstore. repeat split. }
  simpl.
  destruct (embeddings_cache (store w) !! _) as [row |]; simpl.
  - destruct (cr_embedding row) as [vector |]; simpl.
    + unfold ret. do 2 eexists. split; [reflexivity |]. repeat split.
    + apply Hmiss. reflexivity.
  - apply Hmiss. reflexivity.
Qed.

(** The statements of [analyzeSingleSource] after the embedding. *)
Lemma save_and_finish (source : ScrapedSource) (analysis : Analysis)
      (embedding : option (list Q)) (sessionId : option nat) (w : World) :
  exists r w',
    try_catch
      (let* _ :=
         match sessionId with
         | Some id => saveWebSource E id source (summary analysis) embedding
         | None => ret tt
         end in
       let* processingTime := clock E in
       ret (Some {| ar_source := source;
                    ar_analysis := analysis;
                    ar_embedding := take 10 <$> embedding;
                    ar_processingTime := processingTime |}))
      (fun _ => ret None) w = (Ok r, w')
    /\ (forall result, r = Some result ->
                       ar_source result = source /\ ar_analysis result = analysis
                       /\ ar_embedding result = take 10 <$> embedding)
    /\ (healthy E ->
        (exists result, r = Some result)
        /\ search_sessions (store w') = search_sessions (store w)
        /\ reports (store w') = reports (store w)
        /\ embeddings_cache (store w') = embeddings_cache (store w)
        /\ web_sources (store w')
           = web_sources (store w) ++ saved_rows E sessionId source analysis embedding).
Proof.
  unfold try_catch, bind, clock, ret. destruct sessionId as [id |].
  - unfold saveWebSource, store_call.
    destruct (store_fault E (trace w)) as [| message | message] eqn:Hfault; simpl.
    + do 2 eexists. split; [reflexivity |]. split.
      * intros result Hr. injection Hr as <-. auto.
      * intros _. split; [eexists; reflexivity |]. repeat split.
    + do 2 eexists. split; [reflexivity |]. split; [discriminate |].
      intros Hh. rewrite Hh in Hfault. discriminate.
    + do 2 eexists. split; [reflexivity |]. split; [discriminate |].
      intros Hh. rewrite Hh in Hfault. discriminate.
  - do 2 eexists. split; [reflexivity |]. split.
    + intros result Hr. injection Hr as <-. auto.
    + intros _. split; [eexists; reflexivity |]. simpl. rewrite app_nil_r.
      repeat split.
Qed.

Lemma analyzeSingleSource_settles (query : string) (source : ScrapedSource)
      (wanted : bool) (sessionId : option nat) (w : World) :
  let analysis := analysis_of E w (src_content source) in
  exists r w',
    Orchestrator.analyzeSingleSource E query source wanted sessionId w = (Ok r, w')
    /\ (forall result, r = Some result ->
                       ar_source result = source /\ ar_analysis result = analysis)
    /\ (healthy E ->
        exists result embedding,
          r = Some result
          /\ ar_embedding result = take 10 <$> embedding
          /\ (Orchestrator.embedding_wanted wanted analysis = false -> embedding = None)
          /\ search_sessions (store w') = search_sessions (store w)
          /\ reports (store w') = reports (store w)
          /\ web_sources (store w')
             = web_sources (store w) ++ saved_rows E sessionId source analysis embedding).
Proof.
  intros analysis. unfold Orchestrator.analyzeSingleSource.
  rewrite (try_catch_bind_ok _ _ _ _ _ _
             (analyzeWebContent_value (src_content source) query w)).
  fold analysis.
  set (w1 := emit (EvGenerate AnalyzeContent (src_content source)) w).
  destruct (Orchestrator.embedding_wanted wanted analysis) eqn:Hwanted.
  - destruct (Orchestrator.resolveEmbedding E source w1) as [[embedding | message |] w2]
      eqn:Hres.
    + rewrite (try_catch_bind_ok _ _ _ _ _ _ Hres).
      destruct (save_and_finish source analysis embedding sessionId w2)
        as (r & w' & Hrun & Hsome & Hhealthy).
      exists r, w'. split; [exact Hrun |]. split.
      * intros result Hr. destruct (Hsome result Hr) as (? & ? & ?). auto.
      * intros Hh. destruct (Hhealthy Hh) as ((result & ->) & Hs & Hr & _ & Hw).
        destruct (resolveEmbedding_healthy source w1 Hh)
          as (embedding' & w2' & Hres' & Hs2 & Hw2 & Hr2).
        rewrite Hres in Hres'. injection Hres' as <- <-.
        exists result, embedding.
        destruct (Hsome result eq_refl) as (_ & _ & Hemb).
        split; [reflexivity |]. split; [exact Hemb |]. split; [discriminate |].
        rewrite Hs, Hr, Hw, Hs2, Hw2, Hr2. auto.
    + rewrite (try_catch_bind_throw _ _ _ _ _ _ Hres). unfold ret.
      exists None, w2. split; [reflexivity |]. split; [discriminate |].
      intros Hh. destruct (resolveEmbedding_healthy source w1 Hh) as (? & ? & Hres' & _).
      rewrite Hres in Hres'. discriminate.
    + exfalso. apply (resolveEmbedding_settles source w1). rewrite Hres. reflexivity.
  - assert (Hnone : (@ret (option (list Q)) None) w1 = (Ok None, w1)) by reflexivity.
    rewrite (try_catch_bind_ok _ _ _ _ _ _ Hnone).
    destruct (save_and_finish source analysis None sessionId w1)
      as (r & w' & Hrun & Hsome & Hhealthy).
    exists r, w'. split; [exact Hrun |]. split.
    + intros result Hr. destruct (Hsome result Hr) as (? & ? & ?). auto.
    + intros Hh. destruct (Hhealthy Hh) as ((result & ->) & Hs & Hr & _ & Hw).
      exists result, None. destruct (Hsome result eq_refl) as (_ & _ & Hemb).
      split; [reflexivity |]. split; [exact Hemb |]. split; [reflexivity |].
      rewrite Hs, Hr, Hw. auto.
Qed.

(** X15 — with a store that answers every call, analysing a source
    always yields a result for that source, also when the model is down:
    the analysis is then the default one, whose relevance of 50 passes the
    threshold of the embedding step.  With a session the source is saved
    as one row that holds the full vector, of which the result keeps the
    first ten entries; without one no row is written.  Sessions and
    reports are left alone. *)
Theorem analyzeSingleSource_healthy (query : string) (source : ScrapedSource)
        (wanted : bool) (sessionId : option nat) (w : World) :
  healthy E ->
  exists result embedding w',
    Orchestrator.analyzeSingleSource E query source wanted sessionId w
    = (Ok (Some result), w')
    /\ ar_source result = source
    /\ ar_embedding result = take 10 <$> embedding
    /\ (Orchestrator.embedding_wanted wanted (ar_analysis result) = false ->
        embedding = None)
    /\ (forall message,
           llm_generate E (trace w) AnalyzeContent (src_content source) = inl message ->
           ar_analysis result = LLMService.default_analysis (src_content source)
           /\ Orchestrator.embedding_wanted wanted (ar_analysis result) = wanted)
    /\ search_sessions (store w') = search_sessions (store w)
    /\ reports (store w') = reports (store w)
    /\ web_sources (store w')
       = web_sources (store w)
         ++ saved_rows E sessionId source (ar_analysis result) embedding.
Proof.
  intros Hh.
  destruct (analyzeSingleSource_settles query source wanted sessionId w)
    as (r & w' & Hrun & Hsome & Hhealthy).
  destruct (Hhealthy Hh) as (result & embedding & -> & Hemb & Hskip & Hs & Hr & Hw).
  destruct (Hsome result eq_refl) as [Hsource Hanalysis].
  exists result, embedding, w'. rewrite Hanalysis.
  split; [exact Hrun |]. split; [exact Hsource |]. split; [exact Hemb |].
  split; [exact Hskip |]. split; [| auto].
  intros message Hfail. unfold analysis_of. rewrite Hfail.
  split; [reflexivity |].
  unfold Orchestrator.embedding_wanted. simpl. apply andb_true_r.
Qed.

End SingleSource.

Lemma analyzeSingleSource_healthy_witness :
  healthy sampleEnv
  /\ exists result w',
      Orchestrator.analyzeSingleSource sampleEnv "rocq" sample_source false (Some 0%nat)
                                       initial_world
      = (Ok (Some result), w')
      /\ ar_analysis result = LLMService.default_analysis (src_content sample_source)
      /\ length (web_sources (store w')) = 1%nat.
Proof.
  assert (Hh : healthy sampleEnv) by (intros t; reflexivity).
  split; [exact Hh |].
  destruct (analyzeSingleSource_healthy sampleEnv "rocq" sample_source false (Some 0%nat)
              initial_world Hh)
    as (result & embedding & w' & Hrun & _ & _ & _ & Hdown & _ & _ & Hrows).
  exists result, w'. split; [exact Hrun |]. split.
  - apply (Hdown "connect ECONNREFUSED"). reflexivity.
  - rewrite Hrows. reflexivity.
Defined.

(** ** What a computation leaves of the store *)

Section Stays.

Variable R : Store -> Store -> Prop.
Hypothesis R_refl : forall s, R s s.
Hypothesis R_trans : forall a b c, R a b -> R b c -> R a c.

Lemma stays_ret {A} (a : A) : stays R (ret a).
Proof. intros w. apply R_refl. Qed.

Lemma stays_throw {A} (message : string) : stays R (@throw A message).
Proof. intros w. apply R_refl. Qed.

Lemma stays_sleep (ms : Z) : stays R (sleep ms).
Proof. intros w. apply R_refl. Qed.

Lemma stays_hang {A} : stays R (fun w => (@Hang A, w)).
Proof. intros w. apply R_refl. Qed.

Lemma stays_bind {A B} (m : M A) (k : A -> M B) :
  stays R m -> (forall a, stays R (k a)) -> stays R (bind m k).
Proof.
  intros Hm Hk w. unfold bind. specialize (Hm w).
  destruct (m w) as [[a | message |] w1]; simpl in *; try exact Hm.
  apply (R_trans _ _ _ Hm (Hk a w1)).
Qed.

Lemma stays_try_catch {A} (m : M A) (h : string -> M A) :
  stays R m -> (forall e, stays R (h e)) -> stays R (try_catch m h).
Proof.
  intros Hm Hh w. unfold try_catch. specialize (Hm w).
  destruct (m w) as [[a | message |] w1]; simpl in *; try exact Hm.
  apply (R_trans _ _ _ Hm (Hh message w1)).
Qed.

Variable E : Env.

Lemma stays_clock : stays R (clock E).
Proof. intros w. apply R_refl. Qed.

Lemma stays_generateResponse (task : LLMTask) (text : string) :
  stays R (LLMService.generateResponse E task text).
Proof.
  intros w. unfold LLMService.generateResponse.
  destruct (llm_generate E (trace w) task text); apply R_refl.
Qed.

Lemma stays_generateEmbedding (text : string) :
  stays R (LLMService.generateEmbedding E text).
Proof.
  intros w. unfold LLMService.generateEmbedding.
  destruct (llm_embed E (trace w) text); apply R_refl.
Qed.

Lemma stays_searchDuckDuckGo (query : string) (options : SearchOptions) :
  stays R (searchDuckDuckGo E query options).
Proof.
  unfold searchDuckDuckGo. apply stays_try_catch; [| intros; apply stays_ret].
  apply stays_bind; [| intros; apply stays_ret].
  intros w. unfold searchClient_get.
  destruct (search_provider E (trace w) query _); apply R_refl.
Qed.

Lemma stays_multiSearch_loop (searchTerms : list string) (options : SearchOptions)
      (acc : list Hit * gset string) :
  stays R (multiSearch_loop E searchTerms options acc).
Proof.
  revert acc. induction searchTerms as [| term rest IH]; intros acc; simpl.
  - apply stays_ret.
  - apply stays_bind; [| intros; apply IH].
    apply stays_try_catch; [| intros; apply stays_ret].
    apply stays_bind; [apply stays_searchDuckDuckGo | intros results].
    apply stays_bind; [apply stays_sleep | intros; apply stays_ret].
Qed.

Lemma stays_dork_loop (ds : list string) (nDorks : Z) (baseQuery : option string)
      (allResults : list Hit) :
  stays R (dork_loop E ds nDorks baseQuery allResults).
Proof.
  revert allResults. induction ds as [| dork rest IH]; intros allResults; simpl.
  - apply stays_ret.
  - apply stays_bind; [| intros; apply IH].
    apply stays_try_catch; [| intros; apply stays_ret].
    apply stays_bind; [apply stays_searchDuckDuckGo | intros results].
    apply stays_bind; [apply stays_sleep | intros; apply stays_ret].
Qed.

Lemma stays_searchPhase (searchTerms : list string) (maxResults : Z) (advanced : bool) :
  stays R (Orchestrator.searchPhase E searchTerms maxResults advanced).
Proof.
  unfold Orchestrator.searchPhase. destruct advanced.
  - apply stays_bind.
    + unfold searchWithDorks.
      apply stays_bind; [apply stays_dork_loop | intros; apply stays_ret].
    + intros dorkResults. destruct (tail searchTerms); [apply stays_ret |].
      apply stays_bind; [apply stays_multiSearch_loop | intros; apply stays_ret].
  - apply stays_multiSearch_loop.
Qed.

Lemma stays_scrapePage (urlInfo : Hit) : stays R (scrapePage E urlInfo).
Proof.
  unfold scrapePage. apply stays_try_catch; [| intros; apply stays_ret].
  destruct (negb (isAllowedDomain E (hit_url urlInfo))); [apply stays_ret |].
  apply stays_bind.
  - intros w. unfold scrapeClient_get.
    destruct (http_get E (trace w) (hit_url urlInfo)); apply R_refl.
  - intros page.
    destruct (String.length (cleanContent (extractContent page)) <? 100)%nat;
      [apply stays_ret |].
    destruct (URL_hostname E (hit_url urlInfo)); [| apply stays_throw].
    apply stays_bind; [apply stays_clock | intros; apply stays_ret].
Qed.

Lemma stays_scrapeContent (urls : list Hit) : stays R (scrapeContent E urls).
Proof.
  unfold scrapeContent.
  destruct (chunkArray urls (cfg_maxConcurrentScrapes E)) as [chunks |];
    [| apply stays_hang].
  generalize (@nil ScrapedSource).
  induction chunks as [| chunk rest IH]; intros results; simpl; [apply stays_ret |].
  apply stays_bind.
  - intros w. destruct (scrape_chunk_run E chunk w) as (rs & events & -> & _).
    apply R_refl.
  - intros chunkResults. apply stays_bind; [apply stays_sleep | intros; apply IH].
Qed.

Lemma stays_performWebSearch (searchTerms : list string) (maxResults : option Z)
      (advanced : option bool) :
  stays R (Orchestrator.performWebSearch E searchTerms maxResults advanced).
Proof.
  unfold Orchestrator.performWebSearch.
  apply stays_try_catch; [| intros; apply stays_throw].
  apply stays_bind; [apply stays_searchPhase | intros hits].
  apply stays_bind; [apply stays_scrapeContent | intros; apply stays_ret].
Qed.

Lemma stays_generateSearchTerms (query : string) :
  stays R (Orchestrator.generateSearchTerms E query).
Proof.
  unfold Orchestrator.generateSearchTerms, LLMService.generateSearchTerms.
  apply stays_try_catch; [| intros; apply stays_ret].
  apply stays_try_catch; [| intros; apply stays_ret].
  apply stays_bind; [apply stays_generateResponse | intros response].
  destruct (LLMService.match_braces response) as [jsonMatch |]; [| apply stays_ret].
  destruct (JSON_parse_terms E jsonMatch); [apply stays_ret | apply stays_throw].
Qed.

Lemma stays_analyzeWebContent (content query : string) :
  stays R (LLMService.analyzeWebContent E content query).
Proof.
  intros w. rewrite analyzeWebContent_value. apply R_refl.
Qed.

Lemma stays_store_call {A} (op : StoreOp) (swallow : option A)
      (run : Store -> A * Store) :
  (forall s, R s (snd (run s))) -> stays R (store_call E op swallow run).
Proof.
  intros Hrun w. unfold store_call.
  destruct (store_fault E (trace w)); simpl.
  - specialize (Hrun (store w)). destruct (run (store w)). exact Hrun.
  - apply R_refl.
  - destruct swallow; apply R_refl.
Qed.

Lemma stays_analyze_batches (query : string) (batches : list (list ScrapedSource))
      (wanted : bool) (sessionId : option nat) (analyses : list AnalysisResult) :
  (forall batch, stays R (Orchestrator.analyze_batch E query batch wanted sessionId)) ->
  stays R (Orchestrator.analyze_batches E query batches wanted sessionId analyses).
Proof.
  intros Hbatch. revert analyses.
  induction batches as [| batch rest IH]; intros analyses; simpl; [apply stays_ret |].
  apply stays_bind; [apply Hbatch | intros batchResults].
  apply stays_bind; [apply stays_sleep | intros; apply IH].
Qed.

Lemma stays_analyzeContent (query : string) (webResults : WebResults)
      (wanted : option bool) :
  (default true wanted = true ->
   (forall contentHash, stays R (getCachedEmbedding E contentHash))
   /\ (forall contentHash preview embedding model,
          stays R (cacheEmbedding E contentHash preview embedding model))) ->
  stays R (Orchestrator.analyzeContent E query webResults wanted None).
Proof.
  intros Hembed. unfold Orchestrator.analyzeContent.
  apply stays_try_catch; [| intros; apply stays_throw].
  destruct (chunkArray _ _) as [batches |]; [| apply stays_hang].
  apply stays_bind; [| intros; apply stays_ret].
  apply stays_analyze_batches. intros batch.
  unfold Orchestrator.analyze_batch.
  apply (promise_all_stays R R_refl R_trans).
  apply Forall_map, Forall_forall. intros source _.
  apply (analyzeSingleSource_task_stays R R_refl).
  - intros content. apply stays_analyzeWebContent.
  - intros Hwanted. destruct (Hembed Hwanted) as [Hlookup Hcache].
    split; [exact Hlookup |]. split; [apply stays_generateEmbedding | exact Hcache].
  - intros id summary embedding Hid. discriminate.
Qed.

Lemma stays_generateReport (query : string) (analysis : ContentAnalysis) :
  stays R (Orchestrator.generateReport E query analysis None).
Proof.
  unfold Orchestrator.generateReport.
  apply stays_try_catch; [| intros; apply stays_throw].
  apply stays_bind.
  - unfold LLMService.generateFinalReport.
    apply stays_try_catch; [apply stays_generateResponse | intros; apply stays_throw].
  - intros reportContent. apply stays_bind; [apply stays_clock | intros t].
    apply stays_bind; [apply stays_clock | intros t'].
    apply stays_bind; [apply stays_ret | intros; apply stays_ret].
Qed.

Lemma stays_searchFromTerms (value : TermsValue) (maxResults : option Z)
      (advanced : option bool) :
  stays R (Orchestrator.searchFromTerms E value maxResults advanced).
Proof.
  destruct value as [| | terms | text | first]; simpl;
    try apply stays_throw; try apply stays_performWebSearch.
  - apply stays_bind; [apply stays_performWebSearch | intros; apply stays_ret].
  - unfold Orchestrator.performWebSearch_unlisted.
    apply stays_try_catch; [| intros; apply stays_throw].
    destruct (default true advanced); [| apply stays_throw].
    apply stays_bind; [| intros; apply stays_throw].
    unfold searchWithDorks.
    apply stays_bind; [apply stays_dork_loop | intros; apply stays_ret].
Qed.

Lemma stays_performDeepSearch (query : string) (options : DeepSearchOptions) :
  saveToDatabase options = Some false ->
  (default true (generateEmbeddings options) = true ->
   (forall contentHash, stays R (getCachedEmbedding E contentHash))
   /\ (forall contentHash preview embedding model,
          stays R (cacheEmbedding E contentHash preview embedding model))) ->
  stays R (Orchestrator.performDeepSearch E query options).
Proof.
  intros Hoff Hembed w.
  assert (Hopen : Orchestrator.openSession E query options = ret None).
  { unfold Orchestrator.openSession. rewrite Hoff. reflexivity. }
  unfold Orchestrator.performDeepSearch. rewrite Hopen.
  change (R (store w)
            (store (snd (try_catch (Orchestrator.run E query options None)
                                   (Orchestrator.on_error E None) w)))).
  revert w.
  change (stays R (try_catch (Orchestrator.run E query options None)
                             (Orchestrator.on_error E None))).
  apply stays_try_catch.
  - unfold Orchestrator.run.
    apply stays_bind; [apply stays_generateSearchTerms | intros data].
    apply stays_bind; [apply stays_searchFromTerms | intros web].
    apply stays_bind.
    + apply stays_analyzeContent. exact Hembed.
    + intros analysis. apply stays_bind; [apply stays_generateReport | intros report].
      apply stays_bind; [apply stays_ret | intros; apply stays_ret].
  - intros message. unfold Orchestrator.on_error.
    apply stays_bind; [apply stays_ret | intros; apply stays_throw].
Qed.

End Stays.

Section WithoutDatabase.

Variable E : Env.

Lemma cache_only_refl (s : Store) : cache_only s s.
Proof. repeat split. Qed.

Lemma cache_only_trans (a b c : Store) :
  cache_only a b -> cache_only b c -> cache_only a c.
Proof.
  intros (H1 & H2 & H3) (H4 & H5 & H6). repeat split; congruence.
Qed.

Lemma cache_calls_cache_only :
  (forall contentHash, stays cache_only (getCachedEmbedding E contentHash))
  /\ (forall contentHash preview embedding model,
         stays cache_only (cacheEmbedding E contentHash preview embedding model)).
Proof.
  split; intros; apply (stays_store_call cache_only cache_only_refl);
    intros s; repeat split.
Qed.

(** X21 — a run with [saveToDatabase] off opens no session and leaves
    the tables of sessions, sources and reports as they were, whatever
    its outcome; only the cache of embeddings may be written.  With
    [generateEmbeddings] off as well the store is left untouched. *)
Theorem run_without_database (query : string) (options : DeepSearchOptions) (w : World) :
  saveToDatabase options = Some false ->
  let outcome := Orchestrator.performDeepSearch E query options w in
  cache_only (store w) (store (snd outcome))
  /\ (generateEmbeddings options = Some false -> store (snd outcome) = store w)
  /\ (forall result, fst outcome = Ok result -> res_sessionId result = None).
Proof.
  intros Hoff outcome. split; [| split].
  - apply (stays_performDeepSearch cache_only cache_only_refl cache_only_trans
             E query options Hoff).
    intros _. apply cache_calls_cache_only.
  - intros Hplain. symmetry.
    apply (stays_performDeepSearch eq (@eq_refl Store) (@eq_trans Store)
             E query options Hoff).
    rewrite Hplain. discriminate.
  - subst outcome. unfold Orchestrator.performDeepSearch, Orchestrator.openSession.
    rewrite Hoff. simpl default. unfold bind at 1, ret.
    unfold try_catch, Orchestrator.on_error.
    destruct (Orchestrator.run E query options None w) as [[result | message |] w1]
      eqn:Hrun; simpl; try discriminate.
    intros result' Heq. injection Heq as <-.
    unfold Orchestrator.run in Hrun.
    repeat match type of Hrun with
           | bind ?m ?k ?w0 = _ =>
             unfold bind at 1 in Hrun;
             let o := fresh "o" in
             destruct (m w0) as [[o | ? |] ?]; try discriminate
           | match ?x with _ => _ end ?w0 = _ => destruct x; try discriminate
           | match ?x with _ => _ end = _ => destruct x; try discriminate
           end.
    unfold ret in Hrun. injection Hrun as <- _. reflexivity.
Qed.

End WithoutDatabase.

Lemma run_without_database_witness :
  let options := {| useAdvancedSearch := Some false; generateEmbeddings := Some false;
                    maxSources := Some 4; saveToDatabase := Some false |} in
  saveToDatabase options = Some false
  /\ store (snd (Orchestrator.performDeepSearch sampleEnv "rocq" options cached_world))
     = store cached_world.
Proof.
  intros options. split; [reflexivity |].
  exact (proj1 (proj2 (run_without_database sampleEnv "rocq" options cached_world
                         eq_refl)) eq_refl).
Defined.

(** ** Members of a [Promise.all] that write rows *)

Section PoolAdds.

Context {A X : Type}.
Variable rows : Store -> list X.

Lemma task_adds_return (P : A -> Prop) (a : A) :
  P a -> task_adds rows P [] (Return a).
Proof. intros HP. split; [reflexivity | exact HP]. Qed.

Lemma task_adds_call {B} (P : A -> Prop) (todo : list X) (call : M B)
      (next : B -> Task A) (handler : string -> Task A) :
  (forall w,
      match call w with
      | (Ok b, w') =>
        exists done todo',
          rows (store w') = rows (store w) ++ done
          /\ todo = done ++ todo'
          /\ task_adds rows P todo' (next b)
      | (Throw e, w') =>
        exists done todo',
          rows (store w') = rows (store w) ++ done
          /\ todo = done ++ todo'
          /\ task_adds rows P todo' (handler e)
      | (Hang, _) => False
      end) ->
  task_adds rows P todo (Call call next handler).
Proof.
  intros Hcall w. specialize (Hcall w).
  destruct (call w) as [[b | e |] w1]; [| | exact Hcall];
    destruct Hcall as (done & todo' & Hrows & Htodo & Hrest);
    (exists (P, todo'); split; [split; [reflexivity | exists done; auto] | exact Hrest]).
Qed.

(** A call that returns or raises and writes no row. *)
Lemma task_adds_quiet {B} (P : A -> Prop) (todo : list X) (call : M B)
      (next : B -> Task A) (handler : string -> Task A) :
  settles call ->
  (forall w, rows (store (snd (call w))) = rows (store w)) ->
  (forall b, task_adds rows P todo (next b)) ->
  (forall e, task_adds rows P todo (handler e)) ->
  task_adds rows P todo (Call call next handler).
Proof.
  intros Hsettles Hquiet Hnext Hhandler. apply task_adds_call. intros w.
  specialize (Hsettles w). specialize (Hquiet w).
  destruct (call w) as [[b | e |] w1]; simpl in *.
  - exists [], todo. rewrite app_nil_r. auto.
  - exists [], todo. rewrite app_nil_r. auto.
  - contradiction.
Qed.

(** A call that always returns and writes no row. *)
Lemma task_adds_quiet_ok {B} (P : A -> Prop) (todo : list X) (call : M B)
      (next : B -> Task A) (handler : string -> Task A) :
  (forall w, exists b w', call w = (Ok b, w') /\ rows (store w') = rows (store w)) ->
  (forall b, task_adds rows P todo (next b)) ->
  task_adds rows P todo (Call call next handler).
Proof.
  intros Hcall Hnext. apply task_adds_call. intros w.
  destruct (Hcall w) as (b & w' & -> & Hrows).
  exists [], todo. rewrite app_nil_r. auto.
Qed.

Lemma all_done (gs : list ((A -> Prop) * list X)) (results : list A) :
  Forall2 (fun g a => snd g = [] /\ fst g a) gs results ->
  concat (map snd gs) = [] /\ Forall2 (fun P a => P a) (map fst gs) results.
Proof.
  induction 1 as [| g a gs results [Hnil HP] Hrest [IHnil IHP]]; simpl.
  - split; [reflexivity | constructor].
  - rewrite Hnil, IHnil. split; [reflexivity |]. constructor; assumption.
Qed.

(** Whatever turns the members take, all of them end, each with a value
    it may end with, and the rows written are those of the members, in
    some order. *)
Lemma promise_all_adds (E : Env) (specs : list ((A -> Prop) * list X))
      (tasks : list (Task A)) (w : World) :
  Forall2 (fun g t => task_adds rows (fst g) (snd g) t) specs tasks ->
  exists results w',
    promise_all E tasks w = (Ok results, w')
    /\ Forall2 (fun P a => P a) (map fst specs) results
    /\ rows (store w') ≡ₚ rows (store w) ++ concat (map snd specs).
Proof.
  intros Hall.
  assert (Hall' : Forall2 (task_inv (adds_step rows)
                                    (fun g a => snd g = [] /\ fst g a)
                                    (fun _ _ _ => False)) specs tasks).
  { eapply Forall2_impl; [exact Hall |]. intros [P todo] t Ht. exact Ht. }
  assert (Hframe : forall pre g post g' w1 w2,
             adds_step rows g w1 w2 g' ->
             map fst (pre ++ g :: post) = map fst specs
             /\ rows (store w1) ++ concat (map snd (pre ++ g :: post))
                ≡ₚ rows (store w) ++ concat (map snd specs) ->
             map fst (pre ++ g' :: post) = map fst specs
             /\ rows (store w2) ++ concat (map snd (pre ++ g' :: post))
                ≡ₚ rows (store w) ++ concat (map snd specs)).
  { intros pre g post g' w1 w2 (Hfst & done & Hrows & Htodo) (Hspecs & Hperm).
    split.
    - rewrite <- Hspecs, !map_app. simpl. rewrite Hfst. reflexivity.
    - rewrite <- Hperm, Hrows, !map_app, !concat_app. simpl. rewrite Htodo.
      rewrite <- !app_assoc. apply Permutation_app_head.
      apply Permutation_app_swap_app. }
  pose proof (promise_all_inv
                (adds_step rows) (fun g a => snd g = [] /\ fst g a)
                (fun _ _ _ => False)
                (fun gs w1 =>
                   map fst gs = map fst specs
                   /\ rows (store w1) ++ concat (map snd gs)
                      ≡ₚ rows (store w) ++ concat (map snd specs))
                (fun _ => False)
                Hframe
                (fun pre g post w1 w2 Hstuck HI => Hstuck)
                E specs tasks w Hall' (conj eq_refl (reflexivity _))) as Hpool.
  destruct (promise_all E tasks w) as [[results | e |] w'];
    simpl in Hpool; [| contradiction | contradiction].
  destruct Hpool as (gs' & (Hfst & Hperm) & Hfinal).
  destruct (all_done gs' results Hfinal) as [Hnil Hresults].
  exists results, w'. split; [reflexivity |].
  rewrite Hfst in Hresults. split; [exact Hresults |].
  rewrite Hnil, app_nil_r in Hperm. exact Hperm.
Qed.

End PoolAdds.

(** ** Analysis of all sources *)

Section Batches.

Variable E : Env.

Lemma saved_urls_app (sessionId : option nat) (a b : list ScrapedSource) :
  saved_urls sessionId (a ++ b) = saved_urls sessionId a ++ saved_urls sessionId b.
Proof. destruct sessionId; simpl; [apply map_app | reflexivity]. Qed.

Lemma settles_store_call {A} (op : StoreOp) (swallow : option A)
      (run : Store -> A * Store) :
  settles (store_call E op swallow run).
Proof.
  intros w. unfold store_call.
  destruct (store_fault E (trace w)); simpl; [destruct (run (store w)) | |];
    try discriminate.
  destruct swallow; discriminate.
Qed.

Lemma settles_generateEmbedding (text : string) :
  settles (LLMService.generateEmbedding E text).
Proof.
  intros w. unfold LLMService.generateEmbedding.
  destruct (llm_embed E (trace w) text); discriminate.
Qed.

(** Whatever the model and the store do, the task of a source ends,
    with nothing or with a result for that source. *)
Lemma analyzeSingleSource_task_ends (query : string) (source : ScrapedSource)
      (wanted : bool) (sessionId : option nat) :
  task_adds (fun _ => @nil unit)
            (fun r => forall result, r = Some result -> ar_source result = source)
            []
            (Orchestrator.analyzeSingleSource_task E query source wanted sessionId).
Proof.
  assert (Hnone : task_adds (fun _ => @nil unit)
                    (fun r => forall result, r = Some result -> ar_source result = source)
                    [] (Return None)).
  { apply task_adds_return. discriminate. }
  assert (Hfinish : forall analysis embedding,
             task_adds (fun _ => @nil unit)
               (fun r => forall result, r = Some result -> ar_source result = source)
               [] (Orchestrator.finish_task E source analysis embedding)).
  { intros analysis embedding. apply task_adds_quiet.
    - intros w. discriminate.
    - reflexivity.
    - intros processingTime. apply task_adds_return.
      intros result Hr. injection Hr as <-. reflexivity.
    - intros e. exact Hnone. }
  assert (Hsaved : forall analysis embedding,
             task_adds (fun _ => @nil unit)
               (fun r => forall result, r = Some result -> ar_source result = source)
               [] (Orchestrator.save_task E source analysis embedding sessionId)).
  { intros analysis embedding. unfold Orchestrator.save_task.
    destruct sessionId as [id |]; [| apply Hfinish].
    apply task_adds_quiet;
      [apply settles_store_call | reflexivity | intros; apply Hfinish | intros; exact Hnone]. }
  unfold Orchestrator.analyzeSingleSource_task.
  apply task_adds_quiet; [| reflexivity | | intros; exact Hnone].
  { intros w. rewrite analyzeWebContent_value. discriminate. }
  intros analysis.
  destruct (Orchestrator.embedding_wanted wanted analysis); [| apply Hsaved].
  unfold Orchestrator.embedding_task.
  apply task_adds_quiet;
    [apply settles_store_call | reflexivity | | intros; exact Hnone].
  intros cached. destruct (cached ≫= cr_embedding) as [embedding |]; [apply Hsaved |].
  apply task_adds_quiet;
    [apply settles_generateEmbedding | reflexivity | | intros; apply Hsaved].
  intros generated.
  apply task_adds_quiet;
    [apply settles_store_call | reflexivity | |]; intros; apply Hsaved.
Qed.

(** With a store that answers every call the task of a source ends with
    a result for it, and with a session it writes one row, the row of
    that source. *)
Lemma analyzeSingleSource_task_healthy (query : string) (source : ScrapedSource)
      (wanted : bool) (sessionId : option nat) :
  healthy E ->
  task_adds (fun s => map sr_url (web_sources s))
            (fun r => exists result, r = Some result /\ ar_source result = source)
            (saved_urls sessionId [source])
            (Orchestrator.analyzeSingleSource_task E query source wanted sessionId).
Proof.
  intros Hh.
  assert (Hcall : forall A op swallow (run : Store -> A * Store) (w : World),
             exists a, store_call E op swallow run w
                       = (Ok a, {| trace := trace w ++ [EvStore op];
                                   store := snd (run (store w)) |})).
  { intros A op swallow run w. unfold store_call. rewrite Hh.
    destruct (run (store w)) as [a s']. exists a. reflexivity. }
  assert (Hfinish : forall analysis embedding,
             task_adds (fun s => map sr_url (web_sources s))
               (fun r => exists result, r = Some result /\ ar_source result = source)
               [] (Orchestrator.finish_task E source analysis embedding)).
  { intros analysis embedding. apply task_adds_quiet_ok.
    - intros w. do 2 eexists. split; reflexivity.
    - intros processingTime. apply task_adds_return.
      eexists. split; reflexivity. }
  assert (Hsaved : forall analysis embedding,
             task_adds (fun s => map sr_url (web_sources s))
               (fun r => exists result, r = Some result /\ ar_source result = source)
               (saved_urls sessionId [source])
               (Orchestrator.save_task E source analysis embedding sessionId)).
  { intros analysis embedding. unfold Orchestrator.save_task.
    destruct sessionId as [id |]; [| apply Hfinish].
    apply task_adds_call. intros w.
    destruct (Hcall unit (OpSaveWebSource (src_url source)) None
                (fun s =>
                   (tt, {| search_sessions := search_sessions s;
                           web_sources :=
                             web_sources s ++
                             [{| sr_session := id;
                                 sr_url := src_url source;
                                 sr_title := JS.substring0 500 (src_title source);
                                 sr_content :=
                                   JS.substring0 (cfg_maxContentLength E)
                                                 (src_content source);
                                 sr_summary := JS.substring0 2000 <$> summary analysis;
                                 sr_domain := src_domain source;
                                 sr_embedding := embedding |}];
                           reports := reports s;
                           embeddings_cache := embeddings_cache s |})) w)
      as [a Hsave].
    unfold saveWebSource. rewrite Hsave.
    exists [src_url source], []. simpl. rewrite map_app.
    split; [reflexivity |]. split; [reflexivity | apply Hfinish]. }
  unfold Orchestrator.analyzeSingleSource_task.
  apply task_adds_quiet_ok.
  { intros w. rewrite analyzeWebContent_value. do 2 eexists. split; reflexivity. }
  intros analysis.
  destruct (Orchestrator.embedding_wanted wanted analysis); [| apply Hsaved].
  unfold Orchestrator.embedding_task.
  apply task_adds_quiet_ok.
  { intros w. unfold getCachedEmbedding.
    destruct (Hcall (option CacheRow) (OpGetCachedEmbedding
                       (md5_hex E (Orchestrator.contentForEmbedding source)))
                (Some None)
                (fun s => (embeddings_cache s
                             !! md5_hex E (Orchestrator.contentForEmbedding source), s)) w)
      as [a Hlookup].
    rewrite Hlookup. do 2 eexists. split; reflexivity. }
  intros cached. destruct (cached ≫= cr_embedding) as [embedding |]; [apply Hsaved |].
  apply task_adds_quiet;
    [apply settles_generateEmbedding | | | intros; apply Hsaved].
  { intros w. unfold LLMService.generateEmbedding.
    destruct (llm_embed E (trace w) _); reflexivity. }
  intros generated. apply task_adds_quiet_ok; [| intros; apply Hsaved].
  intros w. unfold cacheEmbedding, store_call. rewrite Hh.
  do 2 eexists. split; reflexivity.
Qed.

Lemma results_sources (batch : list ScrapedSource)
      (results : list (option AnalysisResult)) :
  Forall2 (fun source r => forall result, r = Some result -> ar_source result = source)
          batch results ->
  sublist (map ar_source (omap id results)) batch.
Proof.
  induction 1 as [| source r batch results Hr Hrest IH]; [constructor |].
  destruct r as [result |]; simpl.
  - rewrite (Hr result eq_refl). apply sublist_skip, IH.
  - apply sublist_cons, IH.
Qed.

Lemma results_all_sources (batch : list ScrapedSource)
      (results : list (option AnalysisResult)) :
  Forall2 (fun source r => exists result, r = Some result /\ ar_source result = source)
          batch results ->
  map ar_source (omap id results) = batch.
Proof.
  induction 1 as [| source r batch results (result & -> & Hsource) Hrest IH];
    [reflexivity |].
  change (map ar_source (omap id (Some result :: results)))
    with (ar_source result :: map ar_source (omap id results)).
  rewrite Hsource, IH. reflexivity.
Qed.

Lemma analyze_batch_run (query : string) (batch : list ScrapedSource) (wanted : bool)
      (sessionId : option nat) (w : World) :
  exists results w',
    Orchestrator.analyze_batch E query batch wanted sessionId w = (Ok results, w')
    /\ sublist (map ar_source (omap id results)) batch
    /\ (healthy E ->
        map ar_source (omap id results) = batch
        /\ search_sessions (store w') = search_sessions (store w)
        /\ reports (store w') = reports (store w)
        /\ map sr_url (web_sources (store w'))
           ≡ₚ map sr_url (web_sources (store w)) ++ saved_urls sessionId batch).
Proof.
  unfold Orchestrator.analyze_batch.
  set (tasks := map (fun source =>
                       Orchestrator.analyzeSingleSource_task E query source wanted
                                                             sessionId) batch).
  destruct (promise_all_adds (fun _ => @nil unit) E
              (map (fun source =>
                      (fun r : option AnalysisResult =>
                         forall result, r = Some result -> ar_source result = source,
                       @nil unit)) batch)
              tasks w) as (results & w' & Hrun & Hresults & _).
  { apply Forall2_fmap, Forall_Forall2_diag, Forall_forall. intros source _.
    apply analyzeSingleSource_task_ends. }
  exists results, w'. split; [exact Hrun |]. split.
  - apply results_sources. rewrite map_map in Hresults.
    apply Forall2_fmap_l in Hresults. exact Hresults.
  - intros Hh.
    destruct (promise_all_adds (fun s => map sr_url (web_sources s)) E
                (map (fun source =>
                        (fun r : option AnalysisResult =>
                           exists result, r = Some result /\ ar_source result = source,
                         saved_urls sessionId [source])) batch)
                tasks w) as (results' & w'' & Hrun' & Hresults' & Hrows).
    { apply Forall2_fmap, Forall_Forall2_diag, Forall_forall. intros source _.
      apply analyzeSingleSource_task_healthy, Hh. }
    rewrite Hrun in Hrun'. injection Hrun' as <- <-.
    split; [apply results_all_sources; rewrite map_map in Hresults';
            apply Forall2_fmap_l in Hresults'; exact Hresults' |].
    assert (Hstays : stays (fun s s' => search_sessions s' = search_sessions s
                                        /\ reports s' = reports s)
                           (promise_all E tasks)).
    { apply promise_all_stays.
      - intros s. split; reflexivity.
      - intros a b c [H1 H2] [H3 H4]. split; congruence.
      - apply Forall_map, Forall_forall. intros source _.
        apply analyzeSingleSource_task_stays.
        + intros s. split; reflexivity.
        + intros content w0. rewrite analyzeWebContent_value. split; reflexivity.
        + intros _. split; [| split]; intros.
          * apply stays_store_call; [intros s; split; reflexivity |].
            intros s. split; reflexivity.
          * intros w0. unfold LLMService.generateEmbedding.
            destruct (llm_embed E (trace w0) text); split; reflexivity.
          * apply stays_store_call; [intros s; split; reflexivity |].
            intros s. split; reflexivity.
        + intros id summary embedding _.
          apply stays_store_call; [intros s; split; reflexivity |].
          intros s. split; reflexivity. }
    specialize (Hstays w). rewrite Hrun in Hstays. simpl in Hstays.
    destruct Hstays as [Hsessions Hreports].
    split; [exact Hsessions |]. split; [exact Hreports |].
    rewrite Hrows. apply Permutation_app_head.
    rewrite map_map. simpl.
    assert (Hurls : concat (map (fun source => saved_urls sessionId [source]) batch)
                    = saved_urls sessionId batch).
    { clear. destruct sessionId as [id |]; simpl;
        induction batch as [| source batch IH]; simpl; congruence. }
    rewrite Hurls. reflexivity.
Qed.

Lemma analyze_batches_run (query : string) (batches : list (list ScrapedSource))
      (wanted : bool) (sessionId : option nat) (analyses : list AnalysisResult)
      (w : World) :
  exists further w',
    Orchestrator.analyze_batches E query batches wanted sessionId analyses w
    = (Ok (analyses ++ further), w')
    /\ sublist (map ar_source further) (concat batches)
    /\ (healthy E ->
        map ar_source further = concat batches
        /\ search_sessions (store w') = search_sessions (store w)
        /\ reports (store w') = reports (store w)
        /\ map sr_url (web_sources (store w'))
           ≡ₚ map sr_url (web_sources (store w))
              ++ saved_urls sessionId (concat batches)).
Proof.
  revert analyses w. induction batches as [| batch rest IH]; intros analyses w.
  - exists [], w. rewrite app_nil_r. split; [reflexivity |]. split; [constructor |].
    intros _. destruct sessionId; simpl; rewrite app_nil_r; auto.
  - simpl. unfold bind at 1.
    destruct (analyze_batch_run query batch wanted sessionId w)
      as (results & w1 & Hrun & Hsub & Hhealthy).
    rewrite Hrun. unfold bind at 1. unfold sleep.
    destruct (IH (analyses ++ omap id results) (emit (EvSleep 1000) w1))
      as (further & w2 & Hrest & Hsub' & Hrest_healthy).
    rewrite Hrest. exists (omap id results ++ further), w2.
    rewrite app_assoc. split; [reflexivity |]. split.
    + rewrite map_app. apply sublist_app; assumption.
    + intros Hh. destruct (Hhealthy Hh) as (Hsources & Hs & Hr & Hw).
      destruct (Hrest_healthy Hh) as (Hsources' & Hs2 & Hr2 & Hw2).
      simpl in Hs2, Hr2, Hw2.
      rewrite map_app, Hsources, Hsources', Hs2, Hr2, Hs, Hr.
      repeat split. rewrite Hw2, Hw, saved_urls_app, app_assoc. reflexivity.
Qed.

Lemma analyzeContent_settles (query : string) (webResults : WebResults)
        (wanted : option bool) (sessionId : option nat) (w : World) :
  0 < cfg_parallelProcessingLimit E ->
  exists analysis w',
    Orchestrator.analyzeContent E query webResults wanted sessionId w
    = (Ok analysis, w')
    /\ sublist (map ar_source (individualAnalyses analysis)) (wr_sources webResults)
    /\ successfulAnalyses analysis = length (individualAnalyses analysis)
    /\ ca_totalSources analysis = length (wr_sources webResults)
    /\ (successfulAnalyses analysis <= ca_totalSources analysis)%nat
    /\ consolidatedAnalysis analysis
       = Orchestrator.consolidateAnalyses query (individualAnalyses analysis)
    /\ (healthy E ->
        map ar_source (individualAnalyses analysis) = wr_sources webResults
        /\ search_sessions (store w') = search_sessions (store w)
        /\ reports (store w') = reports (store w)
        /\ map sr_url (web_sources (store w'))
           ≡ₚ map sr_url (web_sources (store w))
              ++ saved_urls sessionId (wr_sources webResults)).
Proof.
  intros Hpos. unfold Orchestrator.analyzeContent, try_catch.
  destruct (chunkArray_total (wr_sources webResults) (cfg_parallelProcessingLimit E) Hpos)
    as (batches & Hchunks & _).
  assert (Hsize : (0 < Z.to_nat (cfg_parallelProcessingLimit E))%nat) by lia.
  destruct (chunk_loop_shape _ _ _ _ Hsize Hchunks) as (Hconcat & _).
  rewrite Hchunks. unfold bind.
  destruct (analyze_batches_run query batches (default true wanted) sessionId [] w)
    as (further & w' & Hrun & Hsub & Hhealthy).
  rewrite Hrun. unfold ret. simpl app. rewrite Hconcat in Hsub, Hhealthy.
  do 2 eexists. split; [reflexivity |]. simpl.
  split; [exact Hsub |]. split; [reflexivity |]. split; [reflexivity |].
  split; [| split; [reflexivity | exact Hhealthy]].
  apply sublist_length in Hsub. rewrite !length_map in Hsub. exact Hsub.
Qed.

(** X16 — with a positive batch size [analyzeContent] returns whatever
    the model and the store do.  The analyses it returns are for sources
    of the retrieval phase, in their order and at most one for each;
    [successfulAnalyses] is their number, [totalSources] the number of
    sources handed in, and the consolidation is computed from exactly
    those analyses.  With a store that answers every call no source is
    dropped, and with a session exactly one row per source is written;
    sessions and reports are left alone. *)
Theorem analyzeContent_counts (query : string) (webResults : WebResults)
        (wanted : option bool) (sessionId : option nat) (w : World) :
  0 < cfg_parallelProcessingLimit E ->
  exists analysis w',
    Orchestrator.analyzeContent E query webResults wanted sessionId w
    = (Ok analysis, w')
    /\ sublist (map ar_source (individualAnalyses analysis)) (wr_sources webResults)
    /\ successfulAnalyses analysis = length (individualAnalyses analysis)
    /\ ca_totalSources analysis = length (wr_sources webResults)
    /\ (successfulAnalyses analysis <= ca_totalSources analysis)%nat
    /\ consolidatedAnalysis analysis
       = Orchestrator.consolidateAnalyses query (individualAnalyses analysis)
    /\ (healthy E ->
        map ar_source (individualAnalyses analysis) = wr_sources webResults
        /\ successfulAnalyses analysis = ca_totalSources analysis
        /\ search_sessions (store w') = search_sessions (store w)
        /\ reports (store w') = reports (store w)
        /\ map sr_url (web_sources (store w'))
           ≡ₚ map sr_url (web_sources (store w))
              ++ saved_urls sessionId (wr_sources webResults)).
Proof.
  intros Hpos.
  destruct (analyzeContent_settles query webResults wanted sessionId w Hpos)
    as (analysis & w' & Hrun & Hsub & Hcount & Htotal & Hle & Hcons & Hhealthy).
  exists analysis, w'. repeat (split; [assumption |]).
  intros Hh. destruct (Hhealthy Hh) as (Hsources & Hs & Hr & Hrows).
  split; [exact Hsources |]. split.
  - rewrite Hcount, Htotal, <- Hsources. symmetry. apply length_map.
  - split; [exact Hs |]. split; [exact Hr |]. rewrite Hrows. reflexivity.
Qed.

End Batches.

Lemma analyzeContent_counts_witness :
  0 < cfg_parallelProcessingLimit sampleEnv
  /\ healthy sampleEnv
  /\ exists analysis w',
      Orchestrator.analyzeContent sampleEnv "rocq"
        {| wr_searchTerms := TermsArray ["rocq"];
           wr_sources := [sample_source; sample_source];
           wr_stats := getSearchStats [sample_source; sample_source] |}
        (Some false) (Some 0%nat) initial_world
      = (Ok analysis, w')
      /\ successfulAnalyses analysis = 2%nat
      /\ map sr_url (web_sources (store w'))
         ≡ₚ [src_url sample_source; src_url sample_source].
Proof.
  assert (Hpos : 0 < cfg_parallelProcessingLimit sampleEnv) by (vm_compute; reflexivity).
  assert (Hh : healthy sampleEnv) by (intros t; reflexivity).
  split; [exact Hpos |]. split; [exact Hh |].
  destruct (analyzeContent_counts sampleEnv "rocq"
              {| wr_searchTerms := TermsArray ["rocq"];
                 wr_sources := [sample_source; sample_source];
                 wr_stats := getSearchStats [sample_source; sample_source] |}
              (Some false) (Some 0%nat) initial_world Hpos)
    as (analysis & w' & Hrun & _ & _ & Htotal & _ & _ & Hhealthy).
  destruct (Hhealthy Hh) as (_ & Hall & _ & _ & Hrows).
  exists analysis, w'. split; [exact Hrun |]. split.
  - rewrite Hall, Htotal. reflexivity.
  - rewrite Hrows. reflexivity.
Defined.

(** ** The cache of embeddings *)

Section Cache.

Variable E : Env.

(** X17 — an embedding written with [cacheEmbedding] is what the next
    [getCachedEmbedding] under the same hash returns, with the model's
    name; a row that was already there keeps its preview, a new one gets
    the first 500 characters of the preview handed in.  Rows under other
    hashes and the other tables are left as they were. *)
Theorem cacheEmbedding_then_lookup (contentHash contentPreview modelUsed : string)
        (embedding : list Q) (w : World) :
  store_fault E (trace w) = NoFault ->
  store_fault E (trace w ++ [EvStore (OpCacheEmbedding contentHash)]) = NoFault ->
  exists w1 row,
    cacheEmbedding E contentHash contentPreview embedding modelUsed w = (Ok tt, w1)
    /\ getCachedEmbedding E contentHash w1
       = (Ok (Some row), emit (EvStore (OpGetCachedEmbedding contentHash)) w1)
    /\ cr_embedding row = Some embedding
    /\ cr_model row = modelUsed
    /\ cr_preview row
       = match embeddings_cache (store w) !! contentHash with
         | Some old => cr_preview old
         | None => JS.substring0 500 contentPreview
         end
    /\ (forall other, other <> contentHash ->
                      embeddings_cache (store w1) !! other
                      = embeddings_cache (store w) !! other)
    /\ cache_only (store w) (store w1).
Proof.
  intros Hfault Hfault'. unfold cacheEmbedding, getCachedEmbedding, store_call.
  rewrite Hfault. simpl. do 2 eexists. split; [reflexivity |].
  simpl. rewrite Hfault'. simpl. rewrite lookup_insert_eq.
  split; [reflexivity |]. simpl.
  split; [reflexivity |]. split; [reflexivity |]. split; [reflexivity |].
  split; [| repeat split].
  intros other Hne. apply lookup_insert_ne. congruence.
Qed.

(** X18 — failures in the embedding step of [analyzeSingleSource], for
    a source whose analysis asks for an embedding.  When the pool gives no
    connection for the cache lookup the source is dropped: the method
    returns null after the lookup.  When only the lookup query fails it
    counts as a miss: the model is asked; if the model fails too the
    result is kept without vector, and if it answers the result carries
    the vector whether or not the cache can then be written. *)
Theorem embedding_step_failures (query : string) (source : ScrapedSource) (w : World) :
  let analysis := analysis_of E w (src_content source) in
  let text := Orchestrator.contentForEmbedding source in
  let w1 := emit (EvGenerate AnalyzeContent (src_content source)) w in
  let w2 := emit (EvStore (OpGetCachedEmbedding (embedding_key E source))) w1 in
  let outcome := Orchestrator.analyzeSingleSource E query source true None w in
  Orchestrator.embedding_wanted true analysis = true ->
  (forall message,
      store_fault E (trace w1) = ConnectFails message -> outcome = (Ok None, w2))
  /\ (forall message failure,
         store_fault E (trace w1) = QueryFails message ->
         llm_embed E (trace w2) text = inl failure ->
         exists result,
           outcome = (Ok (Some result), emit (EvEmbed text) w2)
           /\ ar_analysis result = analysis
           /\ ar_embedding result = None)
  /\ (forall message vector,
         store_fault E (trace w1) = QueryFails message ->
         llm_embed E (trace w2) text = inr vector ->
         exists result w',
           outcome = (Ok (Some result), w')
           /\ ar_analysis result = analysis
           /\ ar_embedding result = Some (take 10 vector)
           /\ trace w'
              = trace w2 ++ [EvEmbed text;
                             EvStore (OpCacheEmbedding (embedding_key E source))]).
Proof.
  intros analysis text w1 w2 outcome Hwanted. subst outcome.
  unfold Orchestrator.analyzeSingleSource.
  rewrite (try_catch_bind_ok _ _ _ _ _ _
             (analyzeWebContent_value E (src_content source) query w)).
  fold analysis w1. rewrite Hwanted.
  unfold Orchestrator.resolveEmbedding, getCachedEmbedding, store_call.
  fold text. fold (embedding_key E source).
  split; [| split].
  - intros message Hfault. unfold try_catch, bind. rewrite Hfault. reflexivity.
  - intros message failure Hfault Hembed.
    unfold w2, w1, embedding_key in Hembed. simpl in Hembed. fold text in Hembed.
    unfold try_catch, bind, LLMService.generateEmbedding. rewrite Hfault. simpl.
    rewrite Hembed. simpl. unfold clock, ret. simpl.
    eexists. split; [reflexivity |]. split; reflexivity.
  - intros message vector Hfault Hembed.
    unfold w2, w1, embedding_key in Hembed. simpl in Hembed. fold text in Hembed.
    unfold try_catch, bind, LLMService.generateEmbedding. rewrite Hfault. simpl.
    rewrite Hembed. simpl. unfold cacheEmbedding, store_call. simpl.
    match goal with
    | |- context [match store_fault E ?t with _ => _ end] =>
      destruct (store_fault E t)
    end; simpl; unfold clock, ret; simpl;
      (do 2 eexists; split; [reflexivity |]; split; [reflexivity |];
       split; [reflexivity |]; simpl; rewrite <- app_assoc; reflexivity).
Qed.

(** X19 — with a store that answers every call, a source whose vector
    is not in the cache is embedded by one call of the model and the
    vector is written under the source's key with the configured model
    name; resolving the same source again, in any later world with that
    store, takes the vector from the cache and asks the model nothing. *)
Theorem resolveEmbedding_caches (source : ScrapedSource) (w : World) (vector : list Q) :
  let key := embedding_key E source in
  let text := Orchestrator.contentForEmbedding source in
  let w1 := emit (EvStore (OpGetCachedEmbedding key)) w in
  healthy E ->
  embeddings_cache (store w) !! key ≫= cr_embedding = None ->
  llm_embed E (trace w1) text = inr vector ->
  exists w',
    Orchestrator.resolveEmbedding E source w = (Ok (Some vector), w')
    /\ trace w' = trace w ++ [EvStore (OpGetCachedEmbedding key); EvEmbed text;
                              EvStore (OpCacheEmbedding key)]
    /\ (exists row, embeddings_cache (store w') !! key = Some row
                    /\ cr_embedding row = Some vector
                    /\ cr_model row = cfg_embeddingModel E)
    /\ cache_only (store w) (store w')
    /\ (forall later,
           store later = store w' ->
           Orchestrator.resolveEmbedding E source later
           = (Ok (Some vector), emit (EvStore (OpGetCachedEmbedding key)) later)).
Proof.
  intros key text w1 Hh Hmiss Hembed.
  assert (Hfirst : exists w',
    Orchestrator.resolveEmbedding E source w = (Ok (Some vector), w')
    /\ trace w' = trace w ++ [EvStore (OpGetCachedEmbedding key); EvEmbed text;
                              EvStore (OpCacheEmbedding key)]
    /\ (exists row, embeddings_cache (store w') !! key = Some row
                    /\ cr_embedding row = Some vector
                    /\ cr_model row = cfg_embeddingModel E)
    /\ cache_only (store w) (store w')).
  { unfold Orchestrator.resolveEmbedding, bind at 1, getCachedEmbedding, store_call.
    fold text. subst key. unfold embedding_key in Hmiss, Hembed, w1 |- *.
    fold text in Hmiss, Hembed, w1 |- *.
    rewrite Hh. cbv beta iota zeta. rewrite Hmiss.
    unfold bind, try_catch, LLMService.generateEmbedding.
    unfold w1 in Hembed. simpl in Hembed |- *.
    rewrite Hembed. simpl. unfold cacheEmbedding, store_call. rewrite Hh. simpl.
    unfold ret. eexists. split; [reflexivity |]. simpl.
    split; [rewrite <- !app_assoc; reflexivity |]. split; [| repeat split].
    eexists. split; [apply lookup_insert_eq |]. split; reflexivity. }
  destruct Hfirst as (w' & Hrun & Htrace & (row & Hrow & Hvec & Hmodel) & Hcache).
  exists w'. split; [exact Hrun |]. split; [exact Htrace |].
  split; [exists row; auto |]. split; [exact Hcache |].
  intros later Hstore. apply (resolveEmbedding_hit E source later row vector).
  - apply Hh.
  - rewrite Hstore. exact Hrow.
  - exact Hvec.
Qed.

End Cache.

Lemma cacheEmbedding_then_lookup_witness :
  exists w1 row,
    cacheEmbedding sampleEnv "abc" "preview" [(1 # 3)%Q] "nomic-embed-text" initial_world
    = (Ok tt, w1)
    /\ getCachedEmbedding sampleEnv "abc" w1
       = (Ok (Some row), emit (EvStore (OpGetCachedEmbedding "abc")) w1)
    /\ cr_embedding row = Some [(1 # 3)%Q].
Proof.
  destruct (cacheEmbedding_then_lookup sampleEnv "abc" "preview" "nomic-embed-text"
              [(1 # 3)%Q] initial_world eq_refl eq_refl)
    as (w1 & row & Hwrite & Hread & Hvec & _).
  exists w1, row. auto.
Defined.

Lemma embedding_step_failures_witness :
  Orchestrator.embedding_wanted true
    (analysis_of offlineEnv initial_world (src_content sample_source)) = true
  /\ fst (Orchestrator.analyzeSingleSource offlineEnv "rocq" sample_source true None
                                           initial_world) = Ok None.
Proof.
  assert (Hwanted : Orchestrator.embedding_wanted true
            (analysis_of offlineEnv initial_world (src_content sample_source)) = true)
    by reflexivity.
  split; [exact Hwanted |].
  destruct (embedding_step_failures offlineEnv "rocq" sample_source initial_world Hwanted)
    as (Hdrop & _).
  rewrite (Hdrop "connect ECONNREFUSED 127.0.0.1:5432" eq_refl). reflexivity.
Defined.

Lemma resolveEmbedding_caches_witness :
  healthy embeddingEnv
  /\ exists w',
      Orchestrator.resolveEmbedding embeddingEnv sample_source initial_world
      = (Ok (Some [(1 # 2)%Q; (1 # 4)%Q]), w')
      /\ Orchestrator.resolveEmbedding embeddingEnv sample_source w'
         = (Ok (Some [(1 # 2)%Q; (1 # 4)%Q]),
            emit (EvStore (OpGetCachedEmbedding
                             (embedding_key embeddingEnv sample_source))) w').
Proof.
  assert (Hh : healthy embeddingEnv) by (intros t; reflexivity).
  split; [exact Hh |].
  destruct (resolveEmbedding_caches embeddingEnv sample_source initial_world
              [(1 # 2)%Q; (1 # 4)%Q] Hh eq_refl eq_refl)
    as (w' & Hrun & _ & _ & _ & Hagain).
  exists w'. split; [exact Hrun |]. apply Hagain. reflexivity.
Defined.

(** ** Sessions *)

Section Sessions.

Variable E : Env.

(** X20 — a session that [createSearchSession] returns is appended to
    the table with status pending; updating it under its id returns the
    row with the new status and metadata and the same id and query, and
    puts it in the place of the old row; updating an id that is not in
    the table returns nothing and changes nothing. *)
Theorem session_round_trip (query : string) (metadata metadata' : gmap string MetaValue)
        (status : SessionStatus) (w : World) :
  store_fault E (trace w) = NoFault ->
  store_fault E (trace w ++ [EvStore OpCreateSession]) = NoFault ->
  exists row w1 w2,
    createSearchSession E query metadata w = (Ok row, w1)
    /\ row = {| ss_id := length (search_sessions (store w)); ss_query := query;
                ss_status := Pending; ss_metadata := metadata |}
    /\ search_sessions (store w1) = search_sessions (store w) ++ [row]
    /\ updateSearchSession E (ss_id row) status metadata' w1
       = (Ok (Some {| ss_id := ss_id row; ss_query := query;
                      ss_status := status; ss_metadata := metadata' |}), w2)
    /\ search_sessions (store w2)
       = search_sessions (store w)
         ++ [{| ss_id := ss_id row; ss_query := query;
                ss_status := status; ss_metadata := metadata' |}]
    /\ (forall unknown,
           (length (search_sessions (store w1)) <= unknown)%nat ->
           updateSearchSession E unknown status metadata' w1
           = (Ok None, emit (EvStore (OpUpdateSession unknown)) w1)).
Proof.
  intros Hfault Hfault'.
  unfold createSearchSession, updateSearchSession, store_call.
  rewrite Hfault. simpl. do 3 eexists. split; [reflexivity |].
  split; [reflexivity |]. split; [reflexivity |]. simpl. rewrite Hfault'.
  rewrite list_lookup_middle by reflexivity. simpl.
  split; [reflexivity |]. split.
  - rewrite insert_app_r_alt by lia. rewrite Nat.sub_diag. reflexivity.
  - intros unknown Hge. rewrite lookup_ge_None_2 by exact Hge. reflexivity.
Qed.

End Sessions.

Lemma session_round_trip_witness :
  exists row w1 w2,
    createSearchSession sampleEnv "rocq" ∅ initial_world = (Ok row, w1)
    /\ updateSearchSession sampleEnv (ss_id row) Completed ∅ w1
       = (Ok (Some {| ss_id := ss_id row; ss_query := "rocq";
                      ss_status := Completed; ss_metadata := ∅ |}), w2).
Proof.
  destruct (session_round_trip sampleEnv "rocq" ∅ ∅ Completed initial_world
              eq_refl eq_refl)
    as (row & w1 & w2 & Hcreate & _ & _ & Hupdate & _).
  exists row, w1, w2. auto.
Defined.

(** ** Failures of a run *)

Section RunFailures.

Variable E : Env.

(** X22 — when the session cannot be created, because the pool gives
    no connection or the insert fails, [performDeepSearch] raises the
    store's error to its caller after that one call: no term is
    generated, nothing is searched and nothing is written. *)
Theorem session_failure_stops_run (query : string) (options : DeepSearchOptions)
        (w : World) (message : string) :
  default true (saveToDatabase options) = true ->
  fault_message (store_fault E (trace w)) = Some message ->
  Orchestrator.performDeepSearch E query options w
  = (Throw message, emit (EvStore OpCreateSession) w).
Proof.
  intros Hsave Hfault.
  unfold Orchestrator.performDeepSearch, Orchestrator.openSession. rewrite Hsave.
  unfold bind, clock, createSearchSession, store_call.
  destruct (store_fault E (trace w)) as [| m | m]; simpl in Hfault;
    [discriminate | |]; injection Hfault as ->; reflexivity.
Qed.

(** X23 — when a session-backed run fails and the update that should
    mark the session fails as well, the error [performDeepSearch] raises
    is the store's: the failure of the run is lost, and the session keeps
    the row the run left. *)
Theorem handler_failure_masks_error (query : string) (options : DeepSearchOptions)
        (w w1 w2 : World) (session : SessionRow) (failure message : string) :
  Orchestrator.openSession E query options w = (Ok (Some session), w1) ->
  Orchestrator.run E query options (Some session) w1 = (Throw failure, w2) ->
  fault_message (store_fault E (trace w2)) = Some message ->
  exists w',
    Orchestrator.performDeepSearch E query options w = (Throw message, w')
    /\ trace w' = trace w2 ++ [EvStore (OpUpdateSession (ss_id session))]
    /\ store w' = store w2.
Proof.
  intros Hopen Hrun Hfault.
  unfold Orchestrator.performDeepSearch. unfold bind at 1. rewrite Hopen.
  unfold try_catch. rewrite Hrun.
  unfold Orchestrator.on_error, bind, clock, updateSearchSession, store_call.
  destruct (store_fault E (trace w2)) as [| m | m]; simpl in Hfault;
    [discriminate | |]; injection Hfault as ->;
    (eexists; split; [reflexivity | split; reflexivity]).
Qed.

(** X24 — when the model answers the term-expansion prompt with a JSON
    object that has no [search_terms], a session-backed run fails on
    reading the length of the missing list: nothing is searched, the
    error is raised to the caller and, the store accepting the update,
    the session is marked as failed with that message. *)
Theorem missing_terms_fail_run (query : string) (options : DeepSearchOptions)
        (w w1 : World) (session : SessionRow) (response jsonMatch : string)
        (data : SearchTermsData) :
  Orchestrator.openSession E query options w = (Ok (Some session), w1) ->
  llm_generate E (trace w1) ExpandTerms query = inr response ->
  LLMService.match_braces response = Some jsonMatch ->
  JSON_parse_terms E jsonMatch = Some data ->
  search_terms data = TermsMissing ->
  store_fault E (trace w1 ++ [EvGenerate ExpandTerms query]) = NoFault ->
  exists w' row,
    Orchestrator.performDeepSearch E query options w = (Throw undefined_length, w')
    /\ trace w' = trace w1 ++ [EvGenerate ExpandTerms query;
                               EvStore (OpUpdateSession (ss_id session))]
    /\ search_sessions (store w') !! ss_id session = Some row
    /\ ss_status row = Failed
    /\ ss_metadata row !! "error" = Some (MText undefined_length).
Proof.
  intros Hopen Hllm Hmatch Hparse Hnone Hfault.
  destruct (openSession_row E _ _ _ _ _ Hopen) as [Hrow _].
  unfold Orchestrator.performDeepSearch. unfold bind at 1. rewrite Hopen.
  unfold try_catch, Orchestrator.run. unfold bind at 1.
  rewrite generateSearchTerms_run, llm_generateSearchTerms_run.
  rewrite Hllm, Hmatch, Hparse. unfold bind at 1. simpl search_terms.
  rewrite Hnone. simpl Orchestrator.searchFromTerms. unfold throw at 1.
  unfold Orchestrator.on_error, bind, clock, updateSearchSession, store_call, throw, ret.
  simpl. rewrite Hfault, Hrow. simpl.
  do 2 eexists. split; [reflexivity |]. simpl.
  split; [rewrite <- app_assoc; reflexivity |].
  split; [apply list_lookup_insert_eq; eapply lookup_lt_Some, Hrow |].
  split; [reflexivity |].
  simpl. rewrite lookup_insert_ne by discriminate. apply lookup_insert_eq.
Qed.

End RunFailures.

Lemma session_failure_stops_run_witness :
  default true (saveToDatabase plain_options) = true
  /\ Orchestrator.performDeepSearch offlineEnv "rocq" plain_options initial_world
     = (Throw "connect ECONNREFUSED 127.0.0.1:5432",
        emit (EvStore OpCreateSession) initial_world).
Proof.
  split; [reflexivity |].
  apply (session_failure_stops_run offlineEnv "rocq" plain_options initial_world);
    reflexivity.
Defined.

Lemma handler_failure_masks_error_witness :
  exists w',
    Orchestrator.performDeepSearch flakyEnv "rocq" plain_options initial_world
    = (Throw "pool exhausted", w')
    /\ search_sessions (store w') !! 0%nat
       = Some {| ss_id := 0; ss_query := "rocq"; ss_status := Pending;
                 ss_metadata :=
                   Orchestrator.opening_metadata plain_options
                     "2025-09-20T10:11:12.000Z" |}.
Proof.
  pose (r1 := Orchestrator.openSession flakyEnv "rocq" plain_options initial_world).
  pose (s := {| ss_id := 0; ss_query := "rocq"; ss_status := Pending;
                ss_metadata :=
                  Orchestrator.opening_metadata plain_options
                    "2025-09-20T10:11:12.000Z" |}).
  pose (r2 := Orchestrator.run flakyEnv "rocq" plain_options (Some s) (snd r1)).
  destruct (handler_failure_masks_error flakyEnv "rocq" plain_options
              initial_world (snd r1) (snd r2) s
              "Erro ao gerar relatório: Erro ao gerar resposta: connect ECONNREFUSED"
              "pool exhausted")
    as (w' & Hrun & _ & Hstore); [reflexivity | reflexivity | reflexivity |].
  exists w'. split; [exact Hrun |]. rewrite Hstore. reflexivity.
Defined.

Lemma missing_terms_fail_run_witness :
  exists w' row,
    Orchestrator.performDeepSearch terseEnv "rocq" plain_options initial_world
    = (Throw undefined_length, w')
    /\ search_sessions (store w') !! 0%nat = Some row
    /\ ss_status row = Failed.
Proof.
  pose (r1 := Orchestrator.openSession terseEnv "rocq" plain_options initial_world).
  pose (s := {| ss_id := 0; ss_query := "rocq"; ss_status := Pending;
                ss_metadata :=
                  Orchestrator.opening_metadata plain_options
                    "2025-09-20T10:11:12.000Z" |}).
  destruct (missing_terms_fail_run terseEnv "rocq" plain_options
              initial_world (snd r1) s "{}" "{}"
              {| original_query := None; search_terms := TermsMissing; categories := None |})
    as (w' & row & Hrun & _ & Hrow & Hstatus & _); try reflexivity.
  exists w', row. auto.
Defined.

(** ** A run that completes *)

Section HealthyRun.

Variable E : Env.

Lemma generateReport_healthy (query : string) (analysis : ContentAnalysis)
      (sessionId : option nat) (w : World) (content : string) :
  healthy E ->
  llm_generate E (trace w) SynthesizeReport query = inr content ->
  exists report w',
    Orchestrator.generateReport E query analysis sessionId w = (Ok report, w')
    /\ rep_content report = content
    /\ rep_sourceCount report = ca_totalSources analysis
    /\ rep_successfulAnalyses report = successfulAnalyses analysis
    /\ search_sessions (store w') = search_sessions (store w)
    /\ web_sources (store w') = web_sources (store w)
    /\ reports (store w')
       = reports (store w)
         ++ match sessionId with
            | Some id => [{| rr_session := id;
                             rr_title := rep_title report;
                             rr_content := content;
                             rr_file_path := rep_filepath report |}]
            | None => []
            end.
Proof.
  intros Hh Hllm.
  unfold Orchestrator.generateReport, try_catch, bind,
    LLMService.generateFinalReport, try_catch, LLMService.generateResponse, clock.
  rewrite Hllm. simpl. destruct sessionId as [id |].
  - unfold saveReport, store_call. rewrite Hh. simpl. unfold ret.
    do 2 eexists. split; [reflexivity |]. simpl. repeat split.
  - unfold ret. do 2 eexists. split; [reflexivity |]. simpl.
    rewrite app_nil_r. repeat split.
Qed.

Lemma generateSearchTerms_terms (query : string) (w : World) :
  (forall jsonMatch data,
      JSON_parse_terms E jsonMatch = Some data -> listed (search_terms data)) ->
  exists data,
    Orchestrator.generateSearchTerms E query w
    = (Ok data, emit (EvGenerate ExpandTerms query) w)
    /\ listed (search_terms data).
Proof.
  intros Hparse. rewrite generateSearchTerms_run, llm_generateSearchTerms_run.
  destruct (llm_generate E (trace w) ExpandTerms query) as [message | response].
  - eexists. split; [reflexivity | exact I].
  - destruct (LLMService.match_braces response) as [jsonMatch |].
    + destruct (JSON_parse_terms E jsonMatch) as [data |] eqn:Hdata.
      * exists data. split; [reflexivity | apply (Hparse _ _ Hdata)].
      * eexists. split; [reflexivity | exact I].
    + eexists. split; [reflexivity | exact I].
Qed.

Lemma searchFromTerms_total (value : TermsValue) (maxResults : option Z)
      (advanced : option bool) (w : World) :
  listed value ->
  0 < cfg_maxConcurrentScrapes E ->
  exists web w',
    Orchestrator.searchFromTerms E value maxResults advanced w = (Ok web, w').
Proof.
  intros Hlisted Hpos. destruct value as [| | terms | text | first];
    try contradiction; simpl.
  - apply performWebSearch_total, Hpos.
  - destruct (performWebSearch_total E (Orchestrator.characters text) maxResults
                advanced w Hpos) as (web & w' & Hweb).
    unfold bind. rewrite Hweb. do 2 eexists. reflexivity.
Qed.

(** X25 — a session-backed run completes whenever the store answers
    every call, the two batch sizes are positive, the model answers the
    report prompt, and every decoded term expansion has an array or a
    string under [search_terms]: no failure of the search provider, of a page fetch,
    of the term expansion, of a source analysis or of the embedding model
    stops it.  The result carries the id of the session the run appended;
    the session ends completed, with the number of sources found in its
    metadata; every scraped source is analyzed and saved as exactly one
    row; and the report is saved as one row with the content and the path
    the result reports. *)
Theorem healthy_run_completes (query : string) (options : DeepSearchOptions) (w : World) :
  healthy E ->
  0 < cfg_maxConcurrentScrapes E ->
  0 < cfg_parallelProcessingLimit E ->
  (forall t, exists content, llm_generate E t SynthesizeReport query = inr content) ->
  (forall jsonMatch data,
      JSON_parse_terms E jsonMatch = Some data -> listed (search_terms data)) ->
  default true (saveToDatabase options) = true ->
  exists result w' row saved,
    Orchestrator.performDeepSearch E query options w = (Ok result, w')
    /\ res_sessionId result = Some (length (search_sessions (store w)))
    /\ search_sessions (store w') = search_sessions (store w) ++ [row]
    /\ ss_status row = Completed
    /\ ss_query row = query
    /\ ss_metadata row !! "sourcesFound"
       = Some (MCount (Z.of_nat (length (wr_sources (res_webResults result)))))
    /\ map ar_source (individualAnalyses (res_analysis result))
       = wr_sources (res_webResults result)
    /\ map sr_url (web_sources (store w'))
       ≡ₚ map sr_url (web_sources (store w))
          ++ map src_url (wr_sources (res_webResults result))
    /\ reports (store w') = reports (store w) ++ [saved]
    /\ rr_session saved = length (search_sessions (store w))
    /\ rr_content saved = rep_content (res_report result)
    /\ rr_file_path saved = rep_filepath (res_report result).
Proof.
  intros Hh Hscrape Hbatch Hreport Hparse Hsave.
  set (session := {| ss_id := length (search_sessions (store w));
                     ss_query := query;
                     ss_status := Pending;
                     ss_metadata :=
                       Orchestrator.opening_metadata options (now E (trace w)) |}).
  set (w1 := {| trace := trace w ++ [EvStore OpCreateSession];
                store := {| search_sessions := search_sessions (store w) ++ [session];
                            web_sources := web_sources (store w);
                            reports := reports (store w);
                            embeddings_cache := embeddings_cache (store w) |} |}).
  assert (Hopen : Orchestrator.openSession E query options w = (Ok (Some session), w1)).
  { unfold Orchestrator.openSession. rewrite Hsave.
    unfold bind, clock, createSearchSession, store_call, ret. rewrite Hh. reflexivity. }
  assert (Hid : ss_id session = length (search_sessions (store w))) by reflexivity.
  assert (Hquery : ss_query session = query) by reflexivity.
  assert (Hs1 : search_sessions (store w1) = search_sessions (store w) ++ [session])
    by reflexivity.
  assert (Hrows1 : web_sources (store w1) = web_sources (store w)) by reflexivity.
  assert (Hr1 : reports (store w1) = reports (store w)) by reflexivity.
  clearbody w1 session.
  destruct (generateSearchTerms_terms query w1 Hparse) as (data & Hterms & Hlisted).
  set (w2 := emit (EvGenerate ExpandTerms query) w1) in *.
  destruct (searchFromTerms_total (search_terms data)
              (Some (default (cfg_maxResults E) (maxSources options)))
              (Some (default true (useAdvancedSearch options))) w2 Hlisted Hscrape)
    as (web & w3 & Hweb).
  destruct (searchFromTerms_run E _ _ _ _ _ _ Hweb) as (events & Hw3).
  destruct (analyzeContent_settles E query web
              (Some (default true (generateEmbeddings options)))
              (Some (ss_id session)) w3 Hbatch)
    as (analysis & w4 & Hanalysis & _ & _ & _ & _ & _ & Hhealthy).
  destruct (Hhealthy Hh) as (Hsources & Hs4 & Hr4 & Hrows4).
  destruct (Hreport (trace w4)) as [content Hcontent].
  destruct (generateReport_healthy query analysis (Some (ss_id session)) w4 content
              Hh Hcontent)
    as (report & w5 & Hrep & Hrc & _ & _ & Hs5 & Hrows5 & Hr5).
  assert (Hstore3 : store w3 = store w1) by (rewrite Hw3; reflexivity).
  assert (Hsessions5 : search_sessions (store w5) = search_sessions (store w) ++ [session]).
  { rewrite Hs5, Hs4, Hstore3. exact Hs1. }
  assert (Hrow5 : search_sessions (store w5) !! ss_id session = Some session).
  { rewrite Hsessions5. apply list_lookup_middle. exact Hid. }
  unfold Orchestrator.performDeepSearch. unfold bind at 1. rewrite Hopen.
  unfold try_catch, Orchestrator.run. unfold bind at 1. rewrite Hterms.
  unfold bind at 1. rewrite Hweb.
  unfold bind at 1. simpl fmap. rewrite Hanalysis.
  unfold bind at 1. rewrite Hrep.
  unfold bind, clock, updateSearchSession, store_call, ret.
  rewrite Hh, Hrow5. simpl.
  do 4 eexists. split; [reflexivity |]. simpl.
  split; [rewrite Hid; reflexivity |]. split.
  { rewrite Hsessions5. rewrite insert_app_r_alt by lia.
    rewrite Hid, Nat.sub_diag. reflexivity. }
  split; [reflexivity |]. split; [exact Hquery |]. split.
  { simpl. rewrite lookup_insert_ne by discriminate. apply lookup_insert_eq. }
  split; [exact Hsources |]. split.
  { rewrite Hrows5, Hrows4, Hstore3, Hrows1. reflexivity. }
  split.
  { rewrite Hr5, Hr4, Hstore3, Hr1. reflexivity. }
  split; [exact Hid |]. split; [symmetry; exact Hrc | reflexivity].
Qed.

End HealthyRun.

Lemma healthy_run_completes_witness :
  healthy reportingEnv
  /\ exists result w' row,
      Orchestrator.performDeepSearch reportingEnv "rocq" plain_options initial_world
      = (Ok result, w')
      /\ res_sessionId result = Some 0%nat
      /\ search_sessions (store w') = [row]
      /\ ss_status row = Completed.
Proof.
  assert (Hh : healthy reportingEnv) by (intros t; reflexivity).
  split; [exact Hh |].
  destruct (healthy_run_completes reportingEnv "rocq" plain_options initial_world Hh)
    as (result & w' & row & saved & Hrun & Hid & Hsessions & Hstatus & _).
  - reflexivity.
  - reflexivity.
  - intros t. exists "# Report". reflexivity.
  - intros jsonMatch data Hdata. discriminate.
  - reflexivity.
  - exists result, w', row. auto.
Defined.

(** ** Batch sizes that are not positive *)

Section Stuck.

Variable E : Env.

(** X26 — with [maxConcurrentScrapes] at zero or below, a retrieval
    phase whose searches return at least one hit never returns: the loop
    that cuts the hits into chunks makes no progress, and no page is
    fetched.  With [parallelProcessingLimit] at zero or below the same
    holds for the analysis of a non-empty list of sources: no source is
    analyzed.  Neither is an exception, so no handler runs. *)
Theorem nonpositive_sizes_hang (query : string) (searchTerms : list string)
        (maxResults : Z) (advanced : bool) (webResults : WebResults)
        (wanted : option bool) (sessionId : option nat) (w w1 : World)
        (hits : list Hit) :
  (cfg_maxConcurrentScrapes E <= 0 ->
   Orchestrator.searchPhase E searchTerms maxResults advanced w = (Ok hits, w1) ->
   hits <> [] ->
   Orchestrator.performWebSearch E searchTerms (Some maxResults) (Some advanced) w
   = (Hang, w1))
  /\ (cfg_parallelProcessingLimit E <= 0 ->
      wr_sources webResults <> [] ->
      Orchestrator.analyzeContent E query webResults wanted sessionId w = (Hang, w)).
Proof.
  split.
  - intros Hsize Hsearch Hne.
    unfold Orchestrator.performWebSearch, try_catch, bind. simpl default.
    rewrite Hsearch. unfold scrapeContent, chunkArray.
    replace (Z.to_nat (cfg_maxConcurrentScrapes E)) with O by lia.
    rewrite (chunk_loop_stuck _ _ Hne). reflexivity.
  - intros Hsize Hne.
    unfold Orchestrator.analyzeContent, try_catch, chunkArray.
    replace (Z.to_nat (cfg_parallelProcessingLimit E)) with O by lia.
    rewrite (chunk_loop_stuck _ _ Hne). reflexivity.
Qed.

End Stuck.

Lemma nonpositive_sizes_hang_witness :
  cfg_maxConcurrentScrapes (with_sizes sampleEnv 0 0) <= 0
  /\ fst (Orchestrator.performWebSearch (with_sizes sampleEnv 0 0) ["rocq"]
            (Some 4) (Some false) initial_world) = Hang
  /\ fst (Orchestrator.analyzeContent (with_sizes sampleEnv 0 0) "rocq"
            {| wr_searchTerms := TermsArray ["rocq"]; wr_sources := [sample_source];
               wr_stats := getSearchStats [sample_source] |}
            None None initial_world) = Hang.
Proof.
  assert (Hsize : cfg_maxConcurrentScrapes (with_sizes sampleEnv 0 0) <= 0)
    by (vm_compute; discriminate).
  split; [exact Hsize |].
  pose (r := Orchestrator.searchPhase (with_sizes sampleEnv 0 0) ["rocq"] 4 false
                                      initial_world).
  destruct (nonpositive_sizes_hang (with_sizes sampleEnv 0 0) "rocq" ["rocq"] 4 false
              {| wr_searchTerms := TermsArray ["rocq"]; wr_sources := [sample_source];
                 wr_stats := getSearchStats [sample_source] |}
              None None initial_world (snd r)
              (map (with_searchTerm "rocq")
                   (parseDuckDuckGoResults (with_sizes sampleEnv 0 0)
                      [block "Example" "https://example.com/";
                       block "Other" "https://other.org/"])))
    as [Hscrape Hanalyze].
  split.
  - rewrite Hscrape; [reflexivity | exact Hsize | reflexivity | discriminate].
  - rewrite Hanalyze; [reflexivity | vm_compute; discriminate | discriminate].
Defined.

Lemma extractSearchTermsFallback_distinct_witness :
  let response := "Sugiro buscar por 'machine learning' e 'redes neurais'." in
  exists terms,
    search_terms (LLMService.extractSearchTermsFallback "ia" response) = TermsArray terms
    /\ "machine learning" ∈ terms
    /\ "machine learning" <> "ia"
    /\ exists m, m ∈ LLMService.quoted None response /\ "machine learning" = Text.trim m.
Proof.
  intros response.
  destruct (extractSearchTermsFallback_distinct "ia" response)
    as (terms & Hterms & _ & _ & Hfrom & _).
  assert (Hin : "machine learning" ∈ terms).
  { vm_compute in Hterms. injection Hterms as <-. right. left. }
  assert (Hne : "machine learning" <> "ia") by discriminate.
  exists terms. split; [exact Hterms |]. split; [exact Hin |]. split; [exact Hne |].
  exact (Hfrom "machine learning" Hin Hne).
Defined.

(** ** A search without terms *)

Section NoTerms.

Variable E : Env.

(** X27 — with an empty list of terms, as when the model answers the
    term-expansion prompt with an empty [search_terms], the search phase
    in advanced mode still asks the provider seven queries: the
    refinements of the text undefined, which is what the missing first
    term prints as, each with the configured maximum divided by seven;
    without advanced mode it asks nothing and finds nothing. *)
Theorem search_without_terms (maxResults : Z) (w : World) :
  let budget := JS.ceil_div (cfg_maxResults E) 7 in
  let quoted_undefined := JS.dquote +:+ "undefined" +:+ JS.dquote in
  (exists hits events,
      Orchestrator.searchPhase E [] maxResults true w = (Ok hits, extend events w)
      /\ search_calls events
         = [ (quoted_undefined, budget);
             ("undefined filetype:pdf", budget);
             ("undefined site:wikipedia.org", budget);
             ("undefined site:edu", budget);
             ("undefined site:org", budget);
             ("undefined inurl:blog", budget);
             ("undefined intitle:" +:+ quoted_undefined, budget) ])
  /\ Orchestrator.searchPhase E [] maxResults false w = (Ok [], w).
Proof.
  intros budget quoted_undefined. split; [| reflexivity].
  destruct (searchPhase_advanced_run E [] maxResults w) as [hits Hrun].
  do 2 eexists. split; [exact Hrun |].
  rewrite search_calls_app, search_calls_dork_events, search_calls_multiSearch_events.
  reflexivity.
Qed.

End NoTerms.

(** ** Redirect links of the provider *)

Section Redirects.

Variable E : Env.

Lemma until_amp_value (target rest : string) :
  ~ occurs "&" target ->
  rest = EmptyString \/ (exists r, rest = String "&" r) ->
  until_amp (target +:+ rest) = target.
Proof.
  intros Hnone Hrest. induction target as [| c target IH].
  - destruct Hrest as [-> | [r ->]]; reflexivity.
  - simpl in Hnone |- *. destruct (Ascii.eqb c "&") eqn:Hc.
    + apply Ascii.eqb_eq in Hc. tauto.
    + f_equal. apply IH. tauto.
Qed.

Lemma substring0_all (m : nat) (t : string) :
  (String.length t <= m)%nat -> String.substring 0 m t = t.
Proof.
  revert m. induction t as [| c t IH]; intros [| m] Hlen; simpl in *;
    try reflexivity; try lia.
  f_equal. apply IH. lia.
Qed.

Lemma match_uddg_cons (c : ascii) (s : string) :
  match_uddg (String c s)
  = if String.prefix "uddg=" (String c s)
    then match until_amp (String.substring 5 (String.length (String c s)) (String c s)) with
         | EmptyString => match_uddg s
         | captured => Some captured
         end
    else match_uddg s.
Proof. reflexivity. Qed.

Lemma match_uddg_here (target rest : string) :
  target <> EmptyString ->
  ~ occurs "&" target ->
  rest = EmptyString \/ (exists r, rest = String "&" r) ->
  match_uddg ("uddg=" +:+ target +:+ rest) = Some target.
Proof.
  intros Hne Hnone Hrest.
  change ("uddg=" +:+ target +:+ rest)
    with (String "u" ("ddg=" +:+ target +:+ rest)).
  rewrite match_uddg_cons.
  change (String "u" ("ddg=" +:+ target +:+ rest))
    with ("uddg=" +:+ target +:+ rest).
  rewrite prefix_append.
  change (String.substring 5 (String.length ("uddg=" +:+ target +:+ rest))
                           ("uddg=" +:+ target +:+ rest))
    with (String.substring 0 (5 + String.length (target +:+ rest)) (target +:+ rest)).
  rewrite substring0_all by lia.
  rewrite (until_amp_value target rest Hnone Hrest).
  destruct target; [contradiction | reflexivity].
Qed.

Lemma match_uddg_skip (p tail : string) :
  (forall a b, p = a +:+ b -> b <> EmptyString ->
               String.prefix "uddg=" (b +:+ tail) = false) ->
  match_uddg (p +:+ tail) = match_uddg tail.
Proof.
  induction p as [| c p IH]; intros Hskip; [reflexivity |].
  change (String c p +:+ tail) with (String c (p +:+ tail)).
  rewrite match_uddg_cons.
  change (String c (p +:+ tail)) with (String c p +:+ tail).
  rewrite (Hskip EmptyString (String c p) eq_refl) by discriminate.
  apply IH. intros a b -> Hb. apply (Hskip (String c a) b); [reflexivity | exact Hb].
Qed.

Lemma prefix_app_cases (q b tail : string) :
  String.prefix q (b +:+ tail) = true ->
  String.prefix q b = true \/ exists q2, q = b +:+ q2 /\ q2 <> EmptyString.
Proof.
  revert b. induction q as [| c q IH]; intros b Hprefix.
  - left. destruct b; reflexivity.
  - destruct b as [| c' b].
    + right. exists (String c q). split; [reflexivity | discriminate].
    + change (String c' b +:+ tail) with (String c' (b +:+ tail)) in Hprefix.
      simpl in Hprefix. destruct (ascii_dec c c') as [<- | Hne]; [| discriminate].
      destruct (IH b Hprefix) as [Hb | (q2 & -> & Hq2)].
      * left. rewrite prefix_same_head. exact Hb.
      * right. exists q2. split; [reflexivity | exact Hq2].
Qed.

Lemma suffix_ends (a b p0 : string) (c : ascii) :
  a +:+ b = p0 +:+ String c EmptyString ->
  b <> EmptyString ->
  exists b0, b = b0 +:+ String c EmptyString.
Proof.
  revert p0. induction a as [| x a IH]; intros p0 Heq Hb.
  - exists p0. exact Heq.
  - destruct p0 as [| y p0].
    + simpl in Heq. injection Heq as _ Heq.
      destruct a; [simpl in Heq; contradiction | discriminate].
    + simpl in Heq. injection Heq as _ Heq. apply (IH p0 Heq Hb).
Qed.

Lemma no_early_uddg (p0 tail : string) :
  JS.includes "uddg=" (p0 +:+ "?") = false ->
  forall a b, p0 +:+ "?" = a +:+ b -> b <> EmptyString ->
              String.prefix "uddg=" (b +:+ tail) = false.
Proof.
  intros Hnone a b Heq Hb.
  destruct (String.prefix "uddg=" (b +:+ tail)) eqn:Hprefix; [| reflexivity].
  exfalso. destruct (prefix_app_cases _ _ _ Hprefix) as [Hin | (q2 & Hq & Hq2)].
  - rewrite Heq, (includes_anywhere "uddg=" a b Hin) in Hnone. discriminate.
  - destruct (suffix_ends a b p0 "?" (eq_sym Heq) Hb) as [b0 ->].
    assert (Hocc : occurs "?" "uddg=").
    { rewrite Hq. apply occurs_app. left. apply occurs_app. right. left. reflexivity. }
    simpl in Hocc. repeat (destruct Hocc as [Hocc | Hocc]; [discriminate |]).
    exact Hocc.
Qed.

(** X28 — [normalizeUrl] on a redirect link of the provider: when the
    link holds the marker [/l/?uddg=] with no earlier [uddg=], it is
    replaced by the decoded value of that parameter, read up to the next
    ampersand or the end of the link; if the value cannot be decoded the
    link is returned as it is.  A link without the marker is returned in
    the normal form of the URL parser, or as it is when it does not
    parse. *)
Theorem normalizeUrl_unwraps (origin target rest url : string) :
  (JS.includes "/l/?uddg=" url = false ->
   normalizeUrl E url = default url (URL_href E url))
  /\ (JS.includes "uddg=" (origin +:+ "/l/?") = false ->
      target <> EmptyString ->
      ~ occurs "&" target ->
      rest = EmptyString \/ (exists r, rest = String "&" r) ->
      url = origin +:+ "/l/?uddg=" +:+ target +:+ rest ->
      normalizeUrl E url = default url (decodeURIComponent E target)).
Proof.
  split.
  - intros Hplain. unfold normalizeUrl. rewrite Hplain. reflexivity.
  - intros Hearly Hne Hnone Hrest ->. unfold normalizeUrl.
    rewrite (includes_anywhere "/l/?uddg=" origin ("/l/?uddg=" +:+ target +:+ rest))
      by apply prefix_append.
    replace (origin +:+ "/l/?uddg=" +:+ target +:+ rest)
      with (((origin +:+ "/l/") +:+ "?") +:+ "uddg=" +:+ target +:+ rest)
      by (rewrite !append_assoc; reflexivity).
    rewrite match_uddg_skip.
    + rewrite (match_uddg_here target rest Hne Hnone Hrest). reflexivity.
    + apply no_early_uddg. rewrite append_assoc. exact Hearly.
Qed.

End Redirects.

Lemma normalizeUrl_unwraps_witness :
  JS.includes "uddg=" ("//duckduckgo.com" +:+ "/l/?") = false
  /\ normalizeUrl sampleEnv "//duckduckgo.com/l/?uddg=https://example.com/a&rut=1"
     = "https://example.com/a"
  /\ normalizeUrl sampleEnv "https://example.com/b" = "https://example.com/b".
Proof.
  split; [reflexivity |].
  destruct (normalizeUrl_unwraps sampleEnv "//duckduckgo.com" "https://example.com/a"
              "&rut=1" "//duckduckgo.com/l/?uddg=https://example.com/a&rut=1")
    as [_ Hredirect].
  destruct (normalizeUrl_unwraps sampleEnv "//duckduckgo.com" "https://example.com/a"
              "&rut=1" "https://example.com/b")
    as [Hplain _].
  split.
  - rewrite Hredirect; [reflexivity | reflexivity | discriminate | | | reflexivity].
    + simpl. intros H. repeat (destruct H as [H | H]; [discriminate |]). exact H.
    + right. eexists. reflexivity.
  - rewrite Hplain; reflexivity.
Defined.
